(** * Battery monitor: status classification and session aggregation

    A shallow embedding of [battery_monitor_streamlit.py]: the chemistry
    table [CELL_TYPES], the reading generator [generate_cell_data], the
    classifier [get_cell_status], the aggregator
    [calculate_session_averages], the comparison chart
    [create_comparison_chart], the exporter [export_to_csv] and the sidebar
    handlers of [main] that write the session log.

    Numbers.  The program computes on IEEE binary64 values (Python floats
    and NumPy float64 scalars).  The functions are written over an
    interface [Arith] of the operations the source uses, and [binary64]
    interprets them on Rocq's primitive floats (binary64, round to nearest
    even, as the interpreter computes).  Structural facts are proved for
    every interpretation of the interface; evaluations and the ranges of
    the generated values are in [binary64], the ranges by an order
    argument on the specification of the primitive operations.

    Effects.  A failed dictionary lookup is an exception ([Raise]);
    [datetime.now()] and [np.random.random()] are inputs of the function
    that calls them; the cell dictionaries of [st.session_state] live in a
    store and are named by location, since the handlers share them. *)

From Stdlib Require Import ZArith Floats Lia.
From stdpp Require Import gmap strings list pretty.

Set Default Proof Using "Type".
Local Open Scope Z_scope.

(** ** Exceptions *)

Inductive exn :=
| KeyError (key : string)
| TypeError.

Inductive result (A : Type) :=
| Ok (a : A)
| Raise (e : exn).
Arguments Ok {A} a.
Arguments Raise {A} e.

#[global] Instance result_ret : MRet result := fun A a => Ok a.
#[global] Instance result_bind : MBind result := fun A B f m =>
  match m with
  | Ok a => f a
  | Raise e => Raise e
  end.
#[global] Instance result_fmap : FMap result := fun A B f m =>
  match m with
  | Ok a => Ok (f a)
  | Raise e => Raise e
  end.

(** [d[key]] on a dictionary modelled as a finite map. *)
Definition getitem {V} (d : gmap string V) (key : string) : result V :=
  match d !! key with
  | Some v => Ok v
  | None => Raise (KeyError key)
  end.

(** ** Arithmetic *)

(** The numeric operations of the source.  [dec m e] is the decimal literal
    [m * 10^-e] (so [dec 32 1] is [3.2] and [dec 45 0] is [45]); [rint] is
    the C function (nearest integer, ties to even) that [np.round] calls;
    [pyround] is [float.__round__] with a number of digits. *)
Class Arith (N : Type) := {
  dec : Z → nat → N;
  add : N → N → N;
  sub : N → N → N;
  mul : N → N → N;
  div : N → N → N;
  eqb : N → N → bool;
  ltb : N → N → bool;
  leb : N → N → bool;
  rint : N → N;
  pyround : N → nat → N
}.

Declare Scope num_scope.
Delimit Scope num_scope with num.
Infix "+" := add : num_scope.
Infix "-" := sub : num_scope.
Infix "*" := mul : num_scope.
Infix "/" := div : num_scope.
Infix "<?" := ltb : num_scope.
Infix "<=?" := leb : num_scope.
Notation "x >? y" := (ltb y x) (at level 70) : num_scope.
Notation "x >=? y" := (leb y x) (at level 70) : num_scope.

Section Numeric.
Context {N : Type} `{Arith N}.

Definition isnan (x : N) : bool := negb (eqb x x).

(** [max(a, b)] of Python: the first argument unless the second is
    greater. *)
Definition py_max (a b : N) : N := if (b >? a)%num then b else a.

(** [np.clip(x, lo, hi)]: NumPy's [_NPY_CLIP], which lets a NaN through. *)
Definition np_clip (x lo hi : N) : N :=
  let y := if isnan x then x else if (x >? lo)%num then x else lo in
  if isnan y then y else if (y <? hi)%num then y else hi.

(** [round(x, d)] on a NumPy scalar: scale, [rint], scale back. *)
Definition np_round (x : N) (d : nat) : N :=
  let p := dec (10 ^ Z.of_nat d) 0 in
  (rint (x * p) / p)%num.

(** [np.sum(xs)] on float64: [np.add.reduce] starts from the identity 0
    and adds NumPy's [DOUBLE_pairwise_sum] of the array.  That function
    adds fewer than 8 elements from left to right; up to 128 elements it
    keeps 8 accumulators, which take the first 8 elements, then every
    further full block of 8 element by element, are summed as a balanced
    tree, and the elements left over are added one by one; a longer array
    is split in two, the first part of [n / 2] elements rounded down to a
    multiple of 8, and the two sums are added. *)
Definition tree8 (r : list N) : N :=
  match r with
  | [r0; r1; r2; r3; r4; r5; r6; r7] =>
      (((r0 + r1) + (r2 + r3)) + ((r4 + r5) + (r6 + r7)))%num
  | _ => dec 0 0
  end.

(** [r[j] += a[i + j]] for [k] blocks of 8. *)
Fixpoint add_blocks (k : nat) (r rest : list N) : list N * list N :=
  match k with
  | O => (r, rest)
  | S k => add_blocks k (zip_with add r (take 8 rest)) (drop 8 rest)
  end.

(** From 8 to 128 elements. *)
Definition block_sum (xs : list N) : N :=
  let '(r, rest) := add_blocks ((length xs - 8) / 8) (take 8 xs) (drop 8 xs) in
  foldl add (tree8 r) rest.

(** The recursion halves the array: [fuel] bounds its depth, and the
    length of the array is enough ([pairwise_sum_fuel]). *)
Fixpoint pairwise_sum (fuel : nat) (xs : list N) : N :=
  let n := length xs in
  if (n <? 8)%nat then foldl add (dec 0 0) xs
  else if (n <=? 128)%nat then block_sum xs
  else
    match fuel with
    | O => dec 0 0
    | S fuel =>
        let n2 := (n / 2 - (n / 2) mod 8)%nat in
        (pairwise_sum fuel (take n2 xs) + pairwise_sum fuel (drop n2 xs))%num
    end.

(** With fewer than 8 elements the identity is the start of the loop. *)
Definition np_sum (xs : list N) : N :=
  if (length xs <? 8)%nat then foldl add (dec 0 0) xs
  else (dec 0 0 + pairwise_sum (length xs) xs)%num.

(** [np.mean(xs)]: the sum divided by the count. *)
Definition np_mean (xs : list N) : N :=
  (np_sum xs / dec (Z.of_nat (length xs)) 0)%num.

End Numeric.

(** *** binary64 *)

Module B64.

Definition of_Z (z : Z) : float := SF2Prim (binary_normalize 53 1024 z 0 false).

(** A decimal literal is read as the nearest double: both [m] and [10^e]
    are doubles for the literals of the source, and their quotient is
    correctly rounded. *)
Definition dec (m : Z) (e : nat) : float :=
  PrimFloat.div (of_Z m) (of_Z (10 ^ Z.of_nat e)).

Definition two52 : float := of_Z (2 ^ 52).

(** [rint] in the default rounding mode, as the C library computes it:
    adding and removing [2^52] rounds to the nearest integer, ties to
    even; the sign is put back on a zero result. *)
Definition rint (x : float) : float :=
  if PrimFloat.ltb (PrimFloat.abs x) two52 then
    let r := PrimFloat.sub (PrimFloat.add (PrimFloat.abs x) two52) two52 in
    if PrimFloat.get_sign x then PrimFloat.opp r else r
  else x.

(** Nearest integer to [n / d], ties to even, for [0 < d]. *)
Definition div_half_even (n d : Z) : Z :=
  let q := n / d in
  let r := n mod d in
  match 2 * r ?= d with
  | Lt => q
  | Gt => q + 1
  | Eq => if Z.even q then q else q + 1
  end.

(** [float.__round__(x, d)] of CPython: the decimal with [d] digits that
    is nearest to the exact value of [x] (ties to even), read back as a
    double. *)
Definition pyround (x : float) (d : nat) : float :=
  match Prim2SF x with
  | S754_finite s m e =>
      let p := 10 ^ Z.of_nat d in
      let n := if 0 <=? e then Z.pos m * 2 ^ e * p
               else div_half_even (Z.pos m * p) (2 ^ (- e)) in
      let r := PrimFloat.div (of_Z n) (of_Z p) in
      if s then PrimFloat.opp r else r
  | _ => x
  end.

End B64.

#[global] Instance binary64 : Arith float := {|
  dec := B64.dec;
  add := PrimFloat.add;
  sub := PrimFloat.sub;
  mul := PrimFloat.mul;
  div := PrimFloat.div;
  eqb := PrimFloat.eqb;
  ltb := PrimFloat.ltb;
  leb := PrimFloat.leb;
  rint := B64.rint;
  pyround := B64.pyround
|}.

(** ** Data model *)

Section Model.
Context {N : Type} `{Arith N}.

(** An entry of [CELL_TYPES]. *)
Record cell_spec := {
  spec_name : string;
  nominal_voltage : N;
  minimum_voltage : N;
  maximum_voltage : N;
  charge_time : Z;
  discharge_time : Z
}.

Definition CELL_TYPES : gmap string cell_spec :=
  list_to_map [
    ("LFP", {| spec_name := "Lithium Iron Phosphate";
               nominal_voltage := dec 32 1;
               minimum_voltage := dec 28 1;
               maximum_voltage := dec 36 1;
               charge_time := 90; discharge_time := 180 |});
    ("NMC", {| spec_name := "Nickel Manganese Cobalt";
               nominal_voltage := dec 36 1;
               minimum_voltage := dec 32 1;
               maximum_voltage := dec 40 1;
               charge_time := 120; discharge_time := 240 |});
    ("LCO", {| spec_name := "Lithium Cobalt Oxide";
               nominal_voltage := dec 38 1;
               minimum_voltage := dec 30 1;
               maximum_voltage := dec 42 1;
               charge_time := 100; discharge_time := 200 |})
  ].

(** The dictionary [generate_cell_data] returns. *)
Record reading := {
  voltage : N;
  current : N;
  temperature : N;
  capacity : N;
  soc : N;
  timestamp : Z
}.

(** A cell of [st.session_state.cells_data]: the keys of a reading and
    the keys ["id"], ["name"] and ["type"]. *)
Record cell := {
  cell_id : Z;
  cell_name : string;
  cell_type : string;
  cell_voltage : N;
  cell_current : N;
  cell_temperature : N;
  cell_capacity : N;
  cell_soc : N;
  cell_timestamp : Z
}.

(** [cell_data.update({"id": .., "name": .., "type": ..})] on a fresh
    reading. *)
Definition new_cell (d : reading) (i : Z) (nm ty : string) : cell :=
  {| cell_id := i; cell_name := nm; cell_type := ty;
     cell_voltage := voltage d; cell_current := current d;
     cell_temperature := temperature d; cell_capacity := capacity d;
     cell_soc := soc d; cell_timestamp := timestamp d |}.

(** [cell.update(new_data)]: the six keys of the reading are overwritten,
    the others stay. *)
Definition cell_update (c : cell) (d : reading) : cell :=
  new_cell d (cell_id c) (cell_name c) (cell_type c).

(** A task dictionary.  [task.get(key)] is read on ["status"] and
    ["progress"], which are therefore optional; the parameters of a task
    kind are optional by construction. *)
Record task := {
  task_id : Z;
  task_type : string;
  task_duration : Z;
  task_progress : option Z;
  task_status : option string;
  task_start_time : option Z;
  task_end_time : option Z;
  task_cccp : option string;
  task_cv_voltage : option N;
  task_current : option N;
  task_capacity : option N;
  task_voltage : option N
}.

(** An element of [st.session_state.session_data]; ["tasks"] is read with
    [session.get('tasks', [])]. *)
Record snapshot := {
  snap_timestamp : Z;
  snap_cells : list cell;
  snap_tasks : option (list task)
}.

(** What a list handed to [calculate_session_averages] may hold: a
    dictionary with a ["cells"] key, a dictionary without one (a cell), or
    a value that is no dictionary. *)
Inductive entry :=
| Snapshot (s : snapshot)
| Reading (c : cell)
| NotDict.

(** A Python number: the literal [0] of the zero summary is an [int], a
    rounded mean is a float. *)
Inductive pynum :=
| PyInt (z : Z)
| PyFloat (x : N).

Record summary := {
  avg_voltage : pynum;
  avg_temperature : pynum;
  avg_soc : pynum;
  avg_capacity : pynum
}.

(** The dictionary [get_cell_status] returns. *)
Record cell_status := { st_status : string; st_color : string }.

Definition Critical : cell_status := {| st_status := "🚨 Critical"; st_color := "critical" |}.
Definition Warning : cell_status := {| st_status := "⚠️ Warning"; st_color := "warning" |}.
Definition High : cell_status := {| st_status := "🔋 High"; st_color := "normal" |}.
Definition Normal : cell_status := {| st_status := "🟢 Normal"; st_color := "normal" |}.

(** ** Control *)

(** [for x in xs: body], with the variables the body assigns as [s]. *)
Fixpoint for_each {A S} (xs : list A) (body : S → A → result S) (s : S) : result S :=
  match xs with
  | [] => Ok s
  | x :: xs' => s' ← body s x; for_each xs' body s'
  end.

(** [[f(x) for x in xs]]. *)
Fixpoint comprehension {A B} (f : A → result B) (xs : list A) : result (list B) :=
  match xs with
  | [] => Ok []
  | x :: xs' => y ← f x; ys ← comprehension f xs'; Ok (y :: ys)
  end.

(** ** generate_cell_data *)

(** [r1], [r2], [r3] are the three values [np.random.random()] returns, in
    call order; [now] is the value of [datetime.now()]. *)
Definition generate_cell_data (cell_type : string) (r1 r2 r3 : N) (now : Z)
  : result reading :=
  specs ← getitem CELL_TYPES cell_type;
  let base_voltage := nominal_voltage specs in
  let voltage_variation := ((r1 - dec 5 1) * dec 2 1)%num in
  let voltage := np_clip (base_voltage + voltage_variation)%num
                         (minimum_voltage specs) (maximum_voltage specs) in
  let current := py_max (dec 1 1) (dec 8 1 + (r2 - dec 5 1) * dec 5 1)%num in
  let temperature := (dec 25 0 + r3 * dec 20 0)%num in
  let capacity := (voltage * current)%num in
  let voltage_range := (maximum_voltage specs - minimum_voltage specs)%num in
  let soc := (((voltage - minimum_voltage specs) / voltage_range) * dec 100 0)%num in
  Ok {| voltage := np_round voltage 2;
        current := pyround current 2;
        temperature := pyround temperature 1;
        capacity := np_round capacity 2;
        soc := np_round soc 1;
        timestamp := now |}.

(** ** get_cell_status *)

Definition get_cell_status (voltage temperature : N) (cell_type : string)
  : result cell_status :=
  specs ← getitem CELL_TYPES cell_type;
  if (voltage <=? minimum_voltage specs * dec 11 1)%num
     || (temperature >? dec 45 0)%num then
    Ok Critical
  else if (voltage <=? minimum_voltage specs * dec 12 1)%num
          || (temperature >? dec 40 0)%num then
    Ok Warning
  else if (voltage >=? maximum_voltage specs * dec 9 1)%num then
    Ok High
  else
    Ok Normal.

(** ** calculate_session_averages *)

Definition zero_summary : summary :=
  {| avg_voltage := PyInt 0; avg_temperature := PyInt 0;
     avg_soc := PyInt 0; avg_capacity := PyInt 0 |}.

(** [isinstance(x, dict) and 'cells' in x]. *)
Definition has_cells (x : entry) : bool :=
  match x with
  | Snapshot _ => true
  | _ => false
  end.

(** [data_point['cells']]; the cells come back as the list elements they
    are, so that the flat shape and the flattened one share the rest of
    the function. *)
Definition get_cells (data_point : entry) : result (list entry) :=
  match data_point with
  | Snapshot s => Ok (Reading <$> snap_cells s)
  | Reading _ => Raise (KeyError "cells")
  | NotDict => Raise TypeError
  end.

(** [cell[key]] for a key of a reading. *)
Definition get_field (key : string) (field : cell → N) (x : entry) : result N :=
  match x with
  | Reading c => Ok (field c)
  | Snapshot _ => Raise (KeyError key)
  | NotDict => Raise TypeError
  end.

Definition calculate_session_averages (session_data : list entry) : result summary :=
  match session_data with
  | [] => Ok zero_summary
  | first :: _ =>
      cells_data ←
        (if has_cells first then
           for_each session_data
             (λ all_cells data_point,
                cs ← get_cells data_point; Ok (all_cells ++ cs)) []
         else Ok session_data);
      match cells_data with
      | [] => Ok zero_summary
      | _ :: _ =>
          vs ← comprehension (get_field "voltage" cell_voltage) cells_data;
          let v := np_round (np_mean vs) 2 in
          ts ← comprehension (get_field "temperature" cell_temperature) cells_data;
          let t := np_round (np_mean ts) 1 in
          ss ← comprehension (get_field "soc" cell_soc) cells_data;
          let s := np_round (np_mean ss) 1 in
          cs ← comprehension (get_field "capacity" cell_capacity) cells_data;
          let c := np_round (np_mean cs) 2 in
          Ok {| avg_voltage := PyFloat v; avg_temperature := PyFloat t;
                avg_soc := PyFloat s; avg_capacity := PyFloat c |}
      end
  end.

(** ** create_comparison_chart *)

Record bar := {
  bar_name : string;
  bar_x : list string;
  bar_y : list pynum;
  bar_marker_color : string
}.

Record layout := {
  layout_title : string;
  layout_template : string;
  layout_height : Z;
  layout_barmode : string
}.

(** A [go.Figure]: its traces and the layout set by [update_layout]. *)
Record figure := {
  fig_data : list bar;
  fig_layout : option layout
}.

(** [go.Figure()]. *)
Definition empty_figure : figure := {| fig_data := []; fig_layout := None |}.

Definition create_comparison_chart (current_data previous_data : list entry)
  : result figure :=
  match current_data, previous_data with
  | [], _ | _, [] => Ok empty_figure
  | _ :: _, _ :: _ =>
      current_avg ← calculate_session_averages current_data;
      previous_avg ← calculate_session_averages previous_data;
      let metrics := ["Voltage"; "Temperature"; "SOC"; "Capacity"] in
      let current_values := [avg_voltage current_avg; avg_temperature current_avg;
                             avg_soc current_avg; avg_capacity current_avg] in
      let previous_values := [avg_voltage previous_avg; avg_temperature previous_avg;
                              avg_soc previous_avg; avg_capacity previous_avg] in
      Ok {| fig_data :=
              [ {| bar_name := "Current Session"; bar_x := metrics;
                   bar_y := current_values; bar_marker_color := "#4f46e5" |};
                {| bar_name := "Previous Session"; bar_x := metrics;
                   bar_y := previous_values; bar_marker_color := "#7c3aed" |} ];
            fig_layout :=
              Some {| layout_title := "Session Comparison";
                      layout_template := "plotly_dark";
                      layout_height := 400;
                      layout_barmode := "group" |} |}
  end.

(** What a handler of [main] puts on the page. *)
Inductive widget :=
| plotly_chart (fig : figure)
| warning (msg : string)
| success (msg : string)
| error (msg : string).

(** The body of [if st.button("Compare Sessions"):]. *)
Definition compare_sessions (session_data previous_session_data : list entry)
  : result (list widget) :=
  match session_data, previous_session_data with
  | _ :: _, _ :: _ =>
      comparison_chart ← create_comparison_chart session_data previous_session_data;
      Ok [plotly_chart comparison_chart]
  | _, _ => Ok [warning "Current and previous session data required for comparison"]
  end.

(** ** export_to_csv *)

(** A row of the data frame, in column order. *)
Record row := {
  row_timestamp : Z;
  row_cell_name : string;
  row_type : string;
  row_voltage : N;
  row_current : N;
  row_temperature : N;
  row_capacity : N;
  row_soc : N;
  row_status : string;
  row_active_task : string;
  row_task_progress : Z
}.

(** [task.get('status') == 'running']. *)
Definition is_running (t : task) : bool :=
  match task_status t with
  | Some s => bool_decide (s = "running")
  | None => false
  end.

(** [next((x for x in xs if p(x)), None)]. *)
Fixpoint next_or_none {A} (p : A → bool) (xs : list A) : option A :=
  match xs with
  | [] => None
  | x :: xs' => if p x then Some x else next_or_none p xs'
  end.

Definition export_to_csv (session_data : list snapshot) (cells_data : list cell)
    (tasks_data : list task) : result (list row) :=
  match session_data with
  | [] => Ok []
  | _ :: _ =>
      for_each session_data
        (λ data_rows session,
           let timestamp := snap_timestamp session in
           let active_task :=
             next_or_none is_running (default [] (snap_tasks session)) in
           for_each (snap_cells session)
             (λ data_rows cell,
                status ← get_cell_status (cell_voltage cell)
                           (cell_temperature cell) (cell_type cell);
                let row :=
                  {| row_timestamp := timestamp;
                     row_cell_name := cell_name cell;
                     row_type := cell_type cell;
                     row_voltage := cell_voltage cell;
                     row_current := cell_current cell;
                     row_temperature := cell_temperature cell;
                     row_capacity := cell_capacity cell;
                     row_soc := cell_soc cell;
                     row_status := st_status status;
                     row_active_task :=
                       match active_task with
                       | Some t => task_type t
                       | None => "None"
                       end;
                     row_task_progress :=
                       match active_task with
                       | Some t => default 0 (task_progress t)
                       | None => 0
                       end |} in
                Ok (data_rows ++ [row]))
             data_rows)
        []
  end.

End Model.

Arguments cell_spec N : clear implicits.
Arguments reading N : clear implicits.
Arguments cell N : clear implicits.
Arguments task N : clear implicits.
Arguments snapshot N : clear implicits.
Arguments entry N : clear implicits.
Arguments pynum N : clear implicits.
Arguments summary N : clear implicits.
Arguments bar N : clear implicits.
Arguments figure N : clear implicits.
Arguments widget N : clear implicits.
Arguments row N : clear implicits.

(** ** The session state and the handlers that write it *)

(** A location names one cell dictionary.  Two lists that hold the same
    location hold the same dictionary: an update through one is read
    through the other. *)
Abbreviation loc := nat (only parsing).

Section Handlers.
Context {N : Type} `{Arith N}.

(** An element of [st.session_state.session_data] as the handler builds
    it: [cells_data.copy()] is a new list of the same dictionaries, so the
    cells are kept by location; [tasks_data.copy()] is a new list of the
    task dictionaries, which no handler writes to after their creation,
    so the tasks are kept by value. *)
Record point := {
  point_timestamp : Z;
  point_cells : list loc;
  point_tasks : list (task N)
}.

Record session_state := {
  store : gmap loc (cell N);
  cells_data : list loc;
  tasks_data : list (task N);
  monitoring_active : bool;
  session_data : list point;
  previous_session_data : list point;
  bench_name : string;
  group_number : string
}.

(** [init_session_state] on a new session. *)
Definition init_session_state : session_state :=
  {| store := ∅; cells_data := []; tasks_data := [];
     monitoring_active := false; session_data := [];
     previous_session_data := []; bench_name := ""; group_number := "" |}.

(** A script run: it changes the session state and ends with a value or
    an exception; what it wrote before an exception stays written. *)
Definition script (A : Type) : Type := session_state → session_state * result A.

#[global] Instance script_ret : MRet script := λ A a st, (st, Ok a).
#[global] Instance script_bind : MBind script := λ A B f m st,
  match m st with
  | (st', Ok a) => f a st'
  | (st', Raise e) => (st', Raise e)
  end.

Definition get : script session_state := λ st, (st, Ok st).
Definition modify (f : session_state → session_state) : script () :=
  λ st, (f st, Ok ()).
Definition lift {A} (r : result A) : script A := λ st, (st, r).

Fixpoint for_each_do {A} (xs : list A) (body : A → script ()) : script () :=
  match xs with
  | [] => mret ()
  | x :: xs' => _ ← body x; for_each_do xs' body
  end.

Definition set_store (f : gmap loc (cell N) → gmap loc (cell N)) (st : session_state) :=
  {| store := f (store st); cells_data := cells_data st;
     tasks_data := tasks_data st; monitoring_active := monitoring_active st;
     session_data := session_data st;
     previous_session_data := previous_session_data st;
     bench_name := bench_name st; group_number := group_number st |}.

Definition set_cells_data (f : list loc → list loc) (st : session_state) :=
  {| store := store st; cells_data := f (cells_data st);
     tasks_data := tasks_data st; monitoring_active := monitoring_active st;
     session_data := session_data st;
     previous_session_data := previous_session_data st;
     bench_name := bench_name st; group_number := group_number st |}.

Definition set_tasks_data (f : list (task N) → list (task N)) (st : session_state) :=
  {| store := store st; cells_data := cells_data st;
     tasks_data := f (tasks_data st); monitoring_active := monitoring_active st;
     session_data := session_data st;
     previous_session_data := previous_session_data st;
     bench_name := bench_name st; group_number := group_number st |}.

Definition set_session_data (f : list point → list point) (st : session_state) :=
  {| store := store st; cells_data := cells_data st;
     tasks_data := tasks_data st; monitoring_active := monitoring_active st;
     session_data := f (session_data st);
     previous_session_data := previous_session_data st;
     bench_name := bench_name st; group_number := group_number st |}.

(** The handlers take [random], the values [np.random.random()] returns
    during the run, and [now], the values [datetime.now()] returns during
    the run, both in call order: the cell of index [i] reads
    [random (3 i)], [random (3 i + 1)], [random (3 i + 2)] and [now i]. *)
Definition generate_at (cell_type : string) (random : nat → N) (now : nat → Z)
    (i : nat) : result (reading N) :=
  generate_cell_data cell_type (random (3 * i)%nat) (random (3 * i + 1)%nat)
    (random (3 * i + 2)%nat) (now i).

(** The body of [if st.button("Generate Cells", type="primary"):]. *)
Definition generate_cells (num_cells : nat) (default_cell_type : string)
    (random : nat → N) (now : nat → Z) : script (list (widget N)) :=
  _ ← modify (set_cells_data (λ _, []));
  _ ← for_each_do (seq 0 num_cells) (λ i,
        cell_data ← lift (generate_at default_cell_type random now i);
        let cell_data :=
          new_cell cell_data (Z.of_nat i + 1)
            ("Cell_" +:+ pretty (Z.of_nat i + 1)) default_cell_type in
        st ← get;
        let l := fresh (dom (store st)) in
        _ ← modify (set_store (insert l cell_data));
        modify (set_cells_data (λ cells, cells ++ [l])));
  mret [success ("Generated " +:+ pretty (Z.of_nat num_cells)
                  +:+ " cells successfully!")].

(** The body of [if st.button("Save Tasks", type="primary"):], given the
    task dictionaries the form has built. *)
Definition save_tasks (tasks : list (task N)) : script (list (widget N)) :=
  _ ← modify (set_tasks_data (λ _, tasks));
  mret [success ("Configured " +:+ pretty (Z.of_nat (length tasks))
                  +:+ " tasks successfully!")].

(** The body of [if st.button("🔄 Update Data"):]. *)
Definition update_data (random : nat → N) (now : nat → Z) : script (list (widget N)) :=
  st ← get;
  match cells_data st with
  | [] => mret []
  | _ :: _ =>
      _ ← for_each_do (imap pair (cells_data st)) (λ '(i, l),
            st ← get;
            match store st !! l with
            | Some cell =>
                new_data ← lift (generate_at (cell_type cell) random now i);
                modify (set_store (insert l (cell_update cell new_data)))
            | None => mret ()  (* no list holds a location without a cell *)
            end);
      st ← get;
      _ ← modify (set_session_data (λ log, log ++ [
             {| point_timestamp := now (length (cells_data st));
                point_cells := cells_data st;
                point_tasks := tasks_data st |} ]));
      mret [success "Data updated!"]
  end.

(** What a reader of the log finds in an element: the cell dictionaries
    the locations name, as the store holds them now. *)
Definition read_point (σ : gmap loc (cell N)) (p : point) : snapshot N :=
  {| snap_timestamp := point_timestamp p;
     snap_cells := omap (λ l, σ !! l) (point_cells p);
     snap_tasks := Some (point_tasks p) |}.

Definition read_log (st : session_state) : list (snapshot N) :=
  read_point (store st) <$> session_data st.

End Handlers.

(** ** Vocabulary of the statements *)

Section Vocabulary.
Context {N : Type} `{Arith N}.

(** The four means of a list of readings, each rounded to its number of
    digits. *)
Definition rounded_means (cs : list (cell N)) : summary N :=
  {| avg_voltage := PyFloat (np_round (np_mean (cell_voltage <$> cs)) 2);
     avg_temperature := PyFloat (np_round (np_mean (cell_temperature <$> cs)) 1);
     avg_soc := PyFloat (np_round (np_mean (cell_soc <$> cs)) 1);
     avg_capacity := PyFloat (np_round (np_mean (cell_capacity <$> cs)) 2) |}.

(** The summary of a list of readings: zero for none. *)
Definition summarize (cs : list (cell N)) : summary N :=
  match cs with
  | [] => zero_summary
  | _ :: _ => rounded_means cs
  end.

(** An element read as a snapshot, and a list read as a sequence of
    snapshots: the readings of all of them, in order.  An element of the
    other shape has no ["cells"] key. *)
Definition as_snapshot (x : entry N) : result (list (cell N)) :=
  match x with
  | Snapshot s => Ok (snap_cells s)
  | Reading _ => Raise (KeyError "cells")
  | NotDict => Raise TypeError
  end.

Definition readings_of_snapshots (data : list (entry N)) : result (list (cell N)) :=
  css ← comprehension as_snapshot data; Ok (concat css).

(** An element read as a reading, and a list read as a flat list of
    readings.  An element of the other shape has no ["voltage"] key, the
    first one the aggregator asks for. *)
Definition as_reading (x : entry N) : result (cell N) :=
  match x with
  | Reading c => Ok c
  | Snapshot _ => Raise (KeyError "voltage")
  | NotDict => Raise TypeError
  end.

Definition readings_of_flat (data : list (entry N)) : result (list (cell N)) :=
  comprehension as_reading data.

(** The snapshot-weighted mean voltage: the mean of the means of the
    snapshots. *)
Definition mean_of_means (ss : list (snapshot N)) : N :=
  np_round (np_mean ((λ s, np_mean (cell_voltage <$> snap_cells s)) <$> ss)) 2.

(** The (snapshot, reading) pairs of a session, snapshot by snapshot and
    reading by reading. *)
Definition pairs (ss : list (snapshot N)) : list (snapshot N * cell N) :=
  s ← ss; pair s <$> snap_cells s.

(** Every cell of the session has a chemistry of the table. *)
Definition known_chemistries (ss : list (snapshot N)) : Prop :=
  ∀ s c, s ∈ ss → c ∈ snap_cells s → is_Some (CELL_TYPES (N:=N) !! cell_type c).

(** [r] is the row of reading [c] of snapshot [s], task columns apart. *)
Definition row_of_reading (s : snapshot N) (c : cell N) (r : row N) : Prop :=
  row_timestamp r = snap_timestamp s
  ∧ row_cell_name r = cell_name c
  ∧ row_type r = cell_type c
  ∧ row_voltage r = cell_voltage c
  ∧ row_current r = cell_current c
  ∧ row_temperature r = cell_temperature c
  ∧ row_capacity r = cell_capacity c
  ∧ row_soc r = cell_soc c
  ∧ ∃ st, get_cell_status (cell_voltage c) (cell_temperature c) (cell_type c) = Ok st
          ∧ row_status r = st_status st.

(** The task columns of [r] report the first running task of [tasks], or
    none when no task is running. *)
Definition reports_first_running (tasks : list (task N)) (r : row N) : Prop :=
  (∃ i t, tasks !! i = Some t
     ∧ task_status t = Some "running"
     ∧ (∀ j t', (j < i)%nat → tasks !! j = Some t' → task_status t' ≠ Some "running")
     ∧ row_active_task r = task_type t
     ∧ row_task_progress r = default 0 (task_progress t))
  ∨ ((∀ t, t ∈ tasks → task_status t ≠ Some "running")
     ∧ row_active_task r = "None"
     ∧ row_task_progress r = 0).

End Vocabulary.

(** ** Sample data *)

Section Samples.
Context {N : Type} `{Arith N}.

(** An LFP cell at 25 degrees with the given voltage. *)
Definition cell_at (i : Z) (v : N) : cell N :=
  {| cell_id := i; cell_name := "Cell_" +:+ pretty i; cell_type := "LFP";
     cell_voltage := v; cell_current := dec 8 1; cell_temperature := dec 25 0;
     cell_capacity := (v * dec 8 1)%num; cell_soc := dec 50 0;
     cell_timestamp := 0 |}.

(** Two snapshots: one reading of 3.0 V, then three readings of 4.0 V. *)
Definition two_snapshots : list (snapshot N) :=
  [ {| snap_timestamp := 1; snap_cells := [cell_at 1 (dec 30 1)];
       snap_tasks := Some [] |};
    {| snap_timestamp := 2;
       snap_cells := [cell_at 1 (dec 40 1); cell_at 2 (dec 40 1); cell_at 3 (dec 40 1)];
       snap_tasks := Some [] |} ].

(** Two snapshots without readings. *)
Definition empty_snapshots : list (snapshot N) :=
  [ {| snap_timestamp := 1; snap_cells := []; snap_tasks := Some [] |};
    {| snap_timestamp := 2; snap_cells := []; snap_tasks := None |} ].

End Samples.

Section MoreSamples.
Context {N : Type} `{Arith N}.

Definition task_with (i : Z) (kind : string) (st : string) (progress : Z) : task N :=
  {| task_id := i; task_type := kind; task_duration := 300;
     task_progress := Some progress; task_status := Some st;
     task_start_time := None; task_end_time := None;
     task_cccp := None; task_cv_voltage := None; task_current := None;
     task_capacity := None; task_voltage := None |}.

(** A snapshot of two cells whose second and third tasks are both marked
    running, and a snapshot of one cell without a ["tasks"] key. *)
Definition session_with_tasks : list (snapshot N) :=
  [ {| snap_timestamp := 1;
       snap_cells := [cell_at 1 (dec 32 1); cell_at 2 (dec 35 1)];
       snap_tasks := Some [task_with 1 "CC_CV" "pending" 0;
                           task_with 2 "CC_CD" "running" 40;
                           task_with 3 "IDLE" "running" 70] |};
    {| snap_timestamp := 2;
       snap_cells := [cell_at 1 (dec 32 1)];
       snap_tasks := None |} ].

End MoreSamples.

(** A run of the handlers in binary64: one LFP cell is generated, then
    "Update Data" is pressed twice, the first time with every random draw
    equal to 0.5 and the second time with every draw equal to 0.75. *)
Definition after_generate : session_state (N:=float) :=
  (generate_cells 1 "LFP" (λ _, dec 5 1) (λ _, 1) init_session_state).1.
Definition after_first_update : session_state (N:=float) :=
  (update_data (λ _, dec 5 1) (λ _, 2) after_generate).1.
Definition after_second_update : session_state (N:=float) :=
  (update_data (λ _, dec 75 2) (λ _, 3) after_first_update).1.

(** The voltages a reader finds in the log, snapshot by snapshot. *)
Definition log_voltages {N} (st : session_state (N:=N)) : list (list N) :=
  (λ s, cell_voltage <$> snap_cells s) <$> read_log st.


(** ** create_status_pie_chart and the alerts of [main] *)

Section Charts.
Context {N : Type} `{Arith N}.

(** A [go.Pie] trace. *)
Record pie := {
  pie_labels : list string;
  pie_values : list Z;
  pie_hole : N;
  pie_marker_colors : list string
}.

Record pie_layout := {
  pie_title : string;
  pie_template : string;
  pie_height : Z
}.

(** A [go.Figure] of pie traces. *)
Record pie_figure := {
  pie_data : list pie;
  pie_fig_layout : option pie_layout
}.

(** [counts[key] += 1] on a dictionary kept in insertion order: the value
    of the key goes up by one; a key that is absent raises. *)
Fixpoint increment (key : string) (counts : list (string * Z))
  : result (list (string * Z)) :=
  match counts with
  | [] => Raise (KeyError key)
  | (k, n) :: counts' =>
      if decide (k = key) then Ok ((k, n + 1) :: counts')
      else rest ← increment key counts'; Ok ((k, n) :: rest)
  end.

(** The body of the loop of [create_status_pie_chart]. *)
Definition count_status (status_counts : list (string * Z)) (cell : cell N)
  : result (list (string * Z)) :=
  status ← get_cell_status (cell_voltage cell) (cell_temperature cell)
             (cell_type cell);
  if decide (st_color status = "critical") then
    increment "Critical" status_counts
  else if decide (st_color status = "warning") then
    increment "Warning" status_counts
  else
    increment "Normal" status_counts.

Definition create_status_pie_chart (cells_data : list (cell N)) : result pie_figure :=
  match cells_data with
  | [] => Ok {| pie_data := []; pie_fig_layout := None |}
  | _ :: _ =>
      let status_counts := [("Normal", 0); ("Warning", 0); ("Critical", 0)] in
      status_counts ← for_each cells_data count_status status_counts;
      Ok {| pie_data :=
              [ {| pie_labels := status_counts.*1;
                   pie_values := status_counts.*2;
                   pie_hole := dec 3 1;
                   pie_marker_colors := ["#10b981"; "#f59e0b"; "#ef4444"] |} ];
            pie_fig_layout :=
              Some {| pie_title := "Cell Status Distribution";
                      pie_template := "plotly_dark";
                      pie_height := 400 |} |}
  end.

(** The body of the loop of the alerts section of [main]. *)
Definition sort_alert (lists : list (cell N) * list (cell N)) (c : cell N)
  : result (list (cell N) * list (cell N)) :=
  let '(critical_cells, warning_cells) := lists in
  status ← get_cell_status (cell_voltage c) (cell_temperature c) (cell_type c);
  if decide (st_color status = "critical") then
    Ok (critical_cells ++ [c], warning_cells)
  else if decide (st_color status = "warning") then
    Ok (critical_cells, warning_cells ++ [c])
  else
    Ok (critical_cells, warning_cells).

(** The loop of the alerts section of [main]: the cells that go to the
    critical list and the cells that go to the warning list. *)
Definition alert_cells (cells_data : list (cell N))
  : result (list (cell N) * list (cell N)) :=
  for_each cells_data sort_alert ([], []).

(** The colour [get_cell_status] gives a cell, when it gives one. *)
Definition cell_color (c : cell N) : option string :=
  match get_cell_status (cell_voltage c) (cell_temperature c) (cell_type c) with
  | Ok status => Some (st_color status)
  | Raise _ => None
  end.

(** *** The state-of-charge series of the analytics tab

    [main], tab "Analytics": one point per element of [session_data], the
    mean state of charge of its cells, or the integer [0] when
    [data['cells']] is empty. *)

Definition timestamps (session_data : list (snapshot N)) : list Z :=
  snap_timestamp <$> session_data.

Definition avg_socs (session_data : list (snapshot N)) : list (pynum N) :=
  foldl (λ avg_socs data,
           match snap_cells data with
           | [] => avg_socs ++ [PyInt 0]
           | cells => avg_socs ++ [PyFloat (np_mean (cell_soc <$> cells))]
           end)
        [] session_data.

End Charts.

Arguments pie N : clear implicits.
Arguments pie_figure N : clear implicits.

(** ** The task form and the remaining sidebar handlers *)

Section Sidebar.
Context {N : Type} `{Arith N}.

(** The values of the widgets of one task of the configuration form. *)
Record task_form := {
  form_task_type : string;
  form_duration : Z;
  form_cccp : string;
  form_cv_voltage : N;
  form_current : N;
  form_capacity : N;
  form_voltage : N
}.

(** The task dictionary the form builds for the task of index [i]. *)
Definition build_task (i : nat) (f : task_form) : task N :=
  let kind := form_task_type f in
  let cc_cv := bool_decide (kind = "CC_CV") in
  let cc_cd := bool_decide (kind = "CC_CD") in
  {| task_id := Z.of_nat i + 1;
     task_type := kind;
     task_duration := form_duration f;
     task_progress := Some 0;
     task_status := Some "pending";
     task_start_time := None;
     task_end_time := None;
     task_cccp := if cc_cv || cc_cd then Some (form_cccp f) else None;
     task_cv_voltage := if cc_cv then Some (form_cv_voltage f) else None;
     task_current := if cc_cv then Some (form_current f) else None;
     task_capacity := if cc_cv || cc_cd then Some (form_capacity f) else None;
     task_voltage := if cc_cd then Some (form_voltage f) else None |}.

(** The body of [if st.button("Save Tasks", type="primary"):] with the
    tasks the form has built. *)
Definition configure_tasks (forms : list task_form) : script (N:=N) (list (widget N)) :=
  save_tasks (imap build_task forms).

Definition set_monitoring_active (b : bool) (st : session_state (N:=N))
  : session_state :=
  {| store := store st; cells_data := cells_data st;
     tasks_data := tasks_data st; monitoring_active := b;
     session_data := session_data st;
     previous_session_data := previous_session_data st;
     bench_name := bench_name st; group_number := group_number st |}.

(** The "Start Monitoring" button, drawn when monitoring is off, and the
    "Pause Monitoring" button, drawn when it is on. *)
Definition start_monitoring : script (N:=N) (list (widget N)) :=
  st ← get;
  if monitoring_active st then mret []
  else _ ← modify (set_monitoring_active true);
       mret [success "Monitoring started!"].

Definition pause_monitoring : script (N:=N) (list (widget N)) :=
  st ← get;
  if monitoring_active st then
    _ ← modify (set_monitoring_active false);
    mret [warning "Monitoring paused"]
  else mret [].

(** What the user does in the sidebar. *)
Inductive action :=
| GenerateCells (num_cells : nat) (default_cell_type : string)
    (random : nat → N) (now : nat → Z)
| SaveTasks (forms : list task_form)
| UpdateData (random : nat → N) (now : nat → Z)
| StartMonitoring
| PauseMonitoring.

Definition press (a : action) : script (N:=N) (list (widget N)) :=
  match a with
  | GenerateCells num_cells default_cell_type random now =>
      generate_cells num_cells default_cell_type random now
  | SaveTasks forms => configure_tasks forms
  | UpdateData random now => update_data random now
  | StartMonitoring => start_monitoring
  | PauseMonitoring => pause_monitoring
  end.

(** The session state after a sequence of actions; an action that raises
    leaves what it wrote. *)
Definition run_from (st : session_state (N:=N)) (actions : list action)
  : session_state (N:=N) :=
  foldl (λ st a, (press a st).1) st actions.

(** The session state after a sequence of actions on a new session. *)
Definition run (actions : list action) : session_state (N:=N) :=
  run_from init_session_state actions.

(** The bodies of the loops of [generate_cells] and [update_data]. *)
Definition generate_cell_at (default_cell_type : string) (random : nat → N)
    (now : nat → Z) (i : nat) : script (N:=N) () :=
  cell_data ← lift (generate_at default_cell_type random now i);
  let cell_data :=
    new_cell cell_data (Z.of_nat i + 1)
      ("Cell_" +:+ pretty (Z.of_nat i + 1)) default_cell_type in
  st ← get;
  let l := fresh (dom (store st)) in
  _ ← modify (set_store (insert l cell_data));
  modify (set_cells_data (λ cells, cells ++ [l])).

Definition update_cell_at (random : nat → N) (now : nat → Z) (il : nat * loc)
  : script (N:=N) () :=
  let '(i, l) := il in
  st ← get;
  match store st !! l with
  | Some cell =>
      new_data ← lift (generate_at (cell_type cell) random now i);
      modify (set_store (insert l (cell_update cell new_data)))
  | None => mret ()
  end.

(** The invariant of the session state: the lists hold distinct locations
    of cells, the cells have chemistries of the table, every recorded
    element holds at least one cell, and every task is pending. *)
Record well_formed (st : session_state (N:=N)) : Prop := {
  wf_cells : ∀ l, l ∈ cells_data st → is_Some (store st !! l);
  wf_nodup : NoDup (cells_data st);
  wf_log_cells : ∀ p l, p ∈ session_data st → l ∈ point_cells p →
                        is_Some (store st !! l);
  wf_log_nonempty : ∀ p, p ∈ session_data st → point_cells p ≠ [];
  wf_types : ∀ l c, store st !! l = Some c →
                    is_Some (CELL_TYPES (N:=N) !! cell_type c);
  wf_tasks : ∀ t, t ∈ tasks_data st → task_status t = Some "pending";
  wf_log_tasks : ∀ p t, p ∈ session_data st → t ∈ point_tasks p →
                        task_status t = Some "pending"
}.

(** The cell dictionaries of [cells_data], as the store holds them. *)
Definition read_cells (st : session_state (N:=N)) : list (cell N) :=
  omap (λ l, store st !! l) (cells_data st).

Definition is_generate (a : action) : bool :=
  match a with
  | GenerateCells _ _ _ _ => true
  | _ => false
  end.

(** The cell [generate_cells] builds at index [i]. *)
Definition generated_cell (default_cell_type : string) (random : nat → N)
    (now : nat → Z) (i : nat) : option (cell N) :=
  match generate_at default_cell_type random now i with
  | Ok d => Some (new_cell d (Z.of_nat i + 1)
                    ("Cell_" +:+ pretty (Z.of_nat i + 1)) default_cell_type)
  | Raise _ => None
  end.

(** What the loop of [generate_cells] keeps, from the state [st0] in which
    it starts: the store only grows, at locations that are new, and the
    cells it lists are the new ones. *)
Definition generating (st0 st : session_state (N:=N)) : Prop :=
  (∀ l c, store st0 !! l = Some c → store st !! l = Some c)
  ∧ (∀ l, l ∈ cells_data st → is_Some (store st !! l) ∧ store st0 !! l = None)
  ∧ NoDup (cells_data st)
  ∧ (∀ l c, store st !! l = Some c → is_Some (CELL_TYPES (N:=N) !! cell_type c))
  ∧ session_data st = session_data st0
  ∧ tasks_data st = tasks_data st0.

(** What the loop of [update_data] keeps, from the state [st0] in which it
    starts: the lists, and the locations that hold a cell. *)
Definition updating (st0 st : session_state (N:=N)) : Prop :=
  cells_data st = cells_data st0
  ∧ tasks_data st = tasks_data st0
  ∧ session_data st = session_data st0
  ∧ (∀ l, is_Some (store st !! l) ↔ is_Some (store st0 !! l))
  ∧ (∀ l c, store st !! l = Some c → is_Some (CELL_TYPES (N:=N) !! cell_type c)).

(** What keeps a recorded element [p] as it is: its cells are in the
    store and none of them is in the list of cells. *)
Definition detached (p : point (N:=N)) (st : session_state (N:=N)) : Prop :=
  well_formed st
  ∧ (∀ l, l ∈ point_cells p → is_Some (store st !! l))
  ∧ (∀ l, l ∈ point_cells p → l ∉ cells_data st).

End Sidebar.

Arguments task_form N : clear implicits.
Arguments action N : clear implicits.

(** ** More sample data *)

Section UnknownSamples.
Context {N : Type} `{Arith N}.

(** A cell whose chemistry is not in the table. *)
Definition unknown_cell : cell N :=
  {| cell_id := 9; cell_name := "Cell_9"; cell_type := "NiMH";
     cell_voltage := dec 12 1; cell_current := dec 8 1;
     cell_temperature := dec 25 0; cell_capacity := dec 96 2;
     cell_soc := dec 50 0; cell_timestamp := 0 |}.

(** A session whose second snapshot holds [unknown_cell] after an LFP
    cell. *)
Definition session_with_unknown : list (snapshot N) :=
  [ {| snap_timestamp := 1; snap_cells := [cell_at 1 (dec 32 1)];
       snap_tasks := Some [] |};
    {| snap_timestamp := 2;
       snap_cells := [cell_at 1 (dec 32 1); unknown_cell; cell_at 3 (dec 35 1)];
       snap_tasks := Some [] |} ].

(** Cells of the four statuses: LFP at 3.0 V (Critical), 3.2 V (Warning)
    and 3.5 V (High), and two LCO cells at 3.7 V (Normal). *)
Definition lco_cell_at (i : Z) (v : N) : cell N :=
  {| cell_id := i; cell_name := "Cell_" +:+ pretty i; cell_type := "LCO";
     cell_voltage := v; cell_current := dec 8 1; cell_temperature := dec 25 0;
     cell_capacity := (v * dec 8 1)%num; cell_soc := dec 50 0;
     cell_timestamp := 0 |}.

Definition mixed_cells : list (cell N) :=
  [ cell_at 1 (dec 30 1); lco_cell_at 2 (dec 37 1); cell_at 3 (dec 32 1);
    cell_at 4 (dec 35 1); lco_cell_at 5 (dec 37 1) ].

End UnknownSamples.

(** Sidebar actions in binary64: three LFP cells are generated, the data
    is updated twice, two NMC cells are generated, and the data is
    updated once more. *)
Definition sample_actions : list (action float) :=
  [ GenerateCells 3 "LFP" (λ i, dec (Z.of_nat i + 1) 1) (λ i, Z.of_nat i);
    UpdateData (λ _, dec 5 1) (λ _, 10);
    UpdateData (λ _, dec 75 2) (λ _, 20);
    GenerateCells 2 "NMC" (λ _, dec 25 2) (λ _, 30);
    UpdateData (λ _, dec 5 1) (λ _, 40) ].

(** ** Values of binary64 numbers *)

(** Where the remainder [r] of a division by [b] lies: on the grid point,
    below, at or above the middle of the step. *)
Definition locate (r b : Z) : location :=
  if r =? 0 then loc_Exact else loc_Inexact (2 * r ?= b).

(** A shift record holds the quotient [a / b] and the place of the
    remainder. *)
Definition holds (a b : Z) (mrs : shr_record) : Prop :=
  shr_m mrs = a / b ∧ loc_of_shr_record mrs = locate (a mod b) b.

(** The nearest integer to [a / b], ties to even. *)
Definition nearest (a b : Z) : Z :=
  round_nearest_even (a / b) (locate (a mod b) b).

(** A mantissa and exponent in the form binary64 stores them. *)
Definition canonical (m : positive) (e : Z) : Prop :=
  -1074 <= e <= 971 ∧ Z.pos m < 2 ^ 53 ∧ (-1074 < e → 2 ^ 52 <= Z.pos m).

(** The value of a non-negative finite number, in units of [2^-1074]. *)
Definition SFV (f : spec_float) : Z :=
  match f with
  | S754_finite false m e => Z.pos m * 2 ^ (e + 1074)
  | _ => 0
  end.

Definition nonneg (f : spec_float) : bool :=
  match f with
  | S754_zero _ | S754_finite false _ _ => true
  | _ => false
  end.

(** Numbers whose sign bit is clear: [+0] and the positive finite
    numbers. *)
Definition clear (f : spec_float) : Prop :=
  f = S754_zero false ∨ ∃ m e, f = S754_finite false m e ∧ canonical m e.

(** The result of an operation on such numbers may also be [+inf]. *)
Definition clear_or_inf (f : spec_float) : Prop :=
  clear f ∨ f = S754_infinity false.

(** [r] is what is stored for the exact value [num / den], in units of
    [2^-1074]: no stored number lies strictly between them. *)
Definition rounds (r : spec_float) (num den : Z) : Prop :=
  ∀ mF eF, canonical mF eF →
    (num <= SFV (S754_finite false mF eF) * den →
     SFleb r (S754_finite false mF eF) = true)
    ∧ (SFV (S754_finite false mF eF) * den <= num →
       SFleb (S754_finite false mF eF) r = true).

(** The value of the stored number just below and just above a
    non-negative one. *)
Definition SFVpred (f : spec_float) : Z :=
  match f with
  | S754_finite false m e =>
      if (Z.pos m =? 2 ^ 52) && (-1074 <? e) then (2 ^ 53 - 1) * 2 ^ (e - 1 + 1074)
      else (Z.pos m - 1) * 2 ^ (e + 1074)
  | _ => 0
  end.

Definition SFVsucc (f : spec_float) : Z :=
  match f with
  | S754_finite false m e => (Z.pos m + 1) * 2 ^ (e + 1074)
  | _ => 1
  end.

(** The same on primitive floats. *)
Definition V (x : float) : Z := SFV (Prim2SF x).
Definition Vpred (x : float) : Z := SFVpred (Prim2SF x).
Definition Vsucc (x : float) : Z := SFVsucc (Prim2SF x).

(** A primitive float whose sign bit is clear, and one that lies between
    two others. *)
Definition ok (x : float) : Prop := clear (Prim2SF x).

Definition within (lo hi x : float) : Prop := ok x ∧ V lo <= V x <= V hi.

(** [+0] or a positive finite number. *)
Definition okb (x : float) : bool :=
  match Prim2SF x with
  | S754_zero false | S754_finite false _ _ => true
  | _ => false
  end.

Definition withinb (lo hi x : float) : bool :=
  okb x && (V lo <=? V x) && (V x <=? V hi).

(** What is evaluated to carry an interval [lo, hi] through a function
    whose exact value is [(α * V x + β) / den]: the function at the two
    ends, and the exact value at their neighbours. *)
Definition step_check (f : float → float) (α β den : Z) (lo hi lo' hi' : float) : bool :=
  okb lo && okb hi && okb lo' && okb hi' && (0 <? V hi') && (0 <=? α) && (0 <? den)
  && withinb lo' hi' (f lo) && withinb lo' hi' (f hi)
  && (V lo' * den <=? α * Vsucc lo + β)
  && (α * Vpred hi + β <=? V hi' * den).

(** What is evaluated to carry an interval through [np_round]: the four
    steps multiply, add [2^52], subtract [2^52], divide. *)
Definition np_round_check (d : nat) (lo hi : float) : bool :=
  let p := B64.dec (10 ^ Z.of_nat d) 0 in
  let t := B64.two52 in
  let a := (lo * p)%float in
  let b := (hi * p)%float in
  okb p && (0 <? V p) && okb t
  && step_check (λ y, y * p)%float (V p) 0 (2 ^ 1074) lo hi a b
  && (V b <? V t)
  && step_check (λ y, y + t)%float 1 (V t) 1 a b (a + t) (b + t)
  && (V t <=? V (a + t))
  && step_check (λ y, y - t)%float 1 (- V t) 1 (a + t) (b + t) (a + t - t) (b + t - t)
  && step_check (λ y, y / p)%float (2 ^ 1074) 0 (V p) (a + t - t) (b + t - t)
       ((a + t - t) / p) ((b + t - t) / p).

(** A finite number that is not zero, of either sign. *)
Definition finb (x : float) : bool :=
  match Prim2SF x with
  | S754_finite _ _ _ => true
  | _ => false
  end.

(** The state of charge [generate_cell_data] derives from a clamped
    voltage [y], for the bounds [lo] and [hi] of a chemistry. *)
Definition soc_of (lo hi y : float) : float :=
  np_round ((y - lo) / (hi - lo) * dec 100 0)%num 1.

(** What is evaluated to carry the interval [lo, hi] through it. *)
Definition soc_check (lo hi : float) : bool :=
  let range := (hi - lo)%float in
  let c := B64.dec 100 0 in
  let a1 := (lo - lo)%float in
  let b1 := (hi - lo)%float in
  let a2 := (a1 / range)%float in
  let b2 := (b1 / range)%float in
  okb lo && okb range && (0 <? V range) && okb c
  && step_check (λ y, y - lo)%float 1 (- V lo) 1 lo hi a1 b1
  && step_check (λ y, y / range)%float (2 ^ 1074) 0 (V range) a1 b1 a2 b2
  && step_check (λ y, y * c)%float (V c) 0 (2 ^ 1074) a2 b2 (a2 * c) (b2 * c)
  && np_round_check 1 (a2 * c) (b2 * c).

(** What is evaluated for a chemistry with nominal voltage [nominal] and
    bounds [lo] and [hi]: the checks of the two chains, and that the
    images of the bounds are the bounds, 0 and 100. *)
Definition range_check (nominal lo hi : float) : bool :=
  finb nominal && okb lo && (0 <? V lo) && okb hi && PrimFloat.leb lo hi
  && np_round_check 2 lo hi && soc_check lo hi
  && withinb lo hi (np_round lo 2) && withinb lo hi (np_round hi 2)
  && withinb (B64.dec 0 0) (B64.dec 100 0) (soc_of lo hi lo)
  && withinb (B64.dec 0 0) (B64.dec 100 0) (soc_of lo hi hi)
  && okb (B64.dec 0 0) && okb (B64.dec 100 0).

(** * Properties *)

(** ** The classifier *)

Lemma statuses_distinct :
  Critical ≠ Warning ∧ Critical ≠ High ∧ Critical ≠ Normal
  ∧ Warning ≠ High ∧ Warning ≠ Normal ∧ High ≠ Normal.
Proof. repeat split; discriminate. Qed.

Lemma getitem_Some {V} (d : gmap string V) key v :
  d !! key = Some v → getitem d key = Ok v.
Proof. intros Hd. unfold getitem. by rewrite Hd. Qed.

(** C1: for a chemistry of the table, [get_cell_status] returns one of the
    four statuses, chosen by the first clause that holds, in the order
    Critical (voltage <= minimum * 1.1 or temperature > 45), Warning
    (voltage <= minimum * 1.2 or temperature > 40), High
    (voltage >= maximum * 0.9), Normal; a reading with temperature > 45
    and voltage >= maximum * 0.9 is Critical. *)
Theorem get_cell_status_precedence {N} `{Arith N}
    (voltage temperature : N) (cell_type : string) (specs : cell_spec N) :
  CELL_TYPES !! cell_type = Some specs →
  let critical := (voltage <=? minimum_voltage specs * dec 11 1)%num
                  || (temperature >? dec 45 0)%num in
  let warning := (voltage <=? minimum_voltage specs * dec 12 1)%num
                 || (temperature >? dec 40 0)%num in
  let high := (voltage >=? maximum_voltage specs * dec 9 1)%num in
  ∃ st, get_cell_status voltage temperature cell_type = Ok st
    ∧ (st = Critical ∨ st = Warning ∨ st = High ∨ st = Normal)
    ∧ (st = Critical ↔ critical = true)
    ∧ (st = Warning ↔ critical = false ∧ warning = true)
    ∧ (st = High ↔ critical = false ∧ warning = false ∧ high = true)
    ∧ (st = Normal ↔ critical = false ∧ warning = false ∧ high = false)
    ∧ ((temperature >? dec 45 0)%num = true → high = true → st = Critical).
Proof.
  intros Hspec critical warning high.
  destruct statuses_distinct as (Hcw & Hch & Hcn & Hwh & Hwn & Hhn).
  unfold get_cell_status. rewrite (getitem_Some _ _ _ Hspec). simpl.
  fold critical warning high.
  assert (Ht : (temperature >? dec 45 0)%num = true → critical = true).
  { intros Ht. unfold critical. rewrite Ht. apply orb_true_r. }
  destruct critical, warning, high; eexists; (split; [reflexivity|]);
    repeat split; intros; try tauto; try congruence;
    repeat match goal with H : _ ∧ _ |- _ => destruct H end;
    try discriminate; auto;
    by specialize (Ht ltac:(assumption)).
Qed.

(** The reading of the claim, evaluated in binary64: LFP at 3.6 V and
    46 degrees meets the temperature clause of Critical and the voltage
    clause of High. *)
Lemma get_cell_status_precedence_witness :
  get_cell_status (N:=float) (dec 36 1) (dec 46 0) "LFP" = Ok Critical.
Proof.
  destruct (get_cell_status_precedence (N:=float) (dec 36 1) (dec 46 0) "LFP" _
              eq_refl) as (st & -> & _ & _ & _ & _ & _ & Hcrit).
  f_equal. apply Hcrit; vm_compute; reflexivity.
Defined.

(** ** The aggregator *)

Section Aggregator.
Context {N : Type} `{Arith N}.

Lemma comprehension_fmap_Ok {A B C} (f : B → result C) (g : A → B) (h : A → C)
    (xs : list A) :
  (∀ x, f (g x) = Ok (h x)) →
  comprehension f (g <$> xs) = Ok (h <$> xs).
Proof.
  intros Hf. induction xs as [|x xs IH]; [done|].
  cbn. rewrite Hf. cbn. by rewrite IH.
Qed.

Lemma readings_of_flat_fmap (cs : list (cell N)) :
  readings_of_flat (Reading <$> cs) = Ok cs.
Proof.
  unfold readings_of_flat.
  rewrite (comprehension_fmap_Ok as_reading Reading id) by done.
  by rewrite list_fmap_id.
Qed.

Lemma readings_of_snapshots_fmap (ss : list (snapshot N)) :
  readings_of_snapshots (Snapshot <$> ss) = Ok (concat (snap_cells <$> ss)).
Proof.
  unfold readings_of_snapshots.
  by rewrite (comprehension_fmap_Ok as_snapshot Snapshot snap_cells).
Qed.

Lemma readings_of_flat_inv (data : list (entry N)) cs :
  readings_of_flat data = Ok cs → data = Reading <$> cs.
Proof.
  unfold readings_of_flat. revert cs.
  induction data as [|x data IH]; intros cs Hcs; cbn in Hcs.
  - by injection Hcs as <-.
  - destruct x as [s|c|]; cbn in Hcs; try discriminate.
    destruct (comprehension as_reading data) as [cs'|e]; cbn in Hcs; [|discriminate].
    injection Hcs as <-. cbn. f_equal. by apply IH.
Qed.

(** The first list comprehension of the flat shape fails where the list
    stops being one of readings. *)
Lemma comprehension_voltage (data : list (entry N)) :
  comprehension (get_field "voltage" cell_voltage) data
  = (λ cs : list (cell N), cell_voltage <$> cs) <$> readings_of_flat data.
Proof.
  unfold readings_of_flat.
  induction data as [|x data IH]; [done|].
  cbn. destruct x as [s|c|]; cbn; try done.
  rewrite IH. by destruct (comprehension as_reading data).
Qed.

(** The loop of the snapshot shape: [all_cells.extend(data_point['cells'])]
    for every element, or the exception of the first element without
    cells. *)
Lemma extend_loop (data : list (entry N)) (all_cells : list (entry N)) :
  for_each data
    (λ all_cells data_point, cs ← get_cells data_point; Ok (all_cells ++ cs))
    all_cells
  = (λ cs, all_cells ++ (Reading <$> cs)) <$> readings_of_snapshots data.
Proof.
  unfold readings_of_snapshots. revert all_cells.
  induction data as [|x data IH]; intros all_cells; cbn.
  - by rewrite app_nil_r.
  - destruct x as [s|c|]; cbn; try done.
    rewrite IH. destruct (comprehension as_snapshot data) as [css|e]; cbn; [|done].
    by rewrite fmap_app, app_assoc.
Qed.

Lemma averages_of_readings (c : cell N) (cs : list (cell N)) :
  calculate_session_averages (Reading <$> (c :: cs)) = Ok (rounded_means (c :: cs)).
Proof.
  change (Reading <$> (c :: cs)) with (Reading c :: (Reading <$> cs)).
  unfold calculate_session_averages. cbn [has_cells mbind result_bind].
  change (Reading c :: (Reading <$> cs)) with (Reading <$> (c :: cs)).
  rewrite !(comprehension_fmap_Ok (get_field _ _) Reading _) by done.
  done.
Qed.

(** The aggregator on any non-empty list: the first element chooses how
    the whole list is read. *)
Lemma calculate_session_averages_spec (first : entry N) (rest : list (entry N)) :
  calculate_session_averages (first :: rest)
  = summarize <$> (if has_cells first then readings_of_snapshots (first :: rest)
                   else readings_of_flat (first :: rest)).
Proof.
  unfold calculate_session_averages.
  destruct (has_cells first) eqn:Hfirst.
  - rewrite extend_loop.
    destruct (readings_of_snapshots (first :: rest)) as [cs|e]; [|done].
    cbn [fmap result_fmap mbind result_bind app].
    destruct cs as [|c cs]; [done|].
    pose proof (averages_of_readings c cs) as Havg.
    unfold calculate_session_averages in Havg. cbn [fmap list_fmap has_cells] in Havg.
    cbn [mbind result_bind] in Havg. exact Havg.
  - cbn [mbind result_bind].
    rewrite comprehension_voltage.
    destruct (readings_of_flat (first :: rest)) as [cs|e] eqn:Hflat; [|done].
    apply readings_of_flat_inv in Hflat.
    destruct cs as [|c cs]; [done|].
    pose proof (averages_of_readings c cs) as Havg.
    unfold calculate_session_averages in Havg. rewrite <- Hflat in Havg.
    rewrite Hfirst in Havg. cbn [mbind result_bind] in Havg.
    rewrite comprehension_voltage in Havg. rewrite Hflat in Havg at 1.
    rewrite readings_of_flat_fmap in Havg. exact Havg.
Qed.

Lemma averages_of_snapshots (ss : list (snapshot N)) :
  calculate_session_averages (Snapshot <$> ss)
  = Ok (summarize (concat (snap_cells <$> ss))).
Proof.
  destruct ss as [|s ss]; [done|].
  change (Snapshot <$> s :: ss) with (Snapshot s :: (Snapshot <$> ss)).
  rewrite calculate_session_averages_spec. cbn [has_cells].
  change (Snapshot s :: (Snapshot <$> ss)) with (Snapshot <$> s :: ss).
  by rewrite readings_of_snapshots_fmap.
Qed.

End Aggregator.

(** C3: the aggregator of a snapshot sequence takes each mean over the
    concatenation of the readings of all snapshots, in snapshot order and
    then reading order: a reading-weighted mean. *)
Theorem aggregate_reading_weighted {N} `{Arith N} (ss : list (snapshot N)) :
  concat (snap_cells <$> ss) ≠ [] →
  calculate_session_averages (Snapshot <$> ss)
  = Ok {| avg_voltage :=
            PyFloat (np_round (np_mean (cell_voltage <$> concat (snap_cells <$> ss))) 2);
          avg_temperature :=
            PyFloat (np_round (np_mean (cell_temperature <$> concat (snap_cells <$> ss))) 1);
          avg_soc :=
            PyFloat (np_round (np_mean (cell_soc <$> concat (snap_cells <$> ss))) 1);
          avg_capacity :=
            PyFloat (np_round (np_mean (cell_capacity <$> concat (snap_cells <$> ss))) 2) |}.
Proof.
  intros Hcs. rewrite averages_of_snapshots.
  by destruct (concat (snap_cells <$> ss)).
Qed.

(** The example of the claim in binary64: one reading of 3.0 V and three
    of 4.0 V average to 3.75 V, where the mean of the two snapshot means
    is 3.5 V. *)
Lemma aggregate_reading_weighted_witness :
  avg_voltage <$> calculate_session_averages (N:=float) (Snapshot <$> two_snapshots)
  = Ok (PyFloat (dec 375 2))
  ∧ mean_of_means (N:=float) two_snapshots = dec 35 1.
Proof.
  split.
  - rewrite (aggregate_reading_weighted (N:=float) two_snapshots) by done.
    vm_compute. reflexivity.
  - vm_compute. reflexivity.
Defined.

(** C4: the aggregator returns the all-zero summary, and no exception, on
    the empty list and on a snapshot sequence that holds no reading. *)
Theorem aggregate_empty_is_zero {N} `{Arith N} (ss : list (snapshot N)) :
  (∀ s, s ∈ ss → snap_cells s = []) →
  calculate_session_averages (N:=N) []
  = Ok {| avg_voltage := PyInt 0; avg_temperature := PyInt 0;
          avg_soc := PyInt 0; avg_capacity := PyInt 0 |}
  ∧ calculate_session_averages (Snapshot <$> ss)
    = Ok {| avg_voltage := PyInt 0; avg_temperature := PyInt 0;
            avg_soc := PyInt 0; avg_capacity := PyInt 0 |}.
Proof.
  intros Hempty. split; [done|].
  rewrite averages_of_snapshots.
  assert (concat (snap_cells <$> ss) = []) as ->; [|done].
  induction ss as [|s ss IH]; [done|].
  cbn. rewrite (Hempty s) by left. cbn.
  apply IH. intros s' Hs'. apply Hempty. by right.
Qed.

Lemma aggregate_empty_is_zero_witness :
  calculate_session_averages (N:=float) (Snapshot <$> empty_snapshots) = Ok zero_summary.
Proof.
  apply (aggregate_empty_is_zero (N:=float) empty_snapshots).
  intros s Hs. unfold empty_snapshots in Hs.
  repeat (apply elem_of_cons in Hs as [->|Hs]; [reflexivity|]).
  by apply elem_of_nil in Hs.
Defined.

(** C5: on a non-empty input of either shape, each field of the summary
    is the mean of the unrounded values of all readings, rounded once:
    voltage and capacity to 2 digits, temperature and state of charge to
    1 digit. *)
Theorem aggregate_rounds_final_means {N} `{Arith N}
    (data : list (entry N)) (cs : list (cell N)) :
  data = Reading <$> cs
  ∨ (∃ ss, data = Snapshot <$> ss ∧ cs = concat (snap_cells <$> ss)) →
  cs ≠ [] →
  calculate_session_averages data
  = Ok {| avg_voltage := PyFloat (np_round (np_mean (cell_voltage <$> cs)) 2);
          avg_temperature := PyFloat (np_round (np_mean (cell_temperature <$> cs)) 1);
          avg_soc := PyFloat (np_round (np_mean (cell_soc <$> cs)) 1);
          avg_capacity := PyFloat (np_round (np_mean (cell_capacity <$> cs)) 2) |}.
Proof.
  intros [->|(ss & -> & ->)] Hcs.
  - destruct cs as [|c cs]; [done|]. apply averages_of_readings.
  - rewrite averages_of_snapshots.
    by destruct (concat (snap_cells <$> ss)).
Qed.

(** Three readings of 1.004 V, 1.004 V and 1.008 V in binary64: their mean
    rounds to 1.01 V, although every reading but one rounds to 1.0 V. *)
Lemma aggregate_rounds_final_means_witness :
  avg_voltage <$> calculate_session_averages (N:=float)
    (Reading <$> [cell_at 1 (dec 1004 3); cell_at 2 (dec 1004 3); cell_at 3 (dec 1008 3)])
  = Ok (PyFloat (dec 101 2)).
Proof.
  rewrite (aggregate_rounds_final_means (N:=float) _
             [cell_at 1 (dec 1004 3); cell_at 2 (dec 1004 3); cell_at 3 (dec 1008 3)])
    by (done || by left).
  vm_compute. reflexivity.
Defined.

(** C10: on a non-empty list the first element alone chooses the shape:
    when it is a dictionary with a ["cells"] key the whole list is read
    as snapshots, otherwise the whole list is read as readings.  No
    element is checked against the shape chosen: a list of both shapes
    ends in the [KeyError] of the first lookup that the chosen reading of
    the list makes on an element of the other shape. *)
Theorem aggregate_shape_by_first_element {N} `{Arith N}
    (first : entry N) (rest : list (entry N)) (s : snapshot N) (c : cell N) :
  (has_cells first = true ↔ ∃ s', first = Snapshot s')
  ∧ calculate_session_averages (first :: rest)
    = summarize <$> (if has_cells first then readings_of_snapshots (first :: rest)
                     else readings_of_flat (first :: rest))
  ∧ calculate_session_averages (Snapshot s :: Reading c :: rest)
    = Raise (KeyError "cells")
  ∧ calculate_session_averages (Reading c :: Snapshot s :: rest)
    = Raise (KeyError "voltage").
Proof.
  split; [|split; [|split]].
  - destruct first; cbn; split; try done; try (intros [? ?]; done). eauto.
  - apply calculate_session_averages_spec.
  - by rewrite calculate_session_averages_spec.
  - by rewrite calculate_session_averages_spec.
Qed.

(** ** The exporter *)

Section Exporter.
Context {N : Type} `{Arith N}.

(** A loop that appends a block of results per element appends the blocks
    in the order of the elements. *)
Lemma for_each_append {A R} (xs : list A) (body : list R → A → result (list R))
    (P : A → list R → Prop) (acc : list R) :
  (∀ x acc', x ∈ xs → ∃ rs, body acc' x = Ok (acc' ++ rs) ∧ P x rs) →
  ∃ blocks, for_each xs body acc = Ok (acc ++ concat blocks) ∧ Forall2 P xs blocks.
Proof.
  revert acc. induction xs as [|x xs IH]; intros acc Hbody.
  - exists []. cbn. by rewrite app_nil_r.
  - destruct (Hbody x acc) as (rs & Hx & HP); [by left|].
    destruct (IH (acc ++ rs)) as (blocks & Hxs & HPs).
    { intros x' acc' Hx'. apply Hbody. by right. }
    exists (rs :: blocks). cbn. rewrite Hx. cbn. rewrite Hxs.
    split; [by rewrite app_assoc | by constructor].
Qed.

Lemma Forall2_pairs {R} (Q : snapshot N → cell N → R → Prop)
    (ss : list (snapshot N)) (blocks : list (list R)) :
  Forall2 (λ s block, Forall2 (Q s) (snap_cells s) block) ss blocks →
  Forall2 (λ p r, Q p.1 p.2 r) (pairs ss) (concat blocks).
Proof.
  unfold pairs. induction 1 as [|s block ss blocks Hs _ IH]; cbn; [constructor|].
  apply Forall2_app; [|exact IH].
  by apply Forall2_fmap_l.
Qed.

Lemma is_running_spec (t : task N) :
  is_running t = true ↔ task_status t = Some "running".
Proof.
  unfold is_running. destruct (task_status t) as [s|]; [|done].
  rewrite bool_decide_eq_true. split; congruence.
Qed.

(** [next] stops at the first element that passes the test. *)
Lemma next_or_none_Some {A} (p : A → bool) (xs : list A) (x : A) :
  next_or_none p xs = Some x →
  ∃ i, xs !! i = Some x ∧ p x = true
       ∧ ∀ j y, (j < i)%nat → xs !! j = Some y → p y = false.
Proof.
  induction xs as [|y xs IH]; [done|]. cbn.
  destruct (p y) eqn:Hy.
  - intros [= ->]. exists 0%nat. repeat split; [done|]. intros j z Hj. lia.
  - intros (i & Hi & Hx & Hlt)%IH. exists (S i). repeat split; [done..|].
    intros [|j] z Hj; cbn; [by intros [= <-]|].
    apply Hlt. lia.
Qed.

Lemma next_or_none_None {A} (p : A → bool) (xs : list A) :
  next_or_none p xs = None → ∀ x, x ∈ xs → p x = false.
Proof.
  induction xs as [|y xs IH]; cbn; [by intros _ x Hx%elem_of_nil|].
  destruct (p y) eqn:Hy; [done|].
  intros Hnone x [->|Hx]%elem_of_cons; auto.
Qed.

(** The exporter on a session of known chemistries: one row per
    (snapshot, reading) pair, in order, each with the fields of its
    reading, the status of its reading and the first running task of its
    snapshot. *)
Lemma export_to_csv_spec (ss : list (snapshot N)) cells_data tasks_data :
  known_chemistries ss →
  ∃ rows, export_to_csv ss cells_data tasks_data = Ok rows
    ∧ Forall2 (λ p r, row_of_reading p.1 p.2 r
                      ∧ reports_first_running (default [] (snap_tasks p.1)) r)
        (pairs ss) rows.
Proof.
  intros Hknown. unfold export_to_csv.
  destruct ss as [|s0 ss0] eqn:Hss; [exists []; split; [done|constructor]|].
  rewrite <- Hss in *. clear Hss s0 ss0.
  match goal with |- context [for_each ss ?body []] =>
    destruct (for_each_append ss body
      (λ s block, Forall2 (λ c r, row_of_reading s c r
         ∧ reports_first_running (default [] (snap_tasks s)) r) (snap_cells s) block) [])
      as (blocks & Hrun & Hblocks)
  end.
  - intros s acc Hs. cbn beta.
    match goal with |- context [for_each (snap_cells s) ?body acc] =>
      destruct (for_each_append (snap_cells s) body
        (λ c block, ∃ r, block = [r] ∧ row_of_reading s c r
           ∧ reports_first_running (default [] (snap_tasks s)) r) acc)
        as (bs & Hrun & Hbs)
    end.
    + intros c acc' Hc. destruct (Hknown s c Hs Hc) as [specs Hspecs].
      destruct (get_cell_status (cell_voltage c) (cell_temperature c) (cell_type c))
        as [st|e] eqn:Hst.
      2:{ unfold get_cell_status in Hst. rewrite (getitem_Some _ _ _ Hspecs) in Hst.
          cbn in Hst. repeat case_match; discriminate. }
      cbn. eexists. split; [reflexivity|]. eexists. split; [reflexivity|].
      split.
      * repeat split; cbn; try done. eauto.
      * unfold reports_first_running. cbn.
        destruct (next_or_none is_running (default [] (snap_tasks s))) as [t|] eqn:Hnext.
        -- left. apply next_or_none_Some in Hnext as (i & Hi & Ht & Hlt).
           exists i, t. repeat split; [done|by apply is_running_spec|].
           intros j t' Hj Ht' Hrunning%is_running_spec.
           by rewrite (Hlt j t' Hj Ht') in Hrunning.
        -- right. repeat split.
           intros t Ht Hrunning%is_running_spec.
           by rewrite (next_or_none_None _ _ Hnext t Ht) in Hrunning.
    + exists (concat bs). split; [done|].
      clear Hrun. induction Hbs as [|c b cs bs (r & -> & Hr) _ IH]; cbn; by constructor.
  - exists (concat blocks). split; [done|]. by apply Forall2_pairs in Hblocks.
Qed.

End Exporter.

(** C6: the exporter returns one row per (snapshot, reading) pair, as many
    as the snapshots hold readings in total, in snapshot order and, within
    a snapshot, in reading order. *)
Theorem export_rows_count_and_order {N} `{Arith N}
    (ss : list (snapshot N)) (cells_data : list (cell N)) (tasks_data : list (task N)) :
  known_chemistries ss →
  ∃ rows, export_to_csv ss cells_data tasks_data = Ok rows
    ∧ length rows = sum_list (length ∘ snap_cells <$> ss)
    ∧ Forall2 (λ p r, row_of_reading p.1 p.2 r) (pairs ss) rows.
Proof.
  intros Hknown.
  destruct (export_to_csv_spec ss cells_data tasks_data Hknown) as (rows & Hrows & Hall).
  exists rows. split; [done|]. split.
  - rewrite <- (Forall2_length _ _ _ Hall). unfold pairs. clear.
    induction ss as [|s ss IH]; [done|].
    cbn. rewrite length_app, length_fmap. by rewrite <- IH.
  - eapply Forall2_impl; [exact Hall|]. by intros ?? [? _].
Qed.

(** C7: every row of a snapshot reports the first task of the snapshot's
    task list whose status is ["running"]; when there is none, the active
    task is ["None"] and the progress is 0. *)
Theorem export_reports_first_running_task {N} `{Arith N}
    (ss : list (snapshot N)) (cells_data : list (cell N)) (tasks_data : list (task N)) :
  known_chemistries ss →
  ∃ rows, export_to_csv ss cells_data tasks_data = Ok rows
    ∧ Forall2 (λ p r, reports_first_running (default [] (snap_tasks p.1)) r)
        (pairs ss) rows.
Proof.
  intros Hknown.
  destruct (export_to_csv_spec ss cells_data tasks_data Hknown) as (rows & Hrows & Hall).
  exists rows. split; [done|].
  eapply Forall2_impl; [exact Hall|]. by intros ?? [_ ?].
Qed.

(** ** The summation order *)

(** The recursion of [pairwise_sum] never runs out of fuel when the fuel
    is at least the length of the array. *)
Lemma pairwise_sum_fuel {N} `{Arith N} (fuel1 fuel2 : nat) (xs : list N) :
  (length xs ≤ fuel1)%nat → (length xs ≤ fuel2)%nat →
  pairwise_sum fuel1 xs = pairwise_sum fuel2 xs.
Proof.
  revert fuel2 xs. induction fuel1 as [|fuel1 IH]; intros fuel2 xs H1 H2.
  - destruct xs; [|cbn in H1; lia]. by destruct fuel2.
  - destruct fuel2 as [|fuel2].
    { destruct xs; [done|cbn in H2; lia]. }
    cbn [pairwise_sum].
    destruct (length xs <? 8)%nat; [done|].
    destruct (Nat.leb_spec (length xs) 128) as [|Hbig]; [done|].
    set (n := length xs) in *.
    assert (Hhalf : (64 ≤ n / 2)%nat) by (apply Nat.div_le_lower_bound; lia).
    assert (Hlt : (n / 2 < n)%nat) by (apply Nat.div_lt; lia).
    assert (Hmod : ((n / 2) mod 8 < 8)%nat) by (apply Nat.mod_upper_bound; lia).
    f_equal; apply IH; rewrite ?length_take, ?length_drop; fold n; lia.
Qed.

(** ** Rounding in binary64

    What the primitive operations return is specified by [SpecFloat]: an
    exact result is shifted to 53 bits and rounded to the nearest, ties to
    even.  This part shows that the stored result never crosses a stored
    number: it is used to carry intervals through the arithmetic of
    [generate_cell_data]. *)

(** *** The number of bits *)

Lemma digits2_pos_bounds (p : positive) :
  2 ^ (Z.pos (digits2_pos p) - 1) <= Z.pos p < 2 ^ Z.pos (digits2_pos p).
Proof.
  induction p as [p IH|p IH|]; cbn [digits2_pos].
  - rewrite Pos2Z.inj_succ, Z.pow_succ_r by lia.
    replace (Z.succ (Z.pos (digits2_pos p)) - 1) with (Z.succ (Z.pos (digits2_pos p) - 1)) by lia.
    rewrite Z.pow_succ_r by lia. lia.
  - rewrite Pos2Z.inj_succ, Z.pow_succ_r by lia.
    replace (Z.succ (Z.pos (digits2_pos p)) - 1) with (Z.succ (Z.pos (digits2_pos p) - 1)) by lia.
    rewrite Z.pow_succ_r by lia. lia.
  - cbn. lia.
Qed.

Lemma Zdigits2_bounds (m : Z) :
  0 < m → 2 ^ (Zdigits2 m - 1) <= m < 2 ^ Zdigits2 m.
Proof. destruct m as [|p|p]; try lia. intros _. apply digits2_pos_bounds. Qed.

Lemma Zdigits2_nonneg (m : Z) : 0 <= Zdigits2 m.
Proof. destruct m; cbn; lia. Qed.

Lemma Zdigits2_le (m : Z) (d : Z) : 0 <= d → 0 <= m < 2 ^ d → Zdigits2 m <= d.
Proof.
  intros Hd [Hm Hlt]. destruct (Z.eq_dec m 0) as [->|Hne]; [cbn; lia|].
  destruct (Zdigits2_bounds m) as [Hlo _]; [lia|].
  destruct (Z.le_gt_cases (Zdigits2 m) d) as [|Hgt]; [done|].
  assert (2 ^ d <= 2 ^ (Zdigits2 m - 1)) by (apply Z.pow_le_mono_r; lia). lia.
Qed.

Lemma Zdigits2_ge (m : Z) (d : Z) : 2 ^ (d - 1) <= m → 0 < m → d <= Zdigits2 m.
Proof.
  intros Hlo Hm. destruct (Zdigits2_bounds m Hm) as [_ Hhi].
  destruct (Z.le_gt_cases d (Zdigits2 m)) as [|Hgt]; [done|].
  assert (2 ^ Zdigits2 m <= 2 ^ (d - 1)).
  { apply Z.pow_le_mono_r; [lia|]. lia. }
  lia.
Qed.

(** *** Shifting to the right keeps the quotient and the place of the
    remainder *)

Lemma holds_of_loc (a b : Z) :
  0 < b → holds a b (shr_record_of_loc (a / b) (locate (a mod b) b)).
Proof.
  intros Hb. split.
  - unfold locate. destruct (_ =? 0); [done|]. by destruct (_ ?= _).
  - unfold locate. destruct (_ =? 0); [done|]. by destruct (_ ?= _).
Qed.

Lemma shr_1_holds (a b : Z) (mrs : shr_record) :
  0 <= a → 0 < b → holds a b mrs → holds a (b * 2) (shr_1 mrs).
Proof.
  intros Ha Hb [Hm Hloc].
  pose proof (Z.div_mod a b ltac:(lia)) as Hab.
  pose proof (Z.mod_pos_bound a b Hb) as Hr.
  assert (Hq : 0 <= a / b) by (apply Z.div_pos; lia).
  pose proof (Z.div_mod (a / b) 2 ltac:(lia)) as Hq2.
  pose proof (Z.mod_pos_bound (a / b) 2 ltac:(lia)) as Hr2.
  assert (Hdiv : a / (b * 2) = a / b / 2) by (rewrite Z.div_div; lia).
  assert (Hmod : a mod (b * 2) = a mod b + b * ((a / b) mod 2)).
  { rewrite Z.rem_mul_r by lia. lia. }
  unfold holds. rewrite Hdiv, Hmod.
  destruct mrs as [m r s]. cbn [shr_m] in Hm. subst m.
  assert (Hrs : orb r s = negb (a mod b =? 0)).
  { unfold locate in Hloc. cbn in Hloc.
    destruct (a mod b =? 0); destruct r, s; cbn in *; try done;
      destruct (2 * (a mod b) ?= b); done. }
  cbn [shr_1]. rewrite Hrs.
  destruct (a / b) as [|p|p] eqn:Hp; [| |lia].
  - cbn. split; [done|]. unfold locate.
    change (0 mod 2) with 0. rewrite Z.mul_0_r, Z.add_0_r.
    destruct (a mod b =? 0) eqn:H0; cbn; [done|].
    apply Z.eqb_neq in H0.
    destruct (Z.compare_spec (2 * (a mod b)) (b * 2)); try lia. done.
  - destruct p as [p|p|].
    + cbn [shr_m loc_of_shr_record]. split.
      * rewrite Pos2Z.inj_xI. apply Z.div_unique with 1; lia.
      * assert (Z.pos p~1 mod 2 = 1) as ->.
        { rewrite Pos2Z.inj_xI. symmetry. apply Z.mod_unique with (Z.pos p); lia. }
        unfold locate.
        destruct (Z.eqb_spec (a mod b + b * 1) 0); [lia|].
        destruct (Z.eqb_spec (a mod b) 0); cbn.
        -- destruct (Z.compare_spec (2 * (a mod b + b * 1)) (b * 2)); try lia. done.
        -- destruct (Z.compare_spec (2 * (a mod b + b * 1)) (b * 2)); try lia. done.
    + cbn [shr_m loc_of_shr_record]. split.
      * rewrite Pos2Z.inj_xO. apply Z.div_unique with 0; lia.
      * assert (Z.pos p~0 mod 2 = 0) as ->.
        { rewrite Pos2Z.inj_xO. symmetry. apply Z.mod_unique with (Z.pos p); lia. }
        unfold locate. rewrite Z.mul_0_r, Z.add_0_r.
        destruct (Z.eqb_spec (a mod b) 0); cbn; [done|].
        destruct (Z.compare_spec (2 * (a mod b)) (b * 2)); try lia. done.
    + cbn [shr_m loc_of_shr_record]. split; [done|].
      change (1 mod 2) with 1. unfold locate.
      destruct (Z.eqb_spec (a mod b + b * 1) 0); [lia|].
      destruct (Z.eqb_spec (a mod b) 0); cbn.
      * destruct (Z.compare_spec (2 * (a mod b + b * 1)) (b * 2)); try lia. done.
      * destruct (Z.compare_spec (2 * (a mod b + b * 1)) (b * 2)); try lia. done.
Qed.

Lemma iter_pos_holds (a : Z) (p : positive) :
  0 <= a → ∀ b mrs, 0 < b → holds a b mrs →
  holds a (b * 2 ^ Z.pos p) (SpecFloat.iter_pos shr_1 p mrs).
Proof.
  intros Ha. induction p as [p IH|p IH|]; intros b mrs Hb Hmrs; cbn [SpecFloat.iter_pos].
  - replace (b * 2 ^ Z.pos p~1) with (b * 2 * 2 ^ Z.pos p * 2 ^ Z.pos p).
    + apply IH; [|apply IH; [lia|by apply shr_1_holds]].
      assert (0 < 2 ^ Z.pos p) by (apply Z.pow_pos_nonneg; lia). nia.
    + change (Z.pos p~1) with (2 * Z.pos p + 1). rewrite Z.pow_add_r, Z.pow_twice_r by lia. change (2 ^ 1) with 2. ring.
  - replace (b * 2 ^ Z.pos p~0) with (b * 2 ^ Z.pos p * 2 ^ Z.pos p).
    + apply IH; [|by apply IH].
      assert (0 < 2 ^ Z.pos p) by (apply Z.pow_pos_nonneg; lia). nia.
    + change (Z.pos p~0) with (2 * Z.pos p). rewrite Z.pow_twice_r by lia. ring.
  - change (2 ^ 1) with 2. by apply shr_1_holds.
Qed.

Lemma shr_holds (a b : Z) (mrs : shr_record) (e n : Z) :
  0 <= a → 0 < b → 0 <= n → holds a b mrs →
  holds a (b * 2 ^ n) (shr mrs e n).1 ∧ (shr mrs e n).2 = e + n.
Proof.
  intros Ha Hb Hn Hmrs. destruct n as [|p|p]; [| |lia]; cbn [shr fst snd].
  - rewrite Z.mul_1_r. split; [done|lia].
  - split; [by apply iter_pos_holds|done].
Qed.

(** *** What [binary_round_aux] returns *)

Lemma fexp_eq (x : Z) : fexp 53 1024 x = Z.max (x - 53) (-1074).
Proof. reflexivity. Qed.

Lemma nearest_bounds (a b : Z) :
  0 <= a → 0 < b →
  a / b <= nearest a b <= a / b + 1
  ∧ (nearest a b = a / b → 2 * (a mod b) <= b)
  ∧ (nearest a b = a / b + 1 → 0 < a mod b).
Proof.
  intros Ha Hb. unfold nearest, locate.
  pose proof (Z.mod_pos_bound a b Hb) as Hr.
  destruct (Z.eqb_spec (a mod b) 0) as [H0|H0]; cbn [round_nearest_even].
  - rewrite H0. lia.
  - destruct (Z.compare_spec (2 * (a mod b)) b); try destruct (Z.even _); lia.
Qed.

(** The mantissa and the exponent that are left when [a / b * 2^e] is
    rounded: [n] bits are dropped. *)
Lemma round_shape (a b e : Z) :
  0 <= a → 0 < b → e <= fexp 53 1024 (Zdigits2 (a / b) + e) →
  let n := fexp 53 1024 (Zdigits2 (a / b) + e) - e in
  let m := nearest a (b * 2 ^ n) in
  0 <= n ∧ -1074 <= e + n
  ∧ 0 <= a / (b * 2 ^ n) < 2 ^ 53
  ∧ 0 <= m <= 2 ^ 53
  ∧ (-1074 < e + n → 2 ^ 52 <= a / (b * 2 ^ n)).
Proof.
  intros Ha Hb Hbits n m. rewrite fexp_eq in Hbits.
  assert (Hn : 0 <= n) by (unfold n; rewrite fexp_eq; lia).
  assert (HN : 0 < 2 ^ n) by (apply Z.pow_pos_nonneg; lia).
  assert (HbN : 0 < b * 2 ^ n) by nia.
  assert (Hq : 0 <= a / b) by (apply Z.div_pos; lia).
  assert (Hdiv : a / (b * 2 ^ n) = a / b / 2 ^ n) by (rewrite Z.div_div; lia).
  pose proof (Zdigits2_nonneg (a / b)) as Hd.
  assert (Hlt : a / (b * 2 ^ n) < 2 ^ 53).
  { rewrite Hdiv. apply Z.div_lt_upper_bound; [done|].
    destruct (Z.eq_dec (a / b) 0) as [->|Hne]; [lia|].
    destruct (Zdigits2_bounds (a / b)) as [_ Hhi]; [lia|].
    eapply Z.lt_le_trans; [exact Hhi|].
    rewrite <- Z.pow_add_r by lia. apply Z.pow_le_mono_r; [lia|].
    unfold n. rewrite fexp_eq. lia. }
  assert (H0 : 0 <= a / (b * 2 ^ n)) by (apply Z.div_pos; lia).
  destruct (nearest_bounds a (b * 2 ^ n) Ha HbN) as (Hm & _ & _). fold m in Hm.
  split; [done|]. split; [unfold n; rewrite fexp_eq; lia|].
  split; [lia|]. split; [lia|].
  intros He. rewrite Hdiv.
  assert (Hnd : n = Zdigits2 (a / b) - 53) by (unfold n in *; rewrite fexp_eq in *; lia).
  assert (Hpos : 0 < a / b).
  { destruct (Z.eq_dec (a / b) 0) as [H0'|?]; [|lia].
    rewrite H0' in Hnd. cbn in Hnd. lia. }
  destruct (Zdigits2_bounds (a / b) Hpos) as [Hlo _].
  apply Z.div_le_lower_bound; [done|].
  rewrite Z.mul_comm, <- Z.pow_add_r by lia.
  replace (52 + n) with (Zdigits2 (a / b) - 1) by lia. done.
Qed.

Lemma Zdigits2_pow53 : Zdigits2 (2 ^ 53) = 54.
Proof. reflexivity. Qed.

Lemma binary_round_aux_eq (a b e : Z) :
  0 <= a → 0 < b → e <= fexp 53 1024 (Zdigits2 (a / b) + e) →
  let n := fexp 53 1024 (Zdigits2 (a / b) + e) - e in
  let m := nearest a (b * 2 ^ n) in
  binary_round_aux 53 1024 false (a / b) e (locate (a mod b) b)
  = match m with
    | Z.pos p =>
        if m =? 2 ^ 53 then
          if e + n + 1 <=? 971 then S754_finite false (Z.to_pos (2 ^ 52)) (e + n + 1)
          else S754_infinity false
        else if e + n <=? 971 then S754_finite false p (e + n)
        else S754_infinity false
    | _ => S754_zero false
    end.
Proof.
  intros Ha Hb Hbits n m.
  destruct (round_shape a b e Ha Hb Hbits) as (Hn & He & Hq & Hm & Hnorm).
  fold n in Hn, He, Hq, Hnorm. fold n m in Hm.
  unfold binary_round_aux, shr_fexp. fold n.
  destruct (shr_holds a b (shr_record_of_loc (a / b) (locate (a mod b) b)) e n
              Ha Hb Hn (holds_of_loc a b Hb)) as [[Hm1 Hl1] He'].
  destruct (shr _ e n) as [mrs' e'] eqn:Hshr. cbn [fst snd] in Hm1, Hl1, He'.
  rewrite Hm1, Hl1. change (round_nearest_even _ _) with m. subst e'.
  cbn [shr_record_of_loc].
  destruct (Z.eq_dec m (2 ^ 53)) as [H53|H53].
  - rewrite H53, Zdigits2_pow53, fexp_eq.
    replace (Z.max (54 + (e + n) - 53) (-1074) - (e + n)) with 1 by lia.
    cbn [shr SpecFloat.iter_pos shr_1 shr_m]. cbn [Z.eqb Pos.eqb]. 
    replace (e + n + 1) with (e + n + 1) by lia. reflexivity.
  - assert (Hd : Zdigits2 m <= 53) by (apply Zdigits2_le; lia).
    pose proof (Zdigits2_nonneg m) as Hd0.
    rewrite fexp_eq.
    assert (Hn2 : Z.max (Zdigits2 m + (e + n) - 53) (-1074) - (e + n) <= 0) by lia.
    destruct (Z.max _ _ - (e + n)) as [|q|q] eqn:Hq2; [| lia |]; cbn [shr shr_m].
    + destruct m as [|p|p]; [done| |lia].
      destruct (Z.eqb_spec (Z.pos p) (2 ^ 53)); [done|]. reflexivity.
    + destruct m as [|p|p]; [done| |lia].
      destruct (Z.eqb_spec (Z.pos p) (2 ^ 53)); [done|]. reflexivity.
Qed.

(** *** Order of stored numbers and order of values *)

Lemma pow2_pos (x : Z) : 0 <= x → 0 < 2 ^ x.
Proof. intros. apply Z.pow_pos_nonneg; lia. Qed.

Lemma pow2_split (k x y : Z) : k <= x → x <= y → 2 ^ (y - k) = 2 ^ (x - k) * 2 ^ (y - x).
Proof. intros. rewrite <- Z.pow_add_r by lia. f_equal. lia. Qed.

Lemma pow2_step (k x y : Z) : k <= x → x < y → 2 * 2 ^ (x - k) <= 2 ^ (y - k).
Proof.
  intros. rewrite (pow2_split k (x + 1) y) by lia.
  replace (x + 1 - k) with (Z.succ (x - k)) by lia. rewrite Z.pow_succ_r by lia.
  pose proof (pow2_pos (y - (x + 1)) ltac:(lia)). pose proof (pow2_pos (x - k) ltac:(lia)). nia.
Qed.

Lemma SFleb_finite (m1 : positive) (e1 : Z) (m2 : positive) (e2 : Z) :
  SFleb (S754_finite false m1 e1) (S754_finite false m2 e2) = true
  ↔ e1 < e2 ∨ (e1 = e2 ∧ Z.pos m1 <= Z.pos m2).
Proof.
  unfold SFleb, SFcompare. change (Pos.compare_cont Eq m1 m2) with (Pos.compare m1 m2).
  destruct (Z.compare_spec e1 e2); [|split; [lia|done]|split; [done|lia]].
  destruct (Pos.compare_spec m1 m2); split; try done; try lia.
Qed.

Lemma value_le_SFleb (m1 : positive) (e1 : Z) (m2 : positive) (e2 k : Z) :
  k <= e1 → k <= e2 →
  (-1074 < e1 → 2 ^ 52 <= Z.pos m1) → Z.pos m2 < 2 ^ 53 → -1074 <= e2 →
  Z.pos m1 * 2 ^ (e1 - k) <= Z.pos m2 * 2 ^ (e2 - k) →
  SFleb (S754_finite false m1 e1) (S754_finite false m2 e2) = true.
Proof.
  intros Hk1 Hk2 Hnorm Hm2 He2 Hle. apply SFleb_finite.
  destruct (Z.lt_trichotomy e1 e2) as [?|[->|Hgt]]; [by left| |].
  - right. split; [done|]. pose proof (pow2_pos (e2 - k) ltac:(lia)). nia.
  - exfalso. pose proof (pow2_step k e2 e1 Hk2 Hgt).
    pose proof (pow2_pos (e2 - k) ltac:(lia)).
    assert (2 ^ 52 <= Z.pos m1) by (apply Hnorm; lia).
    assert (2 ^ 53 = 2 * 2 ^ 52) by reflexivity. nia.
Qed.

Lemma SFleb_value_le (m1 : positive) (e1 : Z) (m2 : positive) (e2 k : Z) :
  k <= e1 → k <= e2 →
  Z.pos m1 < 2 ^ 53 → (-1074 < e2 → 2 ^ 52 <= Z.pos m2) → -1074 <= e1 →
  SFleb (S754_finite false m1 e1) (S754_finite false m2 e2) = true →
  Z.pos m1 * 2 ^ (e1 - k) <= Z.pos m2 * 2 ^ (e2 - k).
Proof.
  intros Hk1 Hk2 Hm1 Hnorm He1 [Hlt|[-> Hle]]%SFleb_finite.
  - pose proof (pow2_step k e1 e2 Hk1 Hlt).
    pose proof (pow2_pos (e1 - k) ltac:(lia)).
    assert (2 ^ 52 <= Z.pos m2) by (apply Hnorm; lia).
    assert (2 ^ 53 = 2 * 2 ^ 52) by reflexivity. nia.
  - pose proof (pow2_pos (e2 - k) ltac:(lia)). nia.
Qed.

(** *** Rounding does not cross a stored number *)

Section RoundBounds.
Variables (a b e : Z) (mF : positive) (eF k : Z).
Hypothesis (Ha : 0 <= a) (Hb : 0 < b).
Hypothesis Hbits : e <= fexp 53 1024 (Zdigits2 (a / b) + e).
Hypothesis HF : canonical mF eF.
Hypothesis (Hke : k <= e) (HkF : k <= eF).

Let n := fexp 53 1024 (Zdigits2 (a / b) + e) - e.
Let m := nearest a (b * 2 ^ n).

Lemma round_value_upper :
  a * 2 ^ (e - k) <= Z.pos mF * b * 2 ^ (eF - k) →
  m * 2 ^ (e + n - k) <= Z.pos mF * 2 ^ (eF - k).
Proof using All.
  intros Hle.
  destruct (round_shape a b e Ha Hb Hbits) as (Hn & He & Hq & Hm & Hnorm).
  fold n in Hn, He, Hq, Hnorm. fold n m in Hm.
  destruct HF as (HeF & HmF & HnF).
  pose proof (pow2_pos n Hn) as HN. pose proof (pow2_pos (e - k) ltac:(lia)) as HP.
  assert (HbN : 0 < b * 2 ^ n) by nia.
  destruct (nearest_bounds a (b * 2 ^ n) Ha HbN) as (Hm12 & Hdown & Hup). fold m in Hm12, Hdown, Hup.
  pose proof (Z.div_mod a (b * 2 ^ n) ltac:(lia)) as Hdm.
  pose proof (Z.mod_pos_bound a (b * 2 ^ n) HbN) as Hr.
  set (q := a / (b * 2 ^ n)) in *. set (r := a mod (b * 2 ^ n)) in *.
  rewrite (pow2_split k e (e + n)) by lia. replace (e + n - e) with n by lia.
  destruct (Z.le_gt_cases (e + n) eF) as [Hgrid|Hfine].
  - rewrite (pow2_split k (e + n) eF) in Hle |- * by lia.
    rewrite (pow2_split k e (e + n)) in Hle |- * by lia. replace (e + n - e) with n in * by lia.
    pose proof (pow2_pos (eF - (e + n)) ltac:(lia)) as HT.
    set (P := 2 ^ (e - k)) in *. set (N := 2 ^ n) in *. set (T := 2 ^ (eF - (e + n))) in *.
    assert (Hle' : a <= Z.pos mF * T * (b * N)) by nia.
    assert (Hm' : m <= Z.pos mF * T).
    { destruct (Z.eq_dec m q) as [->|Hne].
      - apply Z.div_le_upper_bound; [done|]. nia.
      - assert (m = q + 1) as -> by lia. specialize (Hup eq_refl). nia. }
    nia.
  - exfalso. assert (H52 : 2 ^ 52 <= q) by (apply Hnorm; lia).
    pose proof (pow2_step k eF (e + n) HkF Hfine) as Hstep.
    rewrite (pow2_split k e (e + n)) in Hstep by lia. replace (e + n - e) with n in * by lia.
    pose proof (pow2_pos (eF - k) ltac:(lia)) as HQ.
    set (P := 2 ^ (e - k)) in *. set (N := 2 ^ n) in *. set (Q := 2 ^ (eF - k)) in *.
    assert (2 ^ 53 = 2 * 2 ^ 52) as H53 by reflexivity.
    assert (H1 : 2 ^ 52 * (b * N) * P <= a * P) by nia.
    assert (H2 : Z.pos mF * b * Q < 2 ^ 52 * b * (2 * Q)) by nia.
    assert (H3 : 2 ^ 52 * b * (2 * Q) <= 2 ^ 52 * b * (P * N)).
    { apply Z.mul_le_mono_nonneg_l; [|done]. nia. }
    nia.
Qed.

Lemma round_value_lower :
  Z.pos mF * b * 2 ^ (eF - k) <= a * 2 ^ (e - k) →
  Z.pos mF * 2 ^ (eF - k) <= m * 2 ^ (e + n - k).
Proof using All.
  intros Hle.
  destruct (round_shape a b e Ha Hb Hbits) as (Hn & He & Hq & Hm & Hnorm).
  fold n in Hn, He, Hq, Hnorm. fold n m in Hm.
  destruct HF as (HeF & HmF & HnF).
  pose proof (pow2_pos n Hn) as HN. pose proof (pow2_pos (e - k) ltac:(lia)) as HP.
  assert (HbN : 0 < b * 2 ^ n) by nia.
  destruct (nearest_bounds a (b * 2 ^ n) Ha HbN) as (Hm12 & Hdown & Hup). fold m in Hm12, Hdown, Hup.
  set (q := a / (b * 2 ^ n)) in *.
  rewrite (pow2_split k e (e + n)) by lia. replace (e + n - e) with n by lia.
  destruct (Z.le_gt_cases (e + n) eF) as [Hgrid|Hfine].
  - rewrite (pow2_split k (e + n) eF) in Hle |- * by lia.
    rewrite (pow2_split k e (e + n)) in Hle |- * by lia. replace (e + n - e) with n in * by lia.
    pose proof (pow2_pos (eF - (e + n)) ltac:(lia)) as HT.
    set (P := 2 ^ (e - k)) in *. set (N := 2 ^ n) in *. set (T := 2 ^ (eF - (e + n))) in *.
    assert (Hle' : Z.pos mF * T * (b * N) <= a) by nia.
    assert (Hm' : Z.pos mF * T <= q).
    { apply Z.div_le_lower_bound; [done|]. nia. }
    nia.
  - assert (H52 : 2 ^ 52 <= q) by (apply Hnorm; lia).
    pose proof (pow2_step k eF (e + n) HkF Hfine) as Hstep.
    rewrite (pow2_split k e (e + n)) in Hstep by lia. replace (e + n - e) with n in * by lia.
    pose proof (pow2_pos (eF - k) ltac:(lia)) as HQ.
    set (P := 2 ^ (e - k)) in *. set (N := 2 ^ n) in *. set (Q := 2 ^ (eF - k)) in *.
    assert (2 ^ 53 = 2 * 2 ^ 52) as H53 by reflexivity.
    assert (H1 : Z.pos mF * Q <= 2 ^ 52 * (2 * Q)) by nia.
    assert (H2 : 2 ^ 52 * (2 * Q) <= 2 ^ 52 * (P * N)).
    { apply Z.mul_le_mono_nonneg_l; [lia|done]. }
    assert (H3 : 2 ^ 52 * (P * N) <= m * (P * N)).
    { apply Z.mul_le_mono_nonneg_r; [nia|lia]. }
    lia.
Qed.

End RoundBounds.

Section RoundOrder.
Variables (a b e : Z) (mF : positive) (eF k : Z).
Hypothesis (Ha : 0 <= a) (Hb : 0 < b).
Hypothesis Hbits : e <= fexp 53 1024 (Zdigits2 (a / b) + e).
Hypothesis HF : canonical mF eF.
Hypothesis (Hke : k <= e) (HkF : k <= eF).

(** A number that is at most a stored number is rounded to at most that
    number. *)
Lemma round_upper :
  a * 2 ^ (e - k) <= Z.pos mF * b * 2 ^ (eF - k) →
  SFleb (binary_round_aux 53 1024 false (a / b) e (locate (a mod b) b))
        (S754_finite false mF eF) = true.
Proof using All.
  intros Hle.
  pose proof (round_value_upper a b e mF eF k Ha Hb Hbits HF Hke HkF Hle) as Hval.
  destruct (round_shape a b e Ha Hb Hbits) as (Hn & He & Hq & Hm & Hnorm).
  destruct (nearest_bounds a (b * 2 ^ (fexp 53 1024 (Zdigits2 (a / b) + e) - e)) Ha)
    as (Hm12 & _ & _).
  { pose proof (pow2_pos _ Hn). nia. }
  rewrite binary_round_aux_eq by done.
  set (n := fexp 53 1024 (Zdigits2 (a / b) + e) - e) in *.
  set (m := nearest a (b * 2 ^ n)) in *.
  destruct HF as (HeF & HmF & HnF).
  assert (H53 : 2 ^ 53 = 2 * 2 ^ 52) by reflexivity.
  pose proof (pow2_pos (eF - k) ltac:(lia)) as HQ.
  pose proof (pow2_pos (e + n - k) ltac:(lia)) as HP.
  assert (Hfit : e + n <= eF ∨ m < 2 ^ 52).
  { destruct (Z.le_gt_cases (e + n) eF) as [|Hgt]; [by left|]. right.
    destruct (Z.lt_ge_cases m (2 ^ 52)) as [|Hge]; [done|]. exfalso.
    pose proof (pow2_step k eF (e + n) HkF Hgt). nia. }
  destruct m as [|p|p] eqn:Hp; [done| |lia].
  destruct (Z.eqb_spec (Z.pos p) (2 ^ 53)) as [Heq|Hne].
  - assert (Hlt : e + n < eF).
    { destruct (Z.lt_ge_cases (e + n) eF) as [|Hge]; [done|]. exfalso.
      destruct Hfit as [?|?]; [|lia]. assert (e + n = eF) as Heq' by lia.
      rewrite Heq' in Hval. nia. }
    destruct (Z.leb_spec (e + n + 1) 971); [|lia].
    apply (value_le_SFleb _ _ _ _ k); try lia; try done.
    change (Z.pos (Z.to_pos (2 ^ 52))) with (2 ^ 52).
    rewrite (pow2_split k (e + n) (e + n + 1)) by lia.
    replace (e + n + 1 - (e + n)) with 1 by lia. change (2 ^ 1) with 2. nia.
  - destruct (Z.leb_spec (e + n) 971) as [Hok|Hover].
    + apply (value_le_SFleb _ _ _ _ k); try lia; try done.
    + exfalso. destruct Hfit as [?|?]; [lia|]. assert (-1074 < e + n) by lia. lia.
Qed.

(** A number that is at least a stored number is rounded to at least that
    number. *)
Lemma round_lower :
  Z.pos mF * b * 2 ^ (eF - k) <= a * 2 ^ (e - k) →
  SFleb (S754_finite false mF eF)
        (binary_round_aux 53 1024 false (a / b) e (locate (a mod b) b)) = true.
Proof using All.
  intros Hle.
  pose proof (round_value_lower a b e mF eF k Ha Hb Hbits HF Hke HkF Hle) as Hval.
  destruct (round_shape a b e Ha Hb Hbits) as (Hn & He & Hq & Hm & Hnorm).
  destruct (nearest_bounds a (b * 2 ^ (fexp 53 1024 (Zdigits2 (a / b) + e) - e)) Ha)
    as (Hm12 & _ & _).
  { pose proof (pow2_pos _ Hn). nia. }
  rewrite binary_round_aux_eq by done.
  set (n := fexp 53 1024 (Zdigits2 (a / b) + e) - e) in *.
  set (m := nearest a (b * 2 ^ n)) in *.
  destruct HF as (HeF & HmF & HnF).
  pose proof (pow2_pos (eF - k) ltac:(lia)) as HQ.
  pose proof (pow2_pos (e + n - k) ltac:(lia)) as HP.
  destruct m as [|p|p] eqn:Hp; [exfalso; nia| |lia].
  destruct (Z.eqb_spec (Z.pos p) (2 ^ 53)) as [Heq|Hne].
  - destruct (Z.leb_spec (e + n + 1) 971); [|done].
    apply (value_le_SFleb _ _ _ _ k); try lia; try done.
    change (Z.pos (Z.to_pos (2 ^ 52))) with (2 ^ 52).
    rewrite (pow2_split k (e + n) (e + n + 1)) by lia.
    replace (e + n + 1 - (e + n)) with 1 by lia. change (2 ^ 1) with 2.
    assert (H53 : 2 ^ 53 = 2 * 2 ^ 52) by reflexivity. nia.
  - destruct (Z.leb_spec (e + n) 971) as [Hok|Hover]; [|done].
    apply (value_le_SFleb _ _ _ _ k); try lia; try done.
Qed.

End RoundOrder.

(** *** Stored numbers are canonical *)

Lemma valid_canonical (s : bool) (m : positive) (e : Z) :
  valid_binary (S754_finite s m e) = true → canonical m e.
Proof.
  cbn [SpecFloat.valid_binary]. unfold bounded, canonical_mantissa.
  intros [Hc He]%andb_true_iff. apply Z.eqb_eq in Hc. apply Z.leb_le in He.
  rewrite fexp_eq in Hc. change (emax - prec) with 971 in He.
  destruct (digits2_pos_bounds m) as [Hlo Hhi].
  assert (Hd : Z.pos (digits2_pos m) <= 53) by lia.
  split; [lia|]. split.
  - eapply Z.lt_le_trans; [exact Hhi|]. apply Z.pow_le_mono_r; lia.
  - intros Hn. assert (Z.pos (digits2_pos m) = 53) as Hd' by lia.
    rewrite Hd' in Hlo. exact Hlo.
Qed.

Lemma SFV_nonneg (f : spec_float) : 0 <= SFV f.
Proof.
  destruct f as [| | |[] m e]; cbn [SFV]; lia.
Qed.

Lemma SFV_finite_pos (m : positive) (e : Z) :
  canonical m e → 0 < SFV (S754_finite false m e).
Proof. intros (He & _). cbn. pose proof (pow2_pos (e + 1074)). nia. Qed.

Lemma SFleb_SFV (x y : spec_float) :
  clear x → clear y → (SFleb x y = true ↔ SFV x <= SFV y).
Proof.
  intros [->|(mx & ex & -> & Hx)] [->|(my & ey & -> & Hy)].
  - done.
  - pose proof (SFV_finite_pos my ey Hy). cbn [SFV] in *. split; [lia|done].
  - pose proof (SFV_finite_pos mx ex Hx). cbn [SFV] in *. split; [done|lia].
  - destruct Hx as (Hex & Hmx & Hnx), Hy as (Hey & Hmy & Hny). cbn [SFV].
    replace (ex + 1074) with (ex - -1074) by lia.
    replace (ey + 1074) with (ey - -1074) by lia. split.
    + apply SFleb_value_le; lia || done.
    + apply value_le_SFleb; lia || done.
Qed.

Lemma SFltb_SFV (x y : spec_float) :
  clear x → clear y → (SFltb x y = true ↔ SFV x < SFV y).
Proof.
  intros Hx Hy. pose proof (SFleb_SFV y x Hy Hx) as Hle.
  assert (Hneg : SFltb x y = negb (SFleb y x)).
  { destruct Hx as [->|(mx & ex & -> & _)], Hy as [->|(my & ey & -> & _)]; try done.
    unfold SFltb, SFleb, SFcompare.
    change (Pos.compare_cont Eq mx my) with (Pos.compare mx my).
    change (Pos.compare_cont Eq my mx) with (Pos.compare my mx).
    rewrite (Z.compare_antisym ex ey), (Pos.compare_antisym mx my).
    destruct (ex ?= ey); cbn; try done. by destruct (mx ?= my)%positive. }
  rewrite Hneg, negb_true_iff. destruct (SFleb y x); split; try done; lia.
Qed.

Lemma clear_SFV_inj (x y : spec_float) : clear x → clear y → SFV x = SFV y → x = y.
Proof.
  intros Hx Hy Heq.
  destruct (SFleb_SFV x y Hx Hy) as [_ H1]. destruct (SFleb_SFV y x Hy Hx) as [_ H2].
  specialize (H1 ltac:(lia)). specialize (H2 ltac:(lia)).
  destruct Hx as [->|(mx & ex & -> & Hx)], Hy as [->|(my & ey & -> & Hy)]; try done.
  apply SFleb_finite in H1, H2. destruct H1 as [?|[-> ?]], H2 as [?|[? ?]]; try lia.
  f_equal. lia.
Qed.

(** *** The result of a rounding *)

Section Rounded.
Variables (a b e : Z).
Hypothesis (Ha : 0 <= a) (Hb : 0 < b).
Hypothesis Hbits : e <= fexp 53 1024 (Zdigits2 (a / b) + e).

Lemma round_clear :
  clear_or_inf (binary_round_aux 53 1024 false (a / b) e (locate (a mod b) b)).
Proof using All.
  destruct (round_shape a b e Ha Hb Hbits) as (Hn & He & Hq & Hm & Hnorm).
  destruct (nearest_bounds a (b * 2 ^ (fexp 53 1024 (Zdigits2 (a / b) + e) - e)) Ha)
    as (Hm12 & _ & _).
  { pose proof (pow2_pos _ Hn). nia. }
  rewrite binary_round_aux_eq by done.
  set (n := fexp 53 1024 (Zdigits2 (a / b) + e) - e) in *.
  set (m := nearest a (b * 2 ^ n)) in *.
  destruct m as [|p|p] eqn:Hp; [by left; left| |lia].
  destruct (Z.eqb_spec (Z.pos p) (2 ^ 53)) as [Heq|Hne].
  - destruct (Z.leb_spec (e + n + 1) 971); [|by right].
    left. right. eexists _, _. split; [done|]. split; [lia|]. split; [done|done].
  - destruct (Z.leb_spec (e + n) 971); [|by right].
    left. right. eexists _, _. split; [done|]. split; [lia|]. split; [lia|]. lia.
Qed.

Lemma round_rounds (k num den : Z) :
  k <= e → k <= -1074 → 0 < den →
  a * 2 ^ (e - k) * den = num * b * 2 ^ (-1074 - k) →
  rounds (binary_round_aux 53 1024 false (a / b) e (locate (a mod b) b)) num den.
Proof using All.
  intros Hke Hk Hden Hrel mF eF HF.
  pose proof HF as (HeF & _ & _). cbn [SFV].
  assert (Hsplit : 2 ^ (eF - k) = 2 ^ (eF + 1074) * 2 ^ (-1074 - k)).
  { rewrite <- Z.pow_add_r by lia. f_equal. lia. }
  pose proof (pow2_pos (e - k) ltac:(lia)) as HP.
  pose proof (pow2_pos (-1074 - k) ltac:(lia)) as HS.
  pose proof (pow2_pos (eF + 1074) ltac:(lia)) as HE.
  split; intros Hle.
  - apply (round_upper a b e mF eF k); try done; try lia.
    rewrite Hsplit.
    set (P := 2 ^ (e - k)) in *. set (S := 2 ^ (-1074 - k)) in *.
    set (E := 2 ^ (eF + 1074)) in *.
    apply (Z.mul_le_mono_pos_r _ _ den); [done|]. rewrite Hrel.
    assert (num * (b * S) <= Z.pos mF * E * den * (b * S)).
    { apply Z.mul_le_mono_nonneg_r; [nia|done]. }
    nia.
  - apply (round_lower a b e mF eF k); try done; try lia.
    rewrite Hsplit.
    set (P := 2 ^ (e - k)) in *. set (S := 2 ^ (-1074 - k)) in *.
    set (E := 2 ^ (eF + 1074)) in *.
    apply (Z.mul_le_mono_pos_r _ _ den); [done|]. rewrite Hrel.
    assert (Z.pos mF * E * den * (b * S) <= num * (b * S)).
    { apply Z.mul_le_mono_nonneg_r; [nia|done]. }
    nia.
Qed.

End Rounded.

(** *** Multiplication *)

Lemma Zdigits2_mul_pow2 (m j : Z) : 0 < m → 0 <= j → Zdigits2 (m * 2 ^ j) = Zdigits2 m + j.
Proof.
  intros Hm Hj. destruct (Zdigits2_bounds m Hm) as [Hlo Hhi].
  pose proof (pow2_pos j Hj) as HJ. pose proof (Zdigits2_nonneg m).
  assert (1 <= Zdigits2 m).
  { destruct m; try lia. cbn. lia. }
  apply Z.le_antisymm.
  - apply Zdigits2_le; [lia|]. split; [nia|]. rewrite Z.pow_add_r by lia. nia.
  - apply Zdigits2_ge; [|nia].
    replace (Zdigits2 m + j - 1) with (Zdigits2 m - 1 + j) by lia.
    rewrite Z.pow_add_r by lia. nia.
Qed.

Lemma SFmul_rounds (mx : positive) (ex : Z) (my : positive) (ey : Z) :
  canonical mx ex → canonical my ey →
  let r := SFmul 53 1024 (S754_finite false mx ex) (S754_finite false my ey) in
  clear_or_inf r
  ∧ rounds r (SFV (S754_finite false mx ex) * SFV (S754_finite false my ey)) (2 ^ 1074).
Proof.
  intros (Hex & Hmx & Hnx) (Hey & Hmy & Hny) r. unfold r. cbn [SFmul xorb SFV].
  set (a := Z.pos (mx * my)).
  assert (Ha : 0 <= a) by (unfold a; lia).
  assert (Hdiv : a / 1 = a) by apply Z.div_1_r.
  assert (Hloc : loc_Exact = locate (a mod 1) 1) by (rewrite Z.mod_1_r; done).
  assert (Hbits : ex + ey <= fexp 53 1024 (Zdigits2 (a / 1) + (ex + ey))).
  { rewrite Hdiv, fexp_eq.
    destruct (Z.le_gt_cases (ex + ey) (-1074)) as [|Hgt]; [lia|].
    assert (53 <= Zdigits2 a); [|lia].
    apply Zdigits2_ge; [|unfold a; lia]. unfold a. rewrite Pos2Z.inj_mul.
    change (2 ^ (53 - 1)) with (2 ^ 52).
    destruct (Z.eq_dec ex (-1074)) as [->|?], (Z.eq_dec ey (-1074)) as [->|?]; nia. }
  rewrite <- Hdiv, Hloc. split.
  - by apply round_clear.
  - apply (round_rounds a 1 (ex + ey) ltac:(lia) ltac:(lia) Hbits (-2148)); try lia.
    unfold a. rewrite Pos2Z.inj_mul.
    replace (ex + ey - -2148) with ((ex + 1074) + (ey + 1074)) by lia.
    rewrite Z.pow_add_r by lia. change (-1074 - -2148) with 1074. ring.
Qed.

(** *** Division *)

Lemma new_location_locate (nb r : Z) : 0 < nb → 0 <= r → new_location nb r = locate r nb.
Proof.
  intros Hnb Hr. unfold new_location, new_location_even, new_location_odd, locate.
  destruct (Z.even nb) eqn:Heven; [done|].
  destruct (Z.eqb_spec r 0); [done|]. f_equal.
  assert (Hodd : Z.odd nb = true) by (rewrite <- Z.negb_even, Heven; done).
  apply Z.odd_spec in Hodd as [j Hj].
  destruct (Z.compare_spec (2 * r + 1) nb), (Z.compare_spec (2 * r) nb); try done; lia.
Qed.

Lemma SFdiv_rounds (mx : positive) (ex : Z) (my : positive) (ey : Z) :
  canonical mx ex → canonical my ey →
  let r := SFdiv 53 1024 (S754_finite false mx ex) (S754_finite false my ey) in
  clear_or_inf r
  ∧ rounds r (SFV (S754_finite false mx ex) * 2 ^ 1074) (SFV (S754_finite false my ey)).
Proof.
  intros (Hex & Hmx & Hnx) (Hey & Hmy & Hny) r. unfold r.
  cbn [SFdiv xorb SFV]. unfold SFdiv_core_binary.
  set (d1 := Zdigits2 (Z.pos mx)). set (d2 := Zdigits2 (Z.pos my)).
  set (e' := Z.min (fexp 53 1024 (d1 + ex - (d2 + ey))) (ex - ey)).
  set (s := ex - ey - e').
  assert (Hs : 0 <= s) by (unfold s, e'; lia).
  set (m' := match s with Z.pos _ => Z.shiftl (Z.pos mx) s | 0 => Z.pos mx | Z.neg _ => 0 end).
  assert (Hm' : m' = Z.pos mx * 2 ^ s).
  { unfold m'. destruct s as [|p|p]; [cbn; lia| |lia]. by rewrite Z.shiftl_mul_pow2. }
  pose proof (pow2_pos s Hs) as HS.
  assert (Ha : 0 <= m') by nia.
  assert (Hb : 0 < Z.pos my) by lia.
  destruct (Z.div_eucl m' (Z.pos my)) as [q rm] eqn:Heucl.
  assert (Hq : q = m' / Z.pos my) by (unfold Z.div; by rewrite Heucl).
  assert (Hrm : rm = m' mod Z.pos my) by (unfold Z.modulo; by rewrite Heucl).
  subst q rm.
  rewrite new_location_locate; [|lia|apply Z.mod_pos_bound; lia].
  destruct (Zdigits2_bounds (Z.pos mx) ltac:(lia)) as [Hlo1 Hhi1].
  destruct (Zdigits2_bounds (Z.pos my) ltac:(lia)) as [Hlo2 Hhi2].
  fold d1 in Hlo1, Hhi1. fold d2 in Hlo2, Hhi2.
  assert (Hd1 : 1 <= d1) by (unfold d1; cbn; lia).
  assert (Hd2 : 1 <= d2) by (unfold d2; cbn; lia).
  assert (He' : -2148 <= e').
  { unfold e'. rewrite fexp_eq. lia. }
  assert (Hbits : e' <= fexp 53 1024 (Zdigits2 (m' / Z.pos my) + e')).
  { rewrite fexp_eq. destruct (Z.le_gt_cases e' (-1074)) as [|Hgt]; [lia|].
    assert (53 <= Zdigits2 (m' / Z.pos my)); [|lia].
    assert (He'z : e' <= d1 + ex - (d2 + ey) - 53).
    { unfold e' in *. rewrite fexp_eq in *. lia. }
    assert (Hbig : 2 ^ 52 <= m' / Z.pos my).
    { apply Z.div_le_lower_bound; [lia|].
      assert (Hexp : 2 ^ (d1 - 1 + s) = 2 ^ 52 * 2 ^ d2 * 2 ^ (d1 - 1 + s - d2 - 52)).
      { rewrite <- !Z.pow_add_r by lia. f_equal. lia. }
      assert (Hprod : 2 ^ (d1 - 1 + s) <= m').
      { rewrite Hm', Z.pow_add_r by lia. nia. }
      pose proof (pow2_pos (d1 - 1 + s - d2 - 52) ltac:(lia)).
      pose proof (pow2_pos d2 ltac:(lia)). nia. }
    apply Zdigits2_ge; [done|lia]. }
  split.
  - by apply round_clear.
  - assert (Hden : 0 < Z.pos my * 2 ^ (ey + 1074)).
    { apply Z.mul_pos_pos; [lia|]. apply pow2_pos. lia. }
    apply (round_rounds m' (Z.pos my) e' Ha Hb Hbits (-2148) _ _ He' ltac:(lia) Hden).
    rewrite Hm'. change (-1074 - -2148) with 1074.
    replace (e' - -2148) with (e' + 2148) by lia.
    assert (Hpow : 2 ^ s * 2 ^ (e' + 2148) * 2 ^ (ey + 1074)
                   = 2 ^ (ex + 1074) * 2 ^ 1074 * 2 ^ 1074).
    { rewrite <- !Z.pow_add_r by lia. f_equal. unfold s. lia. }
    set (A := 2 ^ s) in *. set (B := 2 ^ (e' + 2148)) in *.
    set (C := 2 ^ (ey + 1074)) in *. set (D := 2 ^ (ex + 1074)) in *.
    set (T := 2 ^ 1074) in *. clearbody A B C D T.
    transitivity (Z.pos mx * Z.pos my * (A * B * C)); [ring|].
    rewrite Hpow. ring.
Qed.

(** *** Addition and subtraction *)

Lemma Pos_iter_xO (m d : positive) : Z.pos (Pos.iter xO m d) = Z.pos m * 2 ^ Z.pos d.
Proof.
  induction d as [|d IH] using Pos.peano_ind.
  - cbn [Pos.iter]. change (2 ^ 1) with 2. lia.
  - rewrite Pos.iter_succ, Pos2Z.inj_xO, IH, Pos2Z.inj_succ, Z.pow_succ_r by lia. ring.
Qed.

Lemma shl_align_spec (mx : positive) (ex ex' : Z) :
  (shl_align mx ex ex').2 = Z.min ex ex'
  ∧ Z.pos (shl_align mx ex ex').1 = Z.pos mx * 2 ^ (ex - Z.min ex ex').
Proof.
  unfold shl_align. destruct (ex' - ex) as [|d|d] eqn:Hd; cbn [fst snd].
  - replace (Z.min ex ex') with ex by lia. rewrite Z.sub_diag. cbn. lia.
  - replace (Z.min ex ex') with ex by lia. rewrite Z.sub_diag. cbn. lia.
  - replace (Z.min ex ex') with ex' by lia. split; [done|].
    rewrite Pos_iter_xO. f_equal. f_equal. lia.
Qed.

Lemma rounds_zero (den : Z) : 0 < den → rounds (S754_zero false) 0 den.
Proof.
  intros Hden mF eF HF. pose proof (SFV_finite_pos mF eF HF). split; [done|].
  intros Hle. exfalso. nia.
Qed.

Lemma rounds_self (f : spec_float) : clear f → rounds f (SFV f) 1.
Proof.
  intros Hf mF eF HF.
  assert (HFc : clear (S754_finite false mF eF)) by (right; eauto).
  split; intros Hle; apply SFleb_SFV; try done; lia.
Qed.

Lemma binary_round_rounds (p : positive) (e : Z) :
  -1074 <= e →
  let r := binary_round 53 1024 false p e in
  clear_or_inf r ∧ rounds r (Z.pos p * 2 ^ (e + 1074)) 1.
Proof.
  intros He r. unfold r, binary_round.
  set (fe := fexp 53 1024 (Z.pos (digits2_pos p) + e)).
  destruct (shl_align_spec p e fe) as [He' Hm'].
  destruct (shl_align p e fe) as [mz ez]. cbn [fst snd] in He', Hm'.
  assert (Hfe : -1074 <= fe) by (unfold fe; rewrite fexp_eq; lia).
  assert (Hdiv : Z.pos mz / 1 = Z.pos mz) by apply Z.div_1_r.
  assert (Hloc : loc_Exact = locate (Z.pos mz mod 1) 1) by (rewrite Z.mod_1_r; done).
  assert (Hbits : ez <= fexp 53 1024 (Zdigits2 (Z.pos mz / 1) + ez)).
  { rewrite Hdiv, Hm', Zdigits2_mul_pow2 by lia.
    replace (Zdigits2 (Z.pos p) + (e - Z.min e fe) + ez) with (Z.pos (digits2_pos p) + e)
      by (cbn [Zdigits2]; lia).
    fold fe. lia. }
  clearbody fe.
  rewrite <- Hdiv, Hloc. split.
  - apply round_clear; lia || done.
  - apply (round_rounds (Z.pos mz) 1 ez ltac:(lia) ltac:(lia) Hbits (-1074)
             (Z.pos p * 2 ^ (e + 1074)) 1 ltac:(lia) ltac:(lia) ltac:(lia)).
    rewrite Hm'. change (-1074 - -1074) with 0. change (2 ^ 0) with 1.
    replace (ez - -1074) with (ez + 1074) by lia.
    replace (e + 1074) with ((e - Z.min e fe) + (ez + 1074)) by lia.
    rewrite (Z.pow_add_r 2 (e - Z.min e fe) (ez + 1074)) by lia. ring.
Qed.

Lemma SFadd_rounds (mx : positive) (ex : Z) (my : positive) (ey : Z) :
  canonical mx ex → canonical my ey →
  let r := SFadd 53 1024 (S754_finite false mx ex) (S754_finite false my ey) in
  clear_or_inf r
  ∧ rounds r (SFV (S754_finite false mx ex) + SFV (S754_finite false my ey)) 1.
Proof.
  intros (Hex & Hmx & Hnx) (Hey & Hmy & Hny) r. unfold r.
  cbn [SFadd cond_Zopp SFV].
  destruct (shl_align_spec mx ex (Z.min ex ey)) as [_ Hx].
  destruct (shl_align_spec my ey (Z.min ex ey)) as [_ Hy].
  replace (Z.min ex (Z.min ex ey)) with (Z.min ex ey) in Hx by lia.
  replace (Z.min ey (Z.min ex ey)) with (Z.min ex ey) in Hy by lia.
  set (ez := Z.min ex ey) in *.
  destruct (Z.pos (shl_align mx ex ez).1 + Z.pos (shl_align my ey ez).1) as [|p|p] eqn:Hsum;
    [lia| |lia].
  cbn [binary_normalize].
  replace (Z.pos mx * 2 ^ (ex + 1074) + Z.pos my * 2 ^ (ey + 1074))
    with (Z.pos p * 2 ^ (ez + 1074)).
  - apply binary_round_rounds. lia.
  - rewrite <- Hsum, Hx, Hy.
    replace (ex + 1074) with ((ex - ez) + (ez + 1074)) by lia.
    replace (ey + 1074) with ((ey - ez) + (ez + 1074)) by lia.
    rewrite (Z.pow_add_r 2 (ex - ez) (ez + 1074)) by lia.
    rewrite (Z.pow_add_r 2 (ey - ez) (ez + 1074)) by lia. ring.
Qed.

Lemma SFsub_rounds (mx : positive) (ex : Z) (my : positive) (ey : Z) :
  canonical mx ex → canonical my ey →
  SFV (S754_finite false my ey) <= SFV (S754_finite false mx ex) →
  let r := SFsub 53 1024 (S754_finite false mx ex) (S754_finite false my ey) in
  clear_or_inf r
  ∧ rounds r (SFV (S754_finite false mx ex) - SFV (S754_finite false my ey)) 1.
Proof.
  intros (Hex & Hmx & Hnx) (Hey & Hmy & Hny) Hle r. unfold r.
  cbn [SFsub cond_Zopp SFV] in *.
  destruct (shl_align_spec mx ex (Z.min ex ey)) as [_ Hx].
  destruct (shl_align_spec my ey (Z.min ex ey)) as [_ Hy].
  replace (Z.min ex (Z.min ex ey)) with (Z.min ex ey) in Hx by lia.
  replace (Z.min ey (Z.min ex ey)) with (Z.min ex ey) in Hy by lia.
  set (ez := Z.min ex ey) in *.
  assert (Hval : Z.pos mx * 2 ^ (ex + 1074) - Z.pos my * 2 ^ (ey + 1074)
                 = (Z.pos (shl_align mx ex ez).1 - Z.pos (shl_align my ey ez).1)
                   * 2 ^ (ez + 1074)).
  { rewrite Hx, Hy.
    replace (ex + 1074) with ((ex - ez) + (ez + 1074)) by lia.
    replace (ey + 1074) with ((ey - ez) + (ez + 1074)) by lia.
    rewrite (Z.pow_add_r 2 (ex - ez) (ez + 1074)) by lia.
    rewrite (Z.pow_add_r 2 (ey - ez) (ez + 1074)) by lia. ring. }
  pose proof (pow2_pos (ez + 1074) ltac:(lia)) as HE.
  rewrite Hval.
  destruct (Z.pos (shl_align mx ex ez).1 - Z.pos (shl_align my ey ez).1) as [|p|p] eqn:Hdiff.
  - cbn [binary_normalize]. split; [by left; left|]. apply rounds_zero. lia.
  - cbn [binary_normalize]. apply binary_round_rounds. lia.
  - exfalso. assert (Z.neg p * 2 ^ (ez + 1074) < 0) by nia. lia.
Qed.

(** *** Neighbours *)

Lemma gap_below (x hi : spec_float) :
  clear x → clear hi → SFV x < SFV hi → SFV x <= SFVpred hi.
Proof.
  intros Hx [->|(m & e & -> & He & Hm & Hn)] Hlt.
  { pose proof (SFV_nonneg x). cbn in Hlt. lia. }
  destruct Hx as [->|(mx & ex & -> & Hex & Hmx & Hnx)].
  { cbn [SFV SFVpred]. destruct (_ && _); [|nia].
    pose proof (pow2_pos (e - 1 + 1074)). nia. }
  cbn [SFV SFVpred] in *.
  assert (H53 : 2 ^ 53 = 2 * 2 ^ 52) by reflexivity.
  pose proof (pow2_pos (ex + 1074) ltac:(lia)) as HEx.
  pose proof (pow2_pos (e + 1074) ltac:(lia)) as HE.
  destruct (Z.lt_trichotomy ex e) as [Hlt'|[->|Hgt]].
  - pose proof (pow2_step (-1074) ex e ltac:(lia) Hlt') as Hstep.
    replace (ex - -1074) with (ex + 1074) in Hstep by lia.
    replace (e - -1074) with (e + 1074) in Hstep by lia.
    assert (H52 : 2 ^ 52 <= Z.pos m) by (apply Hn; lia).
    destruct (Z.eqb_spec (Z.pos m) (2 ^ 52)) as [Heq|Hne]; cbn [andb].
    + destruct (Z.ltb_spec (-1074) e); [|lia].
      assert (Hle : ex + 1074 <= e - 1 + 1074) by lia.
      assert (2 ^ (ex + 1074) <= 2 ^ (e - 1 + 1074)) by (apply Z.pow_le_mono_r; lia).
      nia.
    + assert (2 ^ 52 + 1 <= Z.pos m) by lia. nia.
  - assert (Hmm : Z.pos mx < Z.pos m) by (eapply Z.mul_lt_mono_pos_r; [exact HE|done]).
    assert (Hle : Z.pos mx * 2 ^ (e + 1074) <= (Z.pos m - 1) * 2 ^ (e + 1074)).
    { apply Z.mul_le_mono_nonneg_r; lia. }
    destruct (Z.eqb_spec (Z.pos m) (2 ^ 52)) as [Heq|Hne]; cbn [andb]; [|done].
    destruct (Z.ltb_spec (-1074) e); [|done].
    assert (2 ^ 52 <= Z.pos mx) by (apply Hnx; lia). lia.
  - exfalso. pose proof (pow2_step (-1074) e ex ltac:(lia) Hgt) as Hstep.
    replace (ex - -1074) with (ex + 1074) in Hstep by lia.
    replace (e - -1074) with (e + 1074) in Hstep by lia.
    assert (H52 : 2 ^ 52 <= Z.pos mx) by (apply Hnx; lia). nia.
Qed.

Lemma gap_above (lo x : spec_float) :
  clear lo → clear x → SFV lo < SFV x → SFVsucc lo <= SFV x.
Proof.
  intros Hlo [->|(mx & ex & -> & Hex & Hmx & Hnx)] Hlt.
  { pose proof (SFV_nonneg lo). cbn in Hlt. lia. }
  pose proof (pow2_pos (ex + 1074) ltac:(lia)) as HEx.
  destruct Hlo as [->|(m & e & -> & He & Hm & Hn)]; cbn [SFV SFVsucc] in *; [nia|].
  assert (H53 : 2 ^ 53 = 2 * 2 ^ 52) by reflexivity.
  pose proof (pow2_pos (e + 1074) ltac:(lia)) as HE.
  destruct (Z.lt_trichotomy ex e) as [Hlt'|[->|Hgt]].
  - exfalso. pose proof (pow2_step (-1074) ex e ltac:(lia) Hlt') as Hstep.
    replace (ex - -1074) with (ex + 1074) in Hstep by lia.
    replace (e - -1074) with (e + 1074) in Hstep by lia.
    assert (H52 : 2 ^ 52 <= Z.pos m) by (apply Hn; lia). nia.
  - assert (Hmm : Z.pos m < Z.pos mx) by (eapply Z.mul_lt_mono_pos_r; [exact HE|done]).
    apply Z.mul_le_mono_nonneg_r; lia.
  - pose proof (pow2_step (-1074) e ex ltac:(lia) Hgt) as Hstep.
    replace (ex - -1074) with (ex + 1074) in Hstep by lia.
    replace (e - -1074) with (e + 1074) in Hstep by lia.
    assert (H52 : 2 ^ 52 <= Z.pos mx) by (apply Hnx; lia). nia.
Qed.

(** *** Primitive floats *)

Lemma okb_ok (x : float) : okb x = true → ok x.
Proof.
  unfold okb, ok. pose proof (Prim2SF_valid x) as Hvalid.
  destruct (Prim2SF x) as [[]| | |[] m e]; try done; intros _.
  - by left.
  - right. eexists _, _. split; [done|]. by eapply valid_canonical.
Qed.

Lemma withinb_within (lo hi x : float) : withinb lo hi x = true → within lo hi x.
Proof.
  unfold withinb. intros [[Hok Hlo%Z.leb_le]%andb_true_iff Hhi%Z.leb_le]%andb_true_iff.
  split; [by apply okb_ok|lia].
Qed.

Lemma ok_V_inj (x y : float) : ok x → ok y → V x = V y → x = y.
Proof. intros Hx Hy Heq. apply Prim2SF_inj. by apply clear_SFV_inj. Qed.

Lemma leb_V (x y : float) : ok x → ok y → (PrimFloat.leb x y = true ↔ V x <= V y).
Proof. intros Hx Hy. rewrite leb_spec. by apply SFleb_SFV. Qed.

Lemma ltb_V (x y : float) : ok x → ok y → (PrimFloat.ltb x y = true ↔ V x < V y).
Proof. intros Hx Hy. rewrite ltb_spec. by apply SFltb_SFV. Qed.

(** A float between two positive finite floats is one. *)
Lemma leb_within (lo hi x : float) :
  ok lo → 0 < V lo → ok hi →
  PrimFloat.leb lo x = true → PrimFloat.leb x hi = true → within lo hi x.
Proof.
  intros Hlo Hpos Hhi Hle1 Hle2.
  assert (Hx : ok x).
  { unfold ok in *. rewrite leb_spec in Hle1, Hle2. unfold V in Hpos.
    pose proof (Prim2SF_valid x) as Hvalid.
    destruct Hlo as [Hlo|(m & e & Hlo & _)]; rewrite Hlo in *; [cbn in Hpos; lia|].
    destruct (Prim2SF x) as [s|s| |s mx ex]; try done.
    - destruct s; try done.
      destruct Hhi as [Hh|(? & ? & Hh & _)]; by rewrite Hh in Hle2.
    - destruct s; try done. right. eexists _, _. split; [done|]. by eapply valid_canonical. }
  split; [done|]. split; by apply leb_V.
Qed.

Lemma rounds_within (r : float) (num den : Z) (lo' hi' : float) :
  clear_or_inf (Prim2SF r) → rounds (Prim2SF r) num den → 0 < den →
  ok lo' → ok hi' → 0 < V hi' →
  V lo' * den <= num → num <= V hi' * den →
  within lo' hi' r.
Proof.
  intros Hr Hrounds Hden Hlo Hhi Hpos Hnum1 Hnum2. unfold within, ok, V in *.
  destruct Hhi as [Hhi|(mh & eh & Hhi & Hch)]; rewrite Hhi in *; [cbn in Hpos; lia|].
  destruct (Hrounds mh eh Hch) as [Hup _]. specialize (Hup Hnum2).
  assert (Hclear : clear (Prim2SF r)).
  { destruct Hr as [?|Hinf]; [done|]. by rewrite Hinf in Hup. }
  split; [done|]. split.
  - destruct Hlo as [Hlo|(ml & el & Hlo & Hcl)]; rewrite Hlo in *.
    + apply SFV_nonneg.
    + destruct (Hrounds ml el Hcl) as [_ Hdown]. specialize (Hdown Hnum1).
      apply SFleb_SFV; [right; eauto|done|done].
  - apply SFleb_SFV; [done|right; eauto|done].
Qed.

Section Step.
Variables (f : float → float) (α β den : Z) (lo hi lo' hi' : float).
Hypothesis Hf : ∀ x, within lo hi x →
  clear_or_inf (Prim2SF (f x)) ∧ rounds (Prim2SF (f x)) (α * V x + β) den.
Hypothesis Hcheck : step_check f α β den lo hi lo' hi' = true.

(** A function that rounds a non-decreasing exact value maps an interval
    into an interval. *)
Lemma step (x : float) : within lo hi x → within lo' hi' (f x).
Proof using All.
  unfold step_check in Hcheck.
  repeat match type of Hcheck with _ && _ = true =>
    let H := fresh "Hc" in apply andb_true_iff in Hcheck as [Hcheck H] end.
  apply okb_ok in Hcheck. apply okb_ok in Hc8, Hc7, Hc6.
  apply Z.ltb_lt in Hc5, Hc3. apply Z.leb_le in Hc4, Hc0, Hc.
  apply withinb_within in Hc2, Hc1.
  intros Hx. pose proof Hx as [Hok [Hlo Hhi]].
  destruct (Z.eq_dec (V x) (V lo)) as [Heq|Hne1].
  { by rewrite (ok_V_inj x lo Hok Hcheck Heq). }
  destruct (Z.eq_dec (V x) (V hi)) as [Heq|Hne2].
  { by rewrite (ok_V_inj x hi Hok Hc8 Heq). }
  destruct (Hf x Hx) as [Hclear Hrounds].
  assert (Hsucc : Vsucc lo <= V x) by (apply gap_above; try done; unfold V in *; lia).
  assert (Hpred : V x <= Vpred hi) by (apply gap_below; try done; unfold V in *; lia).
  apply (rounds_within (f x) (α * V x + β) den); try done; nia.
Qed.

End Step.

(** *** The four operations on primitive floats *)

Lemma mul_exact (x c : float) :
  ok x → ok c →
  clear_or_inf (Prim2SF (x * c)) ∧ rounds (Prim2SF (x * c)) (V x * V c) (2 ^ 1074).
Proof.
  unfold ok, V. rewrite mul_spec. unfold SF64mul.
  assert (Hden : 0 < 2 ^ 1074) by (by apply pow2_pos).
  intros [->|(mx & ex & -> & Hx)] [->|(mc & ec & -> & Hc)].
  - split; [by left; left|]. by apply rounds_zero.
  - split; [by left; left|]. by apply rounds_zero.
  - split; [by left; left|]. rewrite Z.mul_0_r. by apply rounds_zero.
  - by apply SFmul_rounds.
Qed.

Lemma div_exact (x c : float) :
  ok x → ok c → 0 < V c →
  clear_or_inf (Prim2SF (x / c)) ∧ rounds (Prim2SF (x / c)) (V x * 2 ^ 1074) (V c).
Proof.
  unfold ok, V. rewrite div_spec. unfold SF64div.
  intros [->|(mx & ex & -> & Hx)] [->|(mc & ec & -> & Hc)] Hpos; try (cbn in Hpos; lia).
  - split; [by left; left|]. by apply rounds_zero.
  - by apply SFdiv_rounds.
Qed.

Lemma add_exact (x c : float) :
  ok x → ok c →
  clear_or_inf (Prim2SF (x + c)) ∧ rounds (Prim2SF (x + c)) (V x + V c) 1.
Proof.
  unfold ok, V. rewrite add_spec. unfold SF64add.
  intros [->|(mx & ex & -> & Hx)] [->|(mc & ec & -> & Hc)].
  - split; [by left; left|]. by apply rounds_zero.
  - split; [left; right; eauto|]. apply (rounds_self (S754_finite false mc ec)). right; eauto.
  - split; [left; right; eauto|]. rewrite Z.add_0_r.
    apply (rounds_self (S754_finite false mx ex)). right; eauto.
  - by apply SFadd_rounds.
Qed.

Lemma sub_exact (x c : float) :
  ok x → ok c → V c <= V x →
  clear_or_inf (Prim2SF (x - c)) ∧ rounds (Prim2SF (x - c)) (V x - V c) 1.
Proof.
  unfold ok, V. rewrite sub_spec. unfold SF64sub.
  intros [->|(mx & ex & -> & Hx)] [->|(mc & ec & -> & Hc)] Hle.
  - split; [by left; left|]. by apply rounds_zero.
  - pose proof (SFV_finite_pos mc ec Hc). cbn [SFV] in *. lia.
  - split; [left; right; eauto|]. rewrite Z.sub_0_r.
    apply (rounds_self (S754_finite false mx ex)). right; eauto.
  - by apply SFsub_rounds.
Qed.

Section Steps.
Variables (c lo hi lo' hi' : float).
Hypothesis Hc : okb c = true.

Lemma mul_step (x : float) :
  step_check (λ y, y * c)%float (V c) 0 (2 ^ 1074) lo hi lo' hi' = true →
  within lo hi x → within lo' hi' (x * c).
Proof using All.
  intros Hcheck. apply (step (λ y, y * c)%float (V c) 0 (2 ^ 1074) lo hi lo' hi'); [|done].
  intros y [Hy _]. replace (V c * V y + 0) with (V y * V c) by ring.
  apply mul_exact; [done|by apply okb_ok].
Qed.

Lemma div_step (x : float) :
  (0 <? V c) = true →
  step_check (λ y, y / c)%float (2 ^ 1074) 0 (V c) lo hi lo' hi' = true →
  within lo hi x → within lo' hi' (x / c).
Proof using All.
  intros Hpos%Z.ltb_lt Hcheck.
  apply (step (λ y, y / c)%float (2 ^ 1074) 0 (V c) lo hi lo' hi'); [|done].
  intros y [Hy _]. replace (2 ^ 1074 * V y + 0) with (V y * 2 ^ 1074) by ring.
  apply div_exact; [done|by apply okb_ok|done].
Qed.

Lemma add_step (x : float) :
  step_check (λ y, y + c)%float 1 (V c) 1 lo hi lo' hi' = true →
  within lo hi x → within lo' hi' (x + c).
Proof using All.
  intros Hcheck. apply (step (λ y, y + c)%float 1 (V c) 1 lo hi lo' hi'); [|done].
  intros y [Hy _]. replace (1 * V y + V c) with (V y + V c) by ring.
  apply add_exact; [done|by apply okb_ok].
Qed.

Lemma sub_step (x : float) :
  (V c <=? V lo) = true →
  step_check (λ y, y - c)%float 1 (- V c) 1 lo hi lo' hi' = true →
  within lo hi x → within lo' hi' (x - c).
Proof using All.
  intros Hle%Z.leb_le Hcheck.
  apply (step (λ y, y - c)%float 1 (- V c) 1 lo hi lo' hi'); [|done].
  intros y [Hy [Hlo _]]. replace (1 * V y + - V c) with (V y - V c) by ring.
  apply sub_exact; [done|by apply okb_ok|lia].
Qed.

End Steps.

(** *** [rint] and [np_round] on non-negative numbers *)

Lemma abs_ok (x : float) : ok x → PrimFloat.abs x = x.
Proof.
  intros Hx. apply Prim2SF_inj. rewrite abs_spec.
  by destruct Hx as [->|(m & e & -> & _)].
Qed.

Lemma get_sign_ok (x : float) : ok x → PrimFloat.get_sign x = false.
Proof.
  intros Hx. unfold get_sign, is_zero. rewrite FloatAxioms.eqb_spec.
  destruct Hx as [Hx|(m & e & Hx & _)]; rewrite Hx.
  - change (SFeqb (S754_zero false) (Prim2SF zero)) with true. cbn match.
    rewrite ltb_spec, div_spec, Hx. reflexivity.
  - change (SFeqb (S754_finite false m e) (Prim2SF zero)) with false. cbn match.
    rewrite ltb_spec, Hx. reflexivity.
Qed.

Lemma rint_ok (x : float) :
  ok x → V x < V B64.two52 →
  B64.rint x = ((x + B64.two52) - B64.two52)%float.
Proof.
  intros Hx Hlt. unfold B64.rint. rewrite (abs_ok x Hx), (get_sign_ok x Hx).
  assert (Hltb : PrimFloat.ltb x B64.two52 = true).
  { apply ltb_V; [done|by apply okb_ok|done]. }
  by rewrite Hltb.
Qed.

Lemma within_lo (lo hi x : float) : within lo hi x → V lo <= V x.
Proof. intros (_ & ? & _). done. Qed.

Lemma step_check_ends (f : float → float) (α β den : Z) (lo hi lo' hi' : float) :
  step_check f α β den lo hi lo' hi' = true →
  within lo hi lo ∧ within lo hi hi → within lo' hi' (f lo) ∧ within lo' hi' (f hi).
Proof.
  unfold step_check. intros Hcheck _.
  repeat match type of Hcheck with _ && _ = true =>
    let H := fresh "Hc" in apply andb_true_iff in Hcheck as [Hcheck H] end.
  split; by apply withinb_within.
Qed.

(** [np_round] maps an interval of non-negative numbers between the
    images of its ends. *)
Lemma np_round_within (d : nat) (lo hi x : float) :
  np_round_check d lo hi = true →
  within lo hi x → within (np_round lo d) (np_round hi d) (np_round x d).
Proof.
  unfold np_round_check. cbn zeta.
  set (p := B64.dec (10 ^ Z.of_nat d) 0). set (t := B64.two52).
  intros Hcheck.
  repeat match type of Hcheck with _ && _ = true =>
    let H := fresh "Hc" in apply andb_true_iff in Hcheck as [Hcheck H] end.
  apply Z.ltb_lt in Hc3. apply Z.leb_le in Hc1.
  assert (Hrint : ∀ y, within (lo * p) (hi * p) y →
            within ((lo * p + t - t) / p) ((hi * p + t - t) / p) (B64.rint y / p)).
  { intros y Hy. rewrite rint_ok; [|apply Hy|destruct Hy as (_ & _ & ?); fold t; lia].
    fold t. eapply div_step; [exact Hcheck|exact Hc6|exact Hc|].
    eapply (sub_step t (lo * p + t)); [exact Hc5|by apply Z.leb_le|exact Hc0|].
    eapply add_step; [exact Hc5|exact Hc2|exact Hy]. }
  intros Hx.
  assert (Hmul : ∀ y, within lo hi y → within (lo * p) (hi * p) (y * p)).
  { intros y Hy. eapply mul_step; [exact Hcheck|exact Hc4|exact Hy]. }
  destruct (step_check_ends _ _ _ _ _ _ _ _ Hc4) as [Hlo Hhi].
  { unfold step_check in Hc4.
    repeat match type of Hc4 with _ && _ = true =>
      let H := fresh "Hd" in apply andb_true_iff in Hc4 as [Hc4 H] end.
    apply okb_ok in Hc4, Hd8.
    destruct (Hmul x Hx) as (_ & ? & ?). destruct Hx as (_ & ? & ?).
    split; (split; [done|lia]). }
  unfold np_round. cbn [dec mul div rint binary64]. fold p.
  assert (Heq : ∀ y, within (lo * p) (hi * p) y → B64.rint y = (y + t - t)%float).
  { intros y Hy. apply rint_ok; [apply Hy|destruct Hy as (_ & _ & ?); fold t; lia]. }
  rewrite (Heq _ Hlo), (Heq _ Hhi). by apply Hrint, Hmul.
Qed.

Example np_round_example (v : float) :
  within (B64.dec 28 1) (B64.dec 36 1) v →
  within (B64.dec 28 1) (B64.dec 36 1) (np_round v 2).
Proof.
  intros Hv. apply (np_round_within 2 _ _ v) in Hv; [|vm_compute; reflexivity].
  exact Hv.
Qed.

(** *** The state of charge *)

Lemma soc_within (lo hi v : float) :
  soc_check lo hi = true →
  within lo hi v → within (soc_of lo hi lo) (soc_of lo hi hi) (soc_of lo hi v).
Proof.
  unfold soc_check. cbn zeta. intros Hcheck.
  repeat match type of Hcheck with _ && _ = true =>
    let H := fresh "Hc" in apply andb_true_iff in Hcheck as [Hcheck H] end.
  intros Hv. unfold soc_of. cbn [sub div mul dec binary64].
  apply np_round_within; [exact Hc|].
  eapply mul_step; [exact Hc3|exact Hc0|].
  eapply div_step; [exact Hc5|exact Hc4|exact Hc1|].
  eapply (sub_step lo lo hi); [exact Hcheck|apply Z.leb_refl|exact Hc2|exact Hv].
Qed.

Lemma within_leb (lo hi x : float) :
  okb lo = true → okb hi = true → within lo hi x →
  PrimFloat.leb lo x && PrimFloat.leb x hi = true.
Proof.
  intros Hlo%okb_ok Hhi%okb_ok (Hx & Hle1 & Hle2).
  apply andb_true_iff. split; by apply leb_V.
Qed.

(** *** Numbers that are not NaN *)

Lemma isnan_false (x : float) : isnan x = false ↔ Prim2SF x ≠ S754_nan.
Proof.
  unfold isnan. cbn [eqb binary64]. rewrite negb_false_iff, FloatAxioms.eqb_spec.
  unfold SFeqb, SFcompare.
  destruct (Prim2SF x) as [s|[]| |[] m e]; try (split; done);
    rewrite Z.compare_refl; change (Pos.compare_cont Eq m m) with (Pos.compare m m);
    rewrite Pos.compare_refl; split; done.
Qed.

Lemma shr_1_nonneg (mrs : shr_record) : 0 <= shr_m mrs → 0 <= shr_m (shr_1 mrs).
Proof. destruct mrs as [[|[p|p|]|p] r s]; cbn; lia. Qed.

Lemma iter_shr_1_nonneg (p : positive) (mrs : shr_record) :
  0 <= shr_m mrs → 0 <= shr_m (SpecFloat.iter_pos shr_1 p mrs).
Proof.
  revert mrs. induction p as [p IH|p IH|]; intros mrs Hm; cbn [SpecFloat.iter_pos].
  - by apply IH, IH, shr_1_nonneg.
  - by apply IH, IH.
  - by apply shr_1_nonneg.
Qed.

Lemma shr_fexp_nonneg (m e : Z) (l : location) :
  0 <= m → 0 <= shr_m (shr_fexp 53 1024 m e l).1.
Proof.
  intros Hm. unfold shr_fexp, shr.
  assert (Hrec : 0 <= shr_m (shr_record_of_loc m l)) by (by destruct l as [|[]]).
  destruct (_ - e) as [|p|p]; cbn [fst]; try done. by apply iter_shr_1_nonneg.
Qed.

Lemma binary_round_aux_not_nan (sx : bool) (mx ex : Z) (lx : location) :
  0 <= mx → binary_round_aux 53 1024 sx mx ex lx ≠ S754_nan.
Proof.
  intros Hm. unfold binary_round_aux.
  pose proof (shr_fexp_nonneg mx ex lx Hm) as H1.
  destruct (shr_fexp 53 1024 mx ex lx) as [mrs' e']. cbn [fst] in H1.
  assert (H2 : 0 <= round_nearest_even (shr_m mrs') (loc_of_shr_record mrs')).
  { unfold round_nearest_even. destruct (loc_of_shr_record mrs') as [|[]]; try lia.
    destruct (Z.even _); lia. }
  pose proof (shr_fexp_nonneg _ e' loc_Exact H2) as H3.
  destruct (shr_fexp 53 1024 _ e' loc_Exact) as [mrs'' e'']. cbn [fst] in H3.
  destruct (shr_m mrs'') as [|p|p]; [done| |lia]. by destruct (_ <=? _).
Qed.

Lemma binary_normalize_not_nan (m e : Z) :
  binary_normalize 53 1024 m e false ≠ S754_nan.
Proof.
  destruct m as [|p|p]; cbn [binary_normalize]; [done| |];
    unfold binary_round; destruct (shl_align _ _ _); by apply binary_round_aux_not_nan.
Qed.

Lemma sub_not_nan (x c : float) : isnan x = false → finb c = true → isnan (x - c)%float = false.
Proof.
  rewrite !isnan_false, sub_spec. unfold finb, SF64sub.
  destruct (Prim2SF c) as [| | |sc mc ec]; try done. intros Hx _.
  destruct (Prim2SF x) as [sx|sx| |sx mx ex]; try done; cbn [SFsub].
  apply binary_normalize_not_nan.
Qed.

Lemma mul_not_nan (x c : float) : isnan x = false → finb c = true → isnan (x * c)%float = false.
Proof.
  rewrite !isnan_false, mul_spec. unfold finb, SF64mul.
  destruct (Prim2SF c) as [| | |sc mc ec]; try done. intros Hx _.
  destruct (Prim2SF x) as [sx|sx| |sx mx ex]; try done; cbn [SFmul].
  by apply binary_round_aux_not_nan.
Qed.

Lemma add_not_nan (c x : float) : finb c = true → isnan x = false → isnan (c + x)%float = false.
Proof.
  rewrite !isnan_false, add_spec. unfold finb, SF64add.
  destruct (Prim2SF c) as [| | |sc mc ec]; try done. intros _ Hx.
  destruct (Prim2SF x) as [sx|sx| |sx mx ex]; try done; cbn [SFadd].
  apply binary_normalize_not_nan.
Qed.

(** *** [np.clip] in binary64 *)

Lemma SFltb_SFleb (x y : spec_float) : SFltb x y = true → SFleb x y = true.
Proof. unfold SFltb, SFleb. by destruct (SFcompare x y) as [[]|]. Qed.

Lemma SFleb_refl (x : spec_float) : x ≠ S754_nan → SFleb x x = true.
Proof.
  unfold SFleb, SFcompare. destruct x as [s|[]| |[] m e]; try done; intros _;
    rewrite Z.compare_refl; change (Pos.compare_cont Eq m m) with (Pos.compare m m);
    by rewrite Pos.compare_refl.
Qed.

Lemma np_clip_range (x lo hi : float) :
  isnan x = false → isnan lo = false → isnan hi = false →
  PrimFloat.leb lo hi = true →
  PrimFloat.leb lo (np_clip x lo hi) = true
  ∧ PrimFloat.leb (np_clip x lo hi) hi = true.
Proof.
  intros Hx Hlo Hhi Hle. unfold np_clip. rewrite Hx. cbn [ltb binary64].
  assert (Hrefl : ∀ y, isnan y = false → PrimFloat.leb y y = true).
  { intros y Hy%isnan_false. rewrite leb_spec. by apply SFleb_refl. }
  assert (Hlt : ∀ y z, PrimFloat.ltb y z = true → PrimFloat.leb y z = true).
  { intros y z. rewrite ltb_spec, leb_spec. apply SFltb_SFleb. }
  destruct (PrimFloat.ltb lo x) eqn:H1.
  - rewrite Hx. destruct (PrimFloat.ltb x hi) eqn:H2; auto.
  - rewrite Hlo. destruct (PrimFloat.ltb lo hi) eqn:H2; auto.
Qed.

(** ** The generator in binary64 *)

Lemma cell_types_cases {N} `{Arith N} (cell_type : string) (specs : cell_spec N) :
  CELL_TYPES !! cell_type = Some specs →
  (nominal_voltage specs = dec 32 1 ∧ minimum_voltage specs = dec 28 1
   ∧ maximum_voltage specs = dec 36 1)
  ∨ (nominal_voltage specs = dec 36 1 ∧ minimum_voltage specs = dec 32 1
     ∧ maximum_voltage specs = dec 40 1)
  ∨ (nominal_voltage specs = dec 38 1 ∧ minimum_voltage specs = dec 30 1
     ∧ maximum_voltage specs = dec 42 1).
Proof.
  intros Hspecs%elem_of_list_to_map_2.
  repeat (apply elem_of_cons in Hspecs as [[= -> ->]|Hspecs]; [cbn; auto 10|]).
  by apply elem_of_nil in Hspecs.
Qed.

(** The raw voltage is a number when the draw is one. *)
Lemma raw_voltage_not_nan (nominal r1 : float) :
  finb nominal = true → isnan r1 = false →
  isnan (nominal + (r1 - dec 5 1) * dec 2 1)%num = false.
Proof.
  intros Hn Hr. cbn [add sub mul dec binary64].
  apply add_not_nan; [done|]. apply mul_not_nan; [|vm_compute; reflexivity].
  apply sub_not_nan; [done|vm_compute; reflexivity].
Qed.

Lemma within_trans (lo hi a b x : float) :
  within lo hi a → within lo hi b → within a b x → within lo hi x.
Proof. intros (_ & ? & ?) (_ & ? & ?) (? & ? & ?). split; [done|lia]. Qed.

(** The clamped voltage and what is derived from it, for a nominal
    voltage and bounds that pass the evaluated checks. *)
Lemma clamped_ranges (nominal lo hi r1 : float) :
  isnan r1 = false →
  range_check nominal lo hi = true →
  let v := np_clip (nominal + (r1 - dec 5 1) * dec 2 1)%num lo hi in
  PrimFloat.leb lo v && PrimFloat.leb v hi = true
  ∧ PrimFloat.leb lo (np_round v 2) && PrimFloat.leb (np_round v 2) hi = true
  ∧ PrimFloat.leb (dec 0 0) (soc_of lo hi v)
    && PrimFloat.leb (soc_of lo hi v) (dec 100 0) = true.
Proof.
  intros Hr1 Hcheck v. unfold range_check in Hcheck.
  repeat match type of Hcheck with _ && _ = true =>
    let H := fresh "Hc" in apply andb_true_iff in Hcheck as [Hcheck H] end.
  apply Z.ltb_lt in Hc9.
  pose proof (okb_ok _ Hc10) as Hlo. pose proof (okb_ok _ Hc8) as Hhi.
  apply withinb_within in Hc4, Hc3, Hc2, Hc1.
  assert (Hnan : ∀ y, ok y → isnan y = false).
  { intros y Hy. apply isnan_false. by destruct Hy as [->|(? & ? & -> & _)]. }
  pose proof (raw_voltage_not_nan nominal r1 Hcheck Hr1) as Hraw.
  destruct (np_clip_range _ lo hi Hraw (Hnan _ Hlo) (Hnan _ Hhi) Hc7) as [Hle1 Hle2].
  fold v in Hle1, Hle2.
  assert (Hv : within lo hi v) by (by apply leb_within).
  split; [by rewrite Hle1, Hle2|]. split.
  - apply within_leb; [done..|].
    eapply within_trans; [exact Hc4|exact Hc3|]. by apply np_round_within.
  - apply within_leb; [done..|].
    eapply within_trans; [exact Hc2|exact Hc1|]. by apply soc_within.
Qed.

(** C9: in binary64, for a chemistry of the table and a draw that is a
    number, the generator clamps the raw voltage into [minimum, maximum]
    whatever it is, returns that voltage rounded, still in
    [minimum, maximum], derives the state of charge from the clamped
    voltage as (voltage - minimum) / (maximum - minimum) * 100, and the
    state of charge it returns lies in [0, 100]. *)
Theorem generate_cell_data_soc_range
    (cell_type : string) (specs : cell_spec float) (r1 r2 r3 : float) (now : Z) :
  CELL_TYPES !! cell_type = Some specs →
  isnan r1 = false →
  let raw := (nominal_voltage specs + (r1 - dec 5 1) * dec 2 1)%num in
  let v := np_clip raw (minimum_voltage specs) (maximum_voltage specs) in
  ((minimum_voltage specs <=? v) && (v <=? maximum_voltage specs))%num = true
  ∧ ∃ d, generate_cell_data cell_type r1 r2 r3 now = Ok d
      ∧ voltage d = np_round v 2
      ∧ ((minimum_voltage specs <=? voltage d)
         && (voltage d <=? maximum_voltage specs))%num = true
      ∧ soc d = np_round ((v - minimum_voltage specs)
                          / (maximum_voltage specs - minimum_voltage specs)
                          * dec 100 0)%num 1
      ∧ ((dec 0 0 <=? soc d) && (soc d <=? dec 100 0))%num = true.
Proof.
  intros Hspecs Hr1 raw v.
  assert (Hgen : generate_cell_data cell_type r1 r2 r3 now
    = Ok {| voltage := np_round v 2;
            current := pyround (py_max (dec 1 1) (dec 8 1 + (r2 - dec 5 1) * dec 5 1)%num) 2;
            temperature := pyround (dec 25 0 + r3 * dec 20 0)%num 1;
            capacity := np_round (v * py_max (dec 1 1)
                                    (dec 8 1 + (r2 - dec 5 1) * dec 5 1))%num 2;
            soc := np_round ((v - minimum_voltage specs)
                             / (maximum_voltage specs - minimum_voltage specs)
                             * dec 100 0)%num 1;
            timestamp := now |}).
  { unfold generate_cell_data. by rewrite (getitem_Some _ _ _ Hspecs). }
  rewrite Hgen. cbn [leb binary64].
  assert (Hranges :
    PrimFloat.leb (minimum_voltage specs) v && PrimFloat.leb v (maximum_voltage specs) = true
    ∧ PrimFloat.leb (minimum_voltage specs) (np_round v 2)
      && PrimFloat.leb (np_round v 2) (maximum_voltage specs) = true
    ∧ PrimFloat.leb (dec 0 0)
        (soc_of (minimum_voltage specs) (maximum_voltage specs) v)
      && PrimFloat.leb (soc_of (minimum_voltage specs) (maximum_voltage specs) v)
           (dec 100 0) = true).
  { unfold v, raw. clear Hgen v raw.
    destruct (cell_types_cases _ _ Hspecs)
      as [(-> & -> & ->)|[(-> & -> & ->)|(-> & -> & ->)]];
      apply clamped_ranges; try done; vm_compute; reflexivity. }
  destruct Hranges as (Hv & Hround & Hsoc).
  split; [exact Hv|]. eexists. split; [reflexivity|]. cbn [voltage soc].
  split; [reflexivity|]. split; [exact Hround|]. split; [reflexivity|exact Hsoc].
Qed.

(** A draw of 750 puts the raw voltage far above the maximum of LFP: the
    voltage returned is 3.6 and the state of charge 100.  A draw of -750
    gives 2.8 and 0. *)
Lemma generate_cell_data_soc_range_witness :
  (∃ d, generate_cell_data (N:=float) "LFP" (dec 750 0) (dec 5 1) (dec 5 1) 0 = Ok d
     ∧ voltage d = dec 36 1 ∧ soc d = dec 100 0
     ∧ ((dec 0 0 <=? soc d) && (soc d <=? dec 100 0))%num = true)
  ∧ (∃ d, generate_cell_data (N:=float) "LFP" (dec (-750) 0) (dec 5 1) (dec 5 1) 0 = Ok d
     ∧ voltage d = dec 28 1 ∧ soc d = dec 0 0).
Proof.
  assert (Hhigh : isnan (dec 750 0 : float) = false) by (vm_compute; reflexivity).
  assert (Hlow : isnan (dec (-750) 0 : float) = false) by (vm_compute; reflexivity).
  split.
  - destruct (generate_cell_data_soc_range "LFP" _ (dec 750 0) (dec 5 1) (dec 5 1) 0
                eq_refl Hhigh) as (_ & d & Hd & Hvolt & _ & Hsoc & Hrange).
    exists d. split; [exact Hd|]. split; [|split; [|exact Hrange]].
    + rewrite Hvolt. vm_compute. reflexivity.
    + rewrite Hsoc. vm_compute. reflexivity.
  - destruct (generate_cell_data_soc_range "LFP" _ (dec (-750) 0) (dec 5 1) (dec 5 1) 0
                eq_refl Hlow) as (_ & d & Hd & Hvolt & _ & Hsoc & _).
    exists d. split; [exact Hd|]. split.
    + rewrite Hvolt. vm_compute. reflexivity.
    + rewrite Hsoc. vm_compute. reflexivity.
Defined.

(** C6 at [two_snapshots]: four rows for 1 + 3 readings. *)
Lemma export_rows_count_and_order_witness :
  known_chemistries (N:=float) two_snapshots
  ∧ ∃ rows, export_to_csv (N:=float) two_snapshots [] [] = Ok rows
      ∧ length rows = 4%nat
      ∧ Forall2 (λ p r, row_of_reading p.1 p.2 r) (pairs two_snapshots) rows.
Proof.
  assert (Hknown : known_chemistries (N:=float) two_snapshots).
  { intros s c Hs Hc. unfold two_snapshots in Hs.
    repeat (apply elem_of_cons in Hs as [->|Hs];
            [cbn in Hc;
             repeat (apply elem_of_cons in Hc as [->|Hc]; [by eexists|]);
             by apply elem_of_nil in Hc|]).
    by apply elem_of_nil in Hs. }
  split; [exact Hknown|].
  exact (export_rows_count_and_order two_snapshots [] [] Hknown).
Defined.

(** C7 at [session_with_tasks]. *)
Lemma export_reports_first_running_task_witness :
  known_chemistries (N:=float) session_with_tasks
  ∧ ∃ rows, export_to_csv (N:=float) session_with_tasks [] [] = Ok rows
      ∧ Forall2 (λ p r, reports_first_running (default [] (snap_tasks p.1)) r)
          (pairs session_with_tasks) rows.
Proof.
  assert (Hknown : known_chemistries (N:=float) session_with_tasks).
  { intros s c Hs Hc. unfold session_with_tasks in Hs.
    repeat (apply elem_of_cons in Hs as [->|Hs];
            [cbn in Hc;
             repeat (apply elem_of_cons in Hc as [->|Hc]; [by eexists|]);
             by apply elem_of_nil in Hc|]).
    by apply elem_of_nil in Hs. }
  split; [exact Hknown|].
  exact (export_reports_first_running_task session_with_tasks [] [] Hknown).
Defined.

(** The task columns of [session_with_tasks] in binary64: the rows of the
    first snapshot report the task listed first among the two running
    ones. *)
Example export_session_with_tasks :
  (λ rows : list (row float), (λ r : row float, (row_timestamp r, row_cell_name r, row_status r,
                              row_active_task r, row_task_progress r)) <$> rows)
    <$> export_to_csv (N:=float) session_with_tasks [] []
  = Ok [ (1, "Cell_1", "⚠️ Warning", "CC_CD", 40);
         (1, "Cell_2", "🔋 High", "CC_CD", 40);
         (2, "Cell_1", "⚠️ Warning", "None", 0) ].
Proof. vm_compute. reflexivity. Qed.

(** ** The comparison *)

(** C8, as amended: when either session holds no snapshot at all, the
    chart function returns the empty figure, which draws no bar, and the
    handler shows a warning and no chart. *)
Theorem compare_empty_side_is_signalled {N} `{Arith N}
    (current_data previous_data : list (entry N)) :
  current_data = [] ∨ previous_data = [] →
  (∃ fig, create_comparison_chart current_data previous_data = Ok fig
     ∧ fig_data fig = [] ∧ fig_layout fig = None)
  ∧ compare_sessions current_data previous_data
    = Ok [warning "Current and previous session data required for comparison"].
Proof.
  intros [-> | ->].
  - split; [by exists empty_figure|done].
  - split; [exists empty_figure|]; by destruct current_data.
Qed.

Lemma compare_empty_side_is_signalled_witness :
  compare_sessions (N:=float) (Snapshot <$> two_snapshots) []
  = Ok [warning "Current and previous session data required for comparison"].
Proof.
  apply (compare_empty_side_is_signalled (N:=float) (Snapshot <$> two_snapshots) []).
  by right.
Defined.

(** C8 as it is stated fails: a session whose snapshots hold no reading
    is not empty for the comparator.  Its summary is the four integer
    zeros, and the chart is drawn with a first bar of zeros and without
    any warning. *)
Lemma compare_without_readings_draws_zeros :
  concat (snap_cells <$> empty_snapshots (N:=float)) = []
  ∧ ∃ fig,
      create_comparison_chart (N:=float)
        (Snapshot <$> empty_snapshots) (Snapshot <$> two_snapshots) = Ok fig
      ∧ compare_sessions (N:=float)
          (Snapshot <$> empty_snapshots) (Snapshot <$> two_snapshots)
        = Ok [plotly_chart fig]
      ∧ bar_y <$> fig_data fig
        = [ [PyInt 0; PyInt 0; PyInt 0; PyInt 0];
            [PyFloat (dec 375 2); PyFloat (dec 25 0); PyFloat (dec 50 0);
             PyFloat (dec 3 0)] ].
Proof.
  split; [reflexivity|]. eexists. split; [vm_compute; reflexivity|].
  split; vm_compute; reflexivity.
Qed.

(** Two sessions with readings are drawn as two bars of four values. *)
Example compare_two_sessions :
  (λ fig : figure float, bar_y <$> fig_data fig)
    <$> create_comparison_chart (N:=float)
          (Snapshot <$> two_snapshots) (Reading <$> [cell_at 1 (dec 32 1)])
  = Ok [ [PyFloat (dec 375 2); PyFloat (dec 25 0); PyFloat (dec 50 0); PyFloat (dec 3 0)];
         [PyFloat (dec 32 1); PyFloat (dec 25 0); PyFloat (dec 50 0); PyFloat (dec 256 2)] ].
Proof. vm_compute. reflexivity. Qed.

(** ** The session log *)

Section Log.
Context {N : Type} `{Arith N}.

Lemma for_each_do_session_data {A} (xs : list A) (body : A → script (N:=N) ())
    (st : session_state) :
  (∀ x st', session_data (body x st').1 = session_data st') →
  session_data (for_each_do xs body st).1 = session_data st.
Proof.
  intros Hbody. revert st. induction xs as [|x xs IH]; intros st; [done|].
  cbn. unfold mbind, script_bind. specialize (Hbody x st).
  destruct (body x st) as [st' [[]|e]]; cbn in *; [|done].
  by rewrite IH.
Qed.

(** The log itself is append-only: "Update Data" leaves the elements
    recorded so far in place, in order, and adds at most one at the end. *)
Lemma update_data_appends (random : nat → N) (now : nat → Z) (st : session_state) :
  ∃ new, session_data (update_data random now st).1 = session_data st ++ new
         ∧ (length new ≤ 1)%nat.
Proof.
  assert (Hbody : ∀ (x : nat * loc) (st' : session_state),
    session_data
      ((let '(i, l) := x in
        st ← get;
        match store st !! l with
        | Some cell =>
            new_data ← lift (generate_at (cell_type cell) random now i);
            modify (set_store (insert l (cell_update cell new_data)))
        | None => mret ()
        end) st').1 = session_data st').
  { intros [i l'] st'. unfold get. unfold mbind at 1. unfold script_bind at 1.
    cbn beta iota. destruct (store st' !! l'); [|done].
    unfold mbind, script_bind, lift. by destruct (generate_at _ _ _ _). }
  unfold update_data, get. unfold mbind at 1. unfold script_bind at 1. cbn beta iota.
  destruct (cells_data st) as [|l ls] eqn:Hcells.
  - exists []. cbn. rewrite app_nil_r. split; [done|lia].
  - unfold mbind at 1. unfold script_bind at 1.
    match goal with |- context [for_each_do ?xs ?body st] =>
      pose proof (for_each_do_session_data xs body st Hbody) as Hloop;
      destruct (for_each_do xs body st) as [st' [[]|e]]
    end.
    + exists [ {| point_timestamp := now (length (cells_data st'));
                  point_cells := cells_data st';
                  point_tasks := tasks_data st' |} ].
      unfold mbind, script_bind, modify, mret, script_ret. cbn in *.
      rewrite Hloop. split; [done|lia].
    + exists []. cbn in *. rewrite app_nil_r. split; [done|lia].
Qed.

(** "Generate Cells" and "Save Tasks" leave the log as it is. *)
Lemma generate_cells_keeps_log (num_cells : nat) (default_cell_type : string)
    (random : nat → N) (now : nat → Z) (st : session_state) :
  session_data (generate_cells num_cells default_cell_type random now st).1
  = session_data st.
Proof.
  unfold generate_cells, modify. unfold mbind at 1. unfold script_bind at 1.
  cbn beta iota. unfold mbind at 1. unfold script_bind at 1.
  match goal with |- context [for_each_do ?xs ?body ?st0] =>
    pose proof (for_each_do_session_data xs body st0) as Hloop;
    destruct (for_each_do xs body st0) as [st' [[]|e]]
  end; cbn in *; apply Hloop; clear.
  all: intros i st'; unfold lift, get, modify, mbind, script_bind;
    by destruct (generate_at _ _ _ _).
Qed.

Lemma save_tasks_keeps_log (tasks : list (task N)) (st : session_state) :
  session_data (save_tasks tasks st).1 = session_data st.
Proof. done. Qed.

End Log.

(** C2, on the run [after_generate], [after_first_update],
    [after_second_update]: the log grows at its end, but the snapshot
    recorded by the first update, which held a voltage of 3.2 V when it
    was recorded, holds 3.25 V, the reading of the second update, once the
    second update has run. *)
Theorem update_data_rewrites_recorded_snapshot :
  session_data after_second_update
  = session_data after_first_update
    ++ [ {| point_timestamp := 3; point_cells := [0%nat]; point_tasks := [] |} ]
  ∧ log_voltages after_first_update = [ [dec 32 1] ]
  ∧ log_voltages after_second_update = [ [dec 325 2]; [dec 325 2] ].
Proof. repeat split; vm_compute; reflexivity. Qed.

(** ** The generator in binary64 *)

(** Draws that put the raw voltage above the maximum and below the
    minimum: the voltage returned is the bound and the state of charge is
    100 and 0. *)
Example generate_cell_data_above :
  (λ d : reading float, (voltage d, soc d))
    <$> generate_cell_data (N:=float) "NMC" (dec 750 0) (dec 5 1) (dec 5 1) 0
  = Ok (dec 40 1, dec 100 0).
Proof. vm_compute. reflexivity. Qed.

Example generate_cell_data_below :
  (λ d : reading float, (voltage d, PrimFloat.eqb (soc d) (dec 0 0)))
    <$> generate_cell_data (N:=float) "LCO" (dec (-750) 0) (dec 5 1) (dec 5 1) 0
  = Ok (dec 30 1, true).
Proof. vm_compute. reflexivity. Qed.


(** * Further properties *)

(** ** Aggregation and comparison *)

(** X1: the summary of a snapshot sequence is the summary of the flat
    list of all its readings: how the readings are grouped into snapshots
    does not matter. *)
Theorem aggregate_snapshots_as_flat {N} `{Arith N} (ss : list (snapshot N)) :
  calculate_session_averages (Snapshot <$> ss)
  = calculate_session_averages (Reading <$> concat (snap_cells <$> ss)).
Proof.
  rewrite averages_of_snapshots.
  destruct (concat (snap_cells <$> ss)) as [|c cs]; [done|].
  by rewrite averages_of_readings.
Qed.

(** X2: a comparison that succeeds also succeeds with the sessions
    swapped, and gives the same figure with the values of the two bars
    exchanged. *)
Theorem comparison_chart_swap {N} `{Arith N}
    (current_data previous_data : list (entry N)) (fig : figure N) :
  create_comparison_chart current_data previous_data = Ok fig →
  ∃ fig', create_comparison_chart previous_data current_data = Ok fig'
    ∧ bar_y <$> fig_data fig' = reverse (bar_y <$> fig_data fig)
    ∧ bar_name <$> fig_data fig' = bar_name <$> fig_data fig
    ∧ bar_x <$> fig_data fig' = bar_x <$> fig_data fig
    ∧ bar_marker_color <$> fig_data fig' = bar_marker_color <$> fig_data fig
    ∧ fig_layout fig' = fig_layout fig.
Proof.
  unfold create_comparison_chart.
  destruct current_data as [|a current_data], previous_data as [|b previous_data];
    try (intros [= <-]; by eexists).
  destruct (calculate_session_averages (a :: current_data)) as [ca|e]; [|done].
  destruct (calculate_session_averages (b :: previous_data)) as [pa|e]; [|done].
  intros [= <-]. by eexists.
Qed.

Lemma comparison_chart_swap_witness :
  ∃ fig', create_comparison_chart (N:=float)
            (Reading <$> [cell_at 1 (dec 32 1)]) (Snapshot <$> two_snapshots) = Ok fig'
    ∧ bar_y <$> fig_data fig'
      = [ [PyFloat (dec 32 1); PyFloat (dec 25 0); PyFloat (dec 50 0); PyFloat (dec 256 2)];
          [PyFloat (dec 375 2); PyFloat (dec 25 0); PyFloat (dec 50 0); PyFloat (dec 3 0)] ].
Proof.
  destruct (create_comparison_chart (N:=float)
              (Snapshot <$> two_snapshots) (Reading <$> [cell_at 1 (dec 32 1)]))
    as [fig|e] eqn:Hfig; [|vm_compute in Hfig; discriminate].
  destruct (comparison_chart_swap (N:=float) _ _ fig Hfig) as (fig' & Hfig' & Hy & _).
  exists fig'. split; [exact Hfig'|]. rewrite Hy.
  vm_compute in Hfig. injection Hfig as <-. vm_compute. reflexivity.
Defined.

(** ** Export of a cell of unknown chemistry *)

Section ExportFailure.
Context {N : Type} `{Arith N}.

Lemma get_cell_status_unknown (voltage temperature : N) (cell_type : string) :
  CELL_TYPES (N:=N) !! cell_type = None →
  get_cell_status voltage temperature cell_type = Raise (KeyError cell_type).
Proof. intros Hnone. unfold get_cell_status, getitem. by rewrite Hnone. Qed.

Lemma get_cell_status_known (voltage temperature : N) (cell_type : string) :
  is_Some (CELL_TYPES (N:=N) !! cell_type) →
  ∃ st, get_cell_status voltage temperature cell_type = Ok st
        ∧ (st = Critical ∨ st = Warning ∨ st = High ∨ st = Normal).
Proof.
  intros [specs Hspecs]. unfold get_cell_status.
  rewrite (getitem_Some _ _ _ Hspecs). cbn.
  repeat case_match; eauto 10.
Qed.

(** A loop stops at the first element whose body raises. *)
Lemma for_each_raise {A S} (xs1 xs2 : list A) (x : A) (body : S → A → result S)
    (s : S) (e : exn) :
  (∀ y s', y ∈ xs1 → ∃ s'', body s' y = Ok s'') →
  (∀ s', body s' x = Raise e) →
  for_each (xs1 ++ x :: xs2) body s = Raise e.
Proof.
  intros Hok Hx. revert s. induction xs1 as [|y xs1 IH]; intros s; cbn.
  - by rewrite Hx.
  - destruct (Hok y s) as [s'' ->]; [by left|]. cbn.
    apply IH. intros y' s' Hy'. apply Hok. by right.
Qed.

End ExportFailure.

(** X3: when the session holds a cell whose chemistry is not in
    [CELL_TYPES], the exporter returns no rows: it raises the [KeyError]
    of the first such cell, in snapshot order and then reading order. *)
Theorem export_unknown_chemistry_raises {N} `{Arith N}
    (ss1 ss2 : list (snapshot N)) (s : snapshot N) (cs1 cs2 : list (cell N))
    (c : cell N) (cells_data : list (cell N)) (tasks_data : list (task N)) :
  known_chemistries ss1 →
  snap_cells s = cs1 ++ c :: cs2 →
  (∀ c', c' ∈ cs1 → is_Some (CELL_TYPES (N:=N) !! cell_type c')) →
  CELL_TYPES (N:=N) !! cell_type c = None →
  export_to_csv (ss1 ++ s :: ss2) cells_data tasks_data
  = Raise (KeyError (cell_type c)).
Proof.
  intros Hknown Hcells Hcs1 Hc. unfold export_to_csv.
  destruct (ss1 ++ s :: ss2) as [|s0 ss0] eqn:Hss; [by destruct ss1|].
  rewrite <- Hss. clear Hss s0 ss0.
  apply for_each_raise.
  - intros s' acc Hs'.
    match goal with |- context [for_each (snap_cells s') ?body acc] =>
      destruct (for_each_append (snap_cells s') body (λ _ _, True) acc)
        as (blocks & -> & _); [|by eexists]
    end.
    intros c' acc' Hc'.
    destruct (get_cell_status_known (cell_voltage c') (cell_temperature c') (cell_type c'))
      as (st & -> & _); [by eapply Hknown|].
    cbn. by eexists.
  - intros acc. rewrite Hcells. apply for_each_raise.
    + intros c' acc' Hc'.
      destruct (get_cell_status_known (cell_voltage c') (cell_temperature c') (cell_type c'))
        as (st & -> & _); [by apply Hcs1|].
      cbn. by eexists.
    + intros acc'. by rewrite get_cell_status_unknown.
Qed.

(** The export of [session_with_unknown] in binary64 stops at the cell of
    chemistry NiMH. *)
Lemma export_unknown_chemistry_raises_witness :
  export_to_csv (N:=float) session_with_unknown [] [] = Raise (KeyError "NiMH").
Proof.
  apply (export_unknown_chemistry_raises (N:=float)
           [ {| snap_timestamp := 1; snap_cells := [cell_at 1 (dec 32 1)];
                snap_tasks := Some [] |} ] []
           {| snap_timestamp := 2;
              snap_cells := [cell_at 1 (dec 32 1); unknown_cell; cell_at 3 (dec 35 1)];
              snap_tasks := Some [] |}
           [cell_at 1 (dec 32 1)] [cell_at 3 (dec 35 1)] unknown_cell [] []).
  - intros s c Hs Hc.
    apply list_elem_of_singleton in Hs as ->. cbn in Hc.
    apply list_elem_of_singleton in Hc as ->. by eexists.
  - reflexivity.
  - intros c Hc. apply list_elem_of_singleton in Hc as ->. by eexists.
  - reflexivity.
Defined.

(** ** The thresholds in binary64 *)

(** The order of binary64 as [SFcompare] decides it: a number that is not
    below or equal to [a] is above every [b] that is below or equal to
    [a]. *)
Lemma SFleb_above (x a b : spec_float) :
  SFeqb x x = true → SFleb b a = true → SFleb x a = false → SFleb b x = true.
Proof.
  unfold SFeqb, SFleb.
  destruct x as [sx|sx| |sx mx ex], a as [sa|sa| |sa ma ea], b as [sb|sb| |sb mb eb];
    try destruct sx; try destruct sa; try destruct sb; cbn; try done.
  all: change (Pos.compare_cont Eq) with Pos.compare.
  all: repeat match goal with
       | |- context [Z.compare ?p ?q] => destruct (Z.compare_spec p q)
       | |- context [Pos.compare ?p ?q] => destruct (Pos.compare_spec p q)
       end; cbn; try done; try lia.
Qed.

Lemma leb_above (v a b : float) :
  PrimFloat.eqb v v = true → PrimFloat.leb b a = true →
  PrimFloat.leb v a = false → PrimFloat.leb b v = true.
Proof. rewrite FloatAxioms.eqb_spec, !leb_spec. apply SFleb_above. Qed.

(** X4: in binary64, a reading of an LFP or NMC cell whose voltage is a
    number is never classified Normal: for these chemistries the Warning
    bound, minimum * 1.2, lies above the High bound, maximum * 0.9, so a
    voltage that escapes Warning is High. *)
Theorem normal_unreachable_lfp_nmc (voltage temperature : float) (cell_type : string) :
  cell_type = "LFP" ∨ cell_type = "NMC" →
  isnan voltage = false →
  get_cell_status voltage temperature cell_type ≠ Ok Normal.
Proof.
  intros Htype Hnan. unfold isnan in Hnan. cbn [eqb binary64] in Hnan.
  apply negb_false_iff in Hnan.
  destruct statuses_distinct as (Hcw & Hch & Hcn & Hwh & Hwn & Hhn).
  unfold get_cell_status.
  destruct Htype as [-> | ->].
  - change (getitem CELL_TYPES "LFP")
      with (Ok (A:=cell_spec float)
              {| spec_name := "Lithium Iron Phosphate"; nominal_voltage := dec 32 1;
                 minimum_voltage := dec 28 1; maximum_voltage := dec 36 1;
                 charge_time := 90; discharge_time := 180 |}).
    cbn [mbind result_bind minimum_voltage maximum_voltage leb ltb mul binary64].
    destruct (PrimFloat.leb voltage _ || _); [congruence|].
    destruct (PrimFloat.leb voltage (PrimFloat.mul (dec 28 1) (dec 12 1))) eqn:Hwarn;
      [cbn; congruence|].
    assert (Hgap : PrimFloat.leb (PrimFloat.mul (dec 36 1) (dec 9 1))
                     (PrimFloat.mul (dec 28 1) (dec 12 1)) = true)
      by (vm_compute; reflexivity).
    remember (PrimFloat.mul (dec 36 1) (dec 9 1)) as high eqn:Hhigh.
    remember (PrimFloat.mul (dec 28 1) (dec 12 1)) as warn eqn:Hwarn'.
    rewrite (leb_above voltage warn high Hnan Hgap Hwarn).
    destruct (_ || _); congruence.
  - change (getitem CELL_TYPES "NMC")
      with (Ok (A:=cell_spec float)
              {| spec_name := "Nickel Manganese Cobalt"; nominal_voltage := dec 36 1;
                 minimum_voltage := dec 32 1; maximum_voltage := dec 40 1;
                 charge_time := 120; discharge_time := 240 |}).
    cbn [mbind result_bind minimum_voltage maximum_voltage leb ltb mul binary64].
    destruct (PrimFloat.leb voltage _ || _); [congruence|].
    destruct (PrimFloat.leb voltage (PrimFloat.mul (dec 32 1) (dec 12 1))) eqn:Hwarn;
      [cbn; congruence|].
    assert (Hgap : PrimFloat.leb (PrimFloat.mul (dec 40 1) (dec 9 1))
                     (PrimFloat.mul (dec 32 1) (dec 12 1)) = true)
      by (vm_compute; reflexivity).
    remember (PrimFloat.mul (dec 40 1) (dec 9 1)) as high eqn:Hhigh.
    remember (PrimFloat.mul (dec 32 1) (dec 12 1)) as warn eqn:Hwarn'.
    rewrite (leb_above voltage warn high Hnan Hgap Hwarn).
    destruct (_ || _); congruence.
Qed.

(** LFP at 3.5 V and 25 degrees is High; LCO, whose bounds are the other
    way round, is Normal at 3.7 V and 25 degrees. *)
Lemma normal_unreachable_lfp_nmc_witness :
  get_cell_status (N:=float) (dec 35 1) (dec 25 0) "LFP" ≠ Ok Normal
  ∧ get_cell_status (N:=float) (dec 35 1) (dec 25 0) "LFP" = Ok High
  ∧ get_cell_status (N:=float) (dec 37 1) (dec 25 0) "LCO" = Ok Normal.
Proof.
  split; [|split; vm_compute; reflexivity].
  apply normal_unreachable_lfp_nmc; [by left | vm_compute; reflexivity].
Defined.

(** ** The status pie chart and the alerts *)

Section Status.
Context {N : Type} `{Arith N}.

Lemma cell_color_known (c : cell N) :
  is_Some (CELL_TYPES (N:=N) !! cell_type c) →
  ∃ st, get_cell_status (cell_voltage c) (cell_temperature c) (cell_type c) = Ok st
        ∧ cell_color c = Some (st_color st)
        ∧ (st_color st = "critical" ∨ st_color st = "warning" ∨ st_color st = "normal").
Proof.
  intros Hknown. unfold cell_color.
  destruct (get_cell_status_known (cell_voltage c) (cell_temperature c) (cell_type c) Hknown)
    as (st & -> & [-> | [-> | [-> | ->]]]); eexists; (split; [done|]); split; cbn; auto.
Qed.

(** The loop of the pie chart adds to the three counters the number of
    cells of each colour. *)
Lemma count_status_loop (cells : list (cell N)) (n w c : Z) :
  (∀ x, x ∈ cells → is_Some (CELL_TYPES (N:=N) !! cell_type x)) →
  for_each cells count_status [("Normal", n); ("Warning", w); ("Critical", c)]
  = Ok [ ("Normal", n + Z.of_nat (length (filter (λ x, cell_color x = Some "normal") cells)));
         ("Warning", w + Z.of_nat (length (filter (λ x, cell_color x = Some "warning") cells)));
         ("Critical", c + Z.of_nat (length (filter (λ x, cell_color x = Some "critical") cells))) ].
Proof.
  revert n w c. induction cells as [|x cells IH]; intros n w c Hknown.
  - cbn. by rewrite !Z.add_0_r.
  - destruct (cell_color_known x) as (st & Hst & Hcolor & Hcases); [apply Hknown; by left|].
    assert (Hstep : ∀ counts, count_status counts x
      = if decide (st_color st = "critical") then increment "Critical" counts
        else if decide (st_color st = "warning") then increment "Warning" counts
        else increment "Normal" counts).
    { intros counts. unfold count_status. by rewrite Hst. }
    cbn [for_each]. rewrite Hstep.
    rewrite !filter_cons, Hcolor.
    destruct Hcases as [Hc|[Hc|Hc]]; rewrite Hc;
      repeat (case_decide; try done); cbn [increment];
      repeat (case_decide; try done); cbn [mbind result_bind];
      (rewrite IH by (intros; apply Hknown; by right));
      cbn [length]; f_equal;
      repeat (apply (f_equal2 (@cons _));
              [apply (f_equal2 (@pair _ _)); [reflexivity | lia] |]);
      reflexivity.
Qed.

Lemma sort_alert_loop (cells crit warn : list (cell N)) :
  (∀ x, x ∈ cells → is_Some (CELL_TYPES (N:=N) !! cell_type x)) →
  for_each cells sort_alert (crit, warn)
  = Ok (crit ++ filter (λ x, cell_color x = Some "critical") cells,
        warn ++ filter (λ x, cell_color x = Some "warning") cells).
Proof.
  revert crit warn. induction cells as [|x cells IH]; intros crit warn Hknown.
  - cbn. by rewrite !app_nil_r.
  - destruct (cell_color_known x) as (st & Hst & Hcolor & Hcases); [apply Hknown; by left|].
    assert (Hstep : sort_alert (crit, warn) x
      = if decide (st_color st = "critical") then Ok (crit ++ [x], warn)
        else if decide (st_color st = "warning") then Ok (crit, warn ++ [x])
        else Ok (crit, warn)).
    { unfold sort_alert. by rewrite Hst. }
    cbn [for_each]. rewrite Hstep.
    rewrite !filter_cons, Hcolor.
    destruct Hcases as [Hc|[Hc|Hc]]; rewrite Hc;
      repeat (case_decide; try done); cbn [mbind result_bind];
      (rewrite IH by (intros; apply Hknown; by right));
      by rewrite <- ?app_assoc.
Qed.

Lemma colors_partition (cells : list (cell N)) :
  (∀ x, x ∈ cells → is_Some (CELL_TYPES (N:=N) !! cell_type x)) →
  (length (filter (λ x, cell_color x = Some "normal") cells)
   + length (filter (λ x, cell_color x = Some "warning") cells)
   + length (filter (λ x, cell_color x = Some "critical") cells))%nat
  = length cells.
Proof.
  induction cells as [|x cells IH]; intros Hknown; [done|].
  destruct (cell_color_known x) as (st & _ & Hcolor & Hcases); [apply Hknown; by left|].
  specialize (IH (λ y Hy, Hknown y (list_elem_of_further _ _ _ Hy))).
  rewrite !filter_cons, Hcolor.
  destruct Hcases as [Hc|[Hc|Hc]]; rewrite Hc;
    repeat (case_decide; try done); cbn [length]; lia.
Qed.

End Status.

(** X5: for cells of known chemistries the pie chart and the alerts agree:
    the Critical and Warning slices count the cells of the critical and
    warning alert lists, which are the cells of that colour in cell order,
    and the Normal slice counts all the other cells, those of status High
    as well as those of status Normal. *)
Theorem pie_chart_counts_alerts {N} `{Arith N} (cells : list (cell N)) :
  cells ≠ [] →
  (∀ x, x ∈ cells → is_Some (CELL_TYPES (N:=N) !! cell_type x)) →
  ∃ fig critical_cells warning_cells,
    create_status_pie_chart cells = Ok fig
    ∧ alert_cells cells = Ok (critical_cells, warning_cells)
    ∧ critical_cells = filter (λ x, cell_color x = Some "critical") cells
    ∧ warning_cells = filter (λ x, cell_color x = Some "warning") cells
    ∧ pie_labels <$> pie_data fig = [ ["Normal"; "Warning"; "Critical"] ]
    ∧ pie_values <$> pie_data fig
      = [ [ Z.of_nat (length cells) - Z.of_nat (length warning_cells)
              - Z.of_nat (length critical_cells);
            Z.of_nat (length warning_cells);
            Z.of_nat (length critical_cells) ] ].
Proof.
  intros Hne Hknown. unfold create_status_pie_chart, alert_cells.
  destruct cells as [|x xs]; [done|]. cbn beta iota.
  set (cells := x :: xs) in *.
  rewrite count_status_loop, sort_alert_loop by done.
  eexists _, _, _. repeat split; try reflexivity.
  cbn [pie_data pie_values fmap list_fmap snd app].
  pose proof (colors_partition cells Hknown) as Hpart.
  do 2 f_equal. lia.
Qed.

(** [mixed_cells] in binary64: one Critical, one Warning, one High and two
    Normal cells give the slices 3, 1, 1. *)
Lemma pie_chart_counts_alerts_witness :
  ∃ fig, create_status_pie_chart (N:=float) mixed_cells = Ok fig
    ∧ pie_values <$> pie_data fig = [ [3; 1; 1] ]
    ∧ (λ lists : list (cell float) * list (cell float),
         (cell_name <$> lists.1, cell_name <$> lists.2))
        <$> alert_cells (N:=float) mixed_cells
      = Ok (["Cell_1"], ["Cell_3"]).
Proof.
  destruct (pie_chart_counts_alerts (N:=float) mixed_cells) as
    (fig & crit & warn & Hfig & Halert & -> & -> & _ & Hvalues).
  - done.
  - intros x Hx. unfold mixed_cells in Hx.
    repeat (apply elem_of_cons in Hx as [->|Hx]; [by eexists|]).
    by apply elem_of_nil in Hx.
  - exists fig. split; [exact Hfig|]. split.
    + rewrite Hvalues. vm_compute. reflexivity.
    + rewrite Halert. vm_compute. reflexivity.
Defined.

(** ** The handlers *)

Section HandlerFacts.
Context {N : Type} `{Arith N}.

Implicit Types st : session_state (N:=N).

Lemma generate_cells_unfold num_cells default_cell_type random now :
  generate_cells (N:=N) num_cells default_cell_type random now
  = (_ ← modify (set_cells_data (λ _, []));
     _ ← for_each_do (seq 0 num_cells)
           (generate_cell_at default_cell_type random now);
     mret [success ("Generated " +:+ pretty (Z.of_nat num_cells)
                     +:+ " cells successfully!")]).
Proof. reflexivity. Qed.

Lemma update_data_unfold random now st :
  update_data (N:=N) random now st
  = match cells_data st with
    | [] => (st, Ok [])
    | _ :: _ =>
        match for_each_do (imap pair (cells_data st)) (update_cell_at random now) st with
        | (st', Ok _) =>
            (set_session_data (λ log, log ++ [
               {| point_timestamp := now (length (cells_data st'));
                  point_cells := cells_data st';
                  point_tasks := tasks_data st' |} ]) st',
             Ok [success "Data updated!"])
        | (st', Raise e) => (st', Raise e)
        end
    end.
Proof.
  unfold update_data, get. unfold mbind at 1. unfold script_bind at 1. cbn beta iota.
  destruct (cells_data st) as [|l ls]; [done|].
  unfold mbind at 1. unfold script_bind at 1.
  change (λ '(i, l0), st0 ← (λ st0, (st0, Ok st0));
            match store st0 !! l0 with
            | Some cell0 =>
                new_data ← lift (generate_at (cell_type cell0) random now i);
                modify (set_store <[l0:=cell_update cell0 new_data]>)
            | None => mret ()
            end) with (update_cell_at random now).
  by destruct (for_each_do _ _ st) as [st' [[]|e]].
Qed.

(** A property that every step of a loop keeps holds after the loop,
    whether it ends or raises. *)
Lemma for_each_do_inv {A} (P : session_state (N:=N) → Prop) (xs : list A)
    (body : A → script (N:=N) ()) st :
  P st → (∀ x st', x ∈ xs → P st' → P (body x st').1) →
  P (for_each_do xs body st).1.
Proof.
  revert st. induction xs as [|x xs IH]; intros st HP Hbody; [done|].
  cbn. unfold mbind, script_bind.
  pose proof (Hbody x st (list_elem_of_here _ _) HP) as Hx.
  destruct (body x st) as [st' [[]|e]]; cbn in *; [|done].
  apply IH; [done|]. intros y st'' Hy. apply Hbody. by right.
Qed.

Lemma generate_at_Ok cell_type random now i :
  is_Some (CELL_TYPES (N:=N) !! cell_type) →
  ∃ d, generate_at cell_type random now i = Ok d.
Proof.
  intros [specs Hspecs]. unfold generate_at, generate_cell_data.
  rewrite (getitem_Some _ _ _ Hspecs). by eexists.
Qed.

Lemma generate_at_Raise cell_type random now i :
  CELL_TYPES (N:=N) !! cell_type = None →
  generate_at cell_type random now i = Raise (KeyError cell_type).
Proof.
  intros Hnone. unfold generate_at, generate_cell_data, getitem. by rewrite Hnone.
Qed.

Lemma generate_at_known cell_type random now i d :
  generate_at cell_type random now i = Ok d →
  is_Some (CELL_TYPES (N:=N) !! cell_type).
Proof.
  destruct (CELL_TYPES (N:=N) !! cell_type) eqn:Hspecs; [by eexists|].
  by rewrite generate_at_Raise.
Qed.

Lemma fresh_loc_None st : store st !! fresh (dom (store st)) = None.
Proof. apply not_elem_of_dom. apply is_fresh. Qed.

(** One step of the loop of [generate_cells]: nothing on an exception,
    else a new cell at a location the store did not hold. *)
Lemma generate_cell_at_step ty random now i st :
  (generate_cell_at ty random now i st = (st, Raise (KeyError ty))
   ∧ CELL_TYPES (N:=N) !! ty = None)
  ∨ (∃ d, generate_at ty random now i = Ok d
      ∧ generate_cell_at ty random now i st
        = (set_cells_data (λ cells, cells ++ [fresh (dom (store st))])
             (set_store (insert (fresh (dom (store st)))
                (new_cell d (Z.of_nat i + 1) ("Cell_" +:+ pretty (Z.of_nat i + 1)) ty))
                st),
           Ok ())).
Proof.
  unfold generate_cell_at, lift, get, modify, mbind, script_bind.
  destruct (CELL_TYPES (N:=N) !! ty) eqn:Hspecs.
  - right. destruct (generate_at_Ok ty random now i) as [d Hd]; [by eexists|].
    exists d. by rewrite Hd.
  - left. by rewrite generate_at_Raise.
Qed.

(** One step of the loop of [update_data]: the store changes at most at
    the location of the step, where a cell stays a cell of the same
    identity and chemistry. *)
Lemma update_cell_at_step random now i l st :
  let st' := (update_cell_at random now (i, l) st).1 in
  cells_data st' = cells_data st
  ∧ tasks_data st' = tasks_data st
  ∧ session_data st' = session_data st
  ∧ (∀ l', l' ≠ l → store st' !! l' = store st !! l')
  ∧ (store st !! l = None → store st' !! l = None)
  ∧ (∀ c, store st !! l = Some c →
       ∃ c', store st' !! l = Some c' ∧ cell_id c' = cell_id c
             ∧ cell_name c' = cell_name c ∧ cell_type c' = cell_type c).
Proof.
  unfold update_cell_at, lift, get, modify, mbind, script_bind. cbn.
  destruct (store st !! l) as [c|] eqn:Hl; cbn.
  - destruct (generate_at (cell_type c) random now i) as [d|e]; cbn.
    + repeat split; try done.
      * intros l' Hl'. by rewrite lookup_insert_ne.
      * intros c0 [= <-]. rewrite lookup_insert_eq. by eexists.
    + rewrite Hl. repeat split; try done. intros c0 [= <-]. by eexists.
  - rewrite Hl. repeat split; done.
Qed.

End HandlerFacts.

Section Invariant.
Context {N : Type} `{Arith N}.

Implicit Types st : session_state (N:=N).

Lemma generating_step st0 st ty random now i :
  generating st0 st → generating st0 (generate_cell_at ty random now i st).1.
Proof.
  intros (Hext & Hcells & Hnodup & Htypes & Hlog & Htasks).
  destruct (generate_cell_at_step ty random now i st) as [[-> _] | (d & Hd & ->)];
    [done|].
  pose proof (fresh_loc_None st) as Hfresh.
  set (lf := fresh (dom (store st))) in *.
  split; [|split; [|split; [|split; [|split]]]]; cbn.
  - intros l0 c Hl0. rewrite lookup_insert_ne; [by apply Hext|].
    intros <-. apply Hext in Hl0. congruence.
  - intros l0 [Hl0 | ->%list_elem_of_singleton]%elem_of_app.
    + split; [|by apply Hcells].
      rewrite lookup_insert_ne; [by apply Hcells|].
      intros <-. apply Hcells in Hl0 as [[c Hc] _]. congruence.
    + split; [rewrite lookup_insert_eq; by eexists|].
      destruct (store st0 !! lf) as [c|] eqn:Hc; [|done].
      apply Hext in Hc. congruence.
  - apply NoDup_app. repeat split; [done| |apply NoDup_singleton].
    intros l0 Hl0 ->%list_elem_of_singleton.
    apply Hcells in Hl0 as [[c Hc] _]. congruence.
  - intros l0 c. destruct (decide (l0 = lf)) as [->|Hne].
    + rewrite lookup_insert_eq. intros [= <-]. cbn. by eapply generate_at_known.
    + rewrite lookup_insert_ne by done. apply Htypes.
  - done.
  - done.
Qed.

Lemma generate_cells_generating num_cells ty random now st :
  (∀ l c, store st !! l = Some c → is_Some (CELL_TYPES (N:=N) !! cell_type c)) →
  generating st (generate_cells num_cells ty random now st).1.
Proof.
  intros Htypes. rewrite generate_cells_unfold.
  unfold mbind at 1. unfold script_bind at 1. unfold modify at 1. cbn beta iota.
  set (st0 := set_cells_data (λ _, []) st).
  assert (Hloop : generating st
            (for_each_do (seq 0 num_cells) (generate_cell_at ty random now) st0).1).
  { apply for_each_do_inv.
    - split; [|split; [|split; [|split; [|split]]]]; cbn; try done.
      + by intros l Hl%elem_of_nil.
      + apply NoDup_nil_2.
    - intros i st' _. apply generating_step. }
  unfold mbind, script_bind.
  by destruct (for_each_do _ _ st0) as [st' [[]|e]].
Qed.

Lemma generate_cells_well_formed num_cells ty random now st :
  well_formed st → well_formed (generate_cells num_cells ty random now st).1.
Proof.
  intros [Hcells Hnodup Hlogc Hlogn Htypes Htasks Hlogt].
  destruct (generate_cells_generating num_cells ty random now st Htypes)
    as (Hext & Hnew & Hnodup' & Htypes' & Hlog & Htasks').
  split; try done.
  - intros l Hl. by apply Hnew.
  - intros p l. rewrite Hlog. intros Hp Hl.
    destruct (Hlogc p l Hp Hl) as [c Hc]. exists c. by apply Hext.
  - intros p. rewrite Hlog. apply Hlogn.
  - intros t. rewrite Htasks'. apply Htasks.
  - intros p t. rewrite Hlog. apply Hlogt.
Qed.

Lemma updating_step st0 st random now il :
  updating st0 st → updating st0 (update_cell_at random now il st).1.
Proof.
  destruct il as [i l]. intros (Hcells & Htasks & Hlog & Hdom & Htypes).
  destruct (update_cell_at_step random now i l st)
    as (Hcells' & Htasks' & Hlog' & Hother & Hnone & Hsome).
  split; [|split; [|split; [|split]]]; try congruence.
  - intros l0. rewrite <- Hdom. destruct (decide (l0 = l)) as [->|Hne].
    + split.
      * intros Hl0. destruct (store st !! l) as [c|] eqn:Hc; [by eexists|].
        rewrite Hnone in Hl0 by done. by destruct Hl0.
      * intros [c Hc]. destruct (Hsome c Hc) as (c' & -> & _). by eexists.
    + by rewrite Hother.
  - intros l0 c Hc. destruct (decide (l0 = l)) as [->|Hne].
    + destruct (store st !! l) as [c0|] eqn:Hc0.
      * destruct (Hsome c0 eq_refl) as (c' & Hc' & _ & _ & Htype).
        rewrite Hc in Hc'. injection Hc' as <-. rewrite Htype. by eapply Htypes.
      * rewrite Hnone in Hc by done. done.
    + rewrite Hother in Hc by done. by eapply Htypes.
Qed.

Lemma update_loop_updating random now st (ils : list (nat * loc)) :
  (∀ l c, store st !! l = Some c → is_Some (CELL_TYPES (N:=N) !! cell_type c)) →
  updating st (for_each_do ils (update_cell_at random now) st).1.
Proof.
  intros Htypes. apply for_each_do_inv.
  - split; [|split; [|split; [|split]]]; done.
  - intros il st' _. apply updating_step.
Qed.

Lemma update_data_well_formed random now st :
  well_formed st → well_formed (update_data random now st).1.
Proof.
  intros Hwf. pose proof Hwf as [Hcells Hnodup Hlogc Hlogn Htypes Htasks Hlogt].
  rewrite update_data_unfold.
  destruct (cells_data st) as [|l ls] eqn:Hcd; [done|].
  pose proof (update_loop_updating random now st (imap pair (l :: ls)) Htypes)
    as (Hcells' & Htasks' & Hlog' & Hdom & Htypes').
  destruct (for_each_do _ _ st) as [st' [[]|e]]; cbn in *.
  - split; cbn; try done.
    + intros l0 Hl0. apply Hdom, Hcells. congruence.
    + congruence.
    + intros p l0 [Hp | ->%list_elem_of_singleton]%elem_of_app Hl0; apply Hdom.
      * rewrite Hlog' in Hp. by eapply Hlogc.
      * cbn in Hl0. apply Hcells. congruence.
    + intros p [Hp | ->%list_elem_of_singleton]%elem_of_app.
      * rewrite Hlog' in Hp. by apply Hlogn.
      * cbn. by rewrite Hcells', Hcd.
    + intros t. rewrite Htasks'. apply Htasks.
    + intros p t [Hp | ->%list_elem_of_singleton]%elem_of_app Ht.
      * rewrite Hlog' in Hp. by eapply Hlogt.
      * cbn in Ht. rewrite Htasks' in Ht. by apply Htasks.
  - split; try done.
    + intros l0 Hl0. apply Hdom, Hcells. congruence.
    + congruence.
    + intros p l0. rewrite Hlog'. intros Hp Hl0. apply Hdom. by eapply Hlogc.
    + intros p. rewrite Hlog'. apply Hlogn.
    + intros t. rewrite Htasks'. apply Htasks.
    + intros p t. rewrite Hlog'. apply Hlogt.
Qed.

Lemma configure_tasks_well_formed forms st :
  well_formed st → well_formed (configure_tasks forms st).1.
Proof.
  intros [Hcells Hnodup Hlogc Hlogn Htypes Htasks Hlogt].
  split; try done. cbn.
  intros t (i & f & -> & _)%elem_of_lookup_imap. done.
Qed.

Lemma press_well_formed (a : action N) st :
  well_formed st → well_formed (press a st).1.
Proof.
  intros Hwf. destruct a as [n ty random now|forms|random now| |]; cbn [press].
  - by apply generate_cells_well_formed.
  - by apply configure_tasks_well_formed.
  - by apply update_data_well_formed.
  - unfold start_monitoring, get, modify, mbind, script_bind. cbn.
    destruct (monitoring_active st); [done|]. by destruct Hwf.
  - unfold pause_monitoring, get, modify, mbind, script_bind. cbn.
    destruct (monitoring_active st); [|done]. by destruct Hwf.
Qed.

Lemma run_from_well_formed (actions : list (action N)) st :
  well_formed st → well_formed (run_from st actions).
Proof.
  revert st. induction actions as [|a actions IH]; intros st Hwf; [done|].
  cbn. apply IH. by apply press_well_formed.
Qed.

Lemma run_well_formed (actions : list (action N)) : well_formed (run actions).
Proof.
  apply run_from_well_formed. split; cbn; try done.
  - by intros l Hl%elem_of_nil.
  - apply NoDup_nil_2.
  - by intros p l Hp%elem_of_nil.
  - by intros p Hp%elem_of_nil.
  - by intros t Ht%elem_of_nil.
  - by intros p t Hp%elem_of_nil.
Qed.

End Invariant.

(** ** The log the handlers record *)

Section RecordedLog.
Context {N : Type} `{Arith N}.

Implicit Types st : session_state (N:=N).

Lemma omap_lookup_length (σ : gmap loc (cell N)) (ls : list loc) :
  (∀ l, l ∈ ls → is_Some (σ !! l)) →
  length (omap (λ l, σ !! l) ls) = length ls.
Proof.
  induction ls as [|l ls IH]; intros Hall; [done|].
  cbn. destruct (Hall l) as [c ->]; [by left|]. cbn.
  rewrite IH; [done|]. intros l' Hl'. apply Hall. by right.
Qed.

Lemma elem_of_omap_lookup (σ : gmap loc (cell N)) (ls : list loc) (c : cell N) :
  c ∈ omap (λ l, σ !! l) ls → ∃ l, l ∈ ls ∧ σ !! l = Some c.
Proof. intros (l & Hl & Hc)%list_elem_of_omap. eauto. Qed.

Lemma read_log_known st : well_formed st → known_chemistries (read_log st).
Proof.
  intros Hwf s c (p & -> & Hp)%list_elem_of_fmap Hc.
  apply elem_of_omap_lookup in Hc as (l & _ & Hc). by eapply wf_types.
Qed.

Lemma read_log_cells_length st :
  well_formed st →
  length ∘ snap_cells <$> read_log st = length ∘ point_cells <$> session_data st.
Proof.
  intros Hwf. unfold read_log. rewrite <- list_fmap_compose.
  apply list_fmap_ext. intros i p Hp. cbn.
  apply omap_lookup_length. intros l Hl.
  eapply wf_log_cells; [done| |done]. by eapply list_elem_of_lookup_2.
Qed.

Lemma pairs_read_log_tasks st (q : snapshot N * cell N) :
  well_formed st → q ∈ pairs (read_log st) →
  ∀ t, t ∈ default [] (snap_tasks q.1) → task_status t = Some "pending".
Proof.
  intros Hwf Hq t Ht. unfold pairs in Hq.
  apply list_elem_of_bind in Hq as (s & Hq & Hs).
  apply list_elem_of_fmap in Hq as (c & -> & _). cbn in Ht.
  apply list_elem_of_fmap in Hs as (p & -> & Hp). cbn in Ht.
  by eapply wf_log_tasks.
Qed.

End RecordedLog.

(** X6: the log that any sequence of sidebar actions records can always
    be exported: the exporter raises no exception, returns as many rows as
    the log holds cell entries, and, since every task is created pending
    and no handler changes a task, every row has the active task ["None"]
    and the progress 0. *)
Theorem export_of_recorded_log {N} `{Arith N} (actions : list (action N))
    (cells_data : list (cell N)) (tasks_data : list (task N)) :
  ∃ rows,
    export_to_csv (read_log (run actions)) cells_data tasks_data = Ok rows
    ∧ length rows = sum_list (length ∘ point_cells <$> session_data (run actions))
    ∧ Forall (λ r, row_active_task r = "None" ∧ row_task_progress r = 0) rows.
Proof.
  pose proof (run_well_formed actions) as Hwf.
  destruct (export_to_csv_spec (read_log (run actions)) cells_data tasks_data)
    as (rows & Hrows & Hall); [by apply read_log_known|].
  exists rows. split; [done|]. split.
  - rewrite <- (Forall2_length _ _ _ Hall), <- read_log_cells_length by done.
    unfold pairs. generalize (read_log (run actions)). clear.
    induction l as [|s ss IH]; [done|].
    cbn. rewrite length_app, length_fmap. by rewrite <- IH.
  - assert (Hpending : ∀ q, q ∈ pairs (read_log (run actions)) →
      ∀ t, t ∈ default [] (snap_tasks q.1) → task_status t = Some "pending")
      by (intros q; by apply pairs_read_log_tasks).
    clear Hrows. induction Hall as [|q r qs rows [_ Hr] _ IH]; constructor.
    + destruct Hr as [(i & t & Hi & Hrunning & _)|(_ & ? & ?)]; [|done].
      apply list_elem_of_lookup_2 in Hi.
      rewrite (Hpending q (list_elem_of_here _ _) t Hi) in Hrunning. done.
    + apply IH. intros q' Hq'. apply Hpending. by right.
Qed.

(** X7: every snapshot of a recorded log holds at least one reading, so
    the summary of a recorded log that is not empty is made of four
    rounded means, never of the zeros of the empty case. *)
Theorem recorded_snapshots_hold_readings {N} `{Arith N} (actions : list (action N)) :
  Forall (λ s, snap_cells s ≠ []) (read_log (run actions))
  ∧ (session_data (run actions) = []
     ∨ ∃ v t s c,
         calculate_session_averages (Snapshot <$> read_log (run actions))
         = Ok {| avg_voltage := PyFloat v; avg_temperature := PyFloat t;
                 avg_soc := PyFloat s; avg_capacity := PyFloat c |}).
Proof.
  pose proof (run_well_formed actions) as Hwf.
  assert (Hall : Forall (λ s, snap_cells s ≠ []) (read_log (run actions))).
  { apply Forall_forall. intros s (p & -> & Hp)%list_elem_of_fmap. cbn.
    intros Hnil. apply (f_equal length) in Hnil.
    rewrite omap_lookup_length in Hnil by (intros l Hl; by eapply wf_log_cells).
    apply (wf_log_nonempty _ Hwf p Hp). by destruct (point_cells p). }
  split; [done|].
  unfold read_log in *. destruct (session_data (run actions)) as [|p ps]; [by left|].
  right. rewrite averages_of_snapshots.
  apply Forall_cons in Hall as [Hp _]. cbn in *.
  destruct (omap _ (point_cells p)) as [|c cs]; [done|].
  cbn. by eexists _, _, _, _.
Qed.

(** ** Update Data on a recorded state *)

Section UpdateData.
Context {N : Type} `{Arith N}.

Implicit Types st : session_state (N:=N).

Lemma snd_imap_pair {A} (xs : list A) : (imap pair xs).*2 = xs.
Proof.
  apply list_eq. intros i. rewrite list_lookup_fmap, list_lookup_imap.
  by destruct (xs !! i).
Qed.

Lemma elem_of_imap_pair {A} (xs : list A) (i : nat) (x : A) :
  (i, x) ∈ imap pair xs ↔ xs !! i = Some x.
Proof.
  rewrite elem_of_lookup_imap. split.
  - by intros (j & y & [= -> ->] & Hy).
  - intros Hx. by exists i, x.
Qed.

(** The loop of [update_data] over distinct locations of cells of known
    chemistries ends without an exception, and has replaced the reading
    of each of these cells by the one generated for its chemistry, with
    the draws of its index. *)
Lemma update_loop random now (ils : list (nat * loc)) st :
  NoDup ils.*2 →
  (∀ i l, (i, l) ∈ ils →
     ∃ c, store st !! l = Some c ∧ is_Some (CELL_TYPES (N:=N) !! cell_type c)) →
  ∃ st', for_each_do ils (update_cell_at random now) st = (st', Ok ())
    ∧ cells_data st' = cells_data st
    ∧ tasks_data st' = tasks_data st
    ∧ session_data st' = session_data st
    ∧ (∀ l, l ∉ ils.*2 → store st' !! l = store st !! l)
    ∧ (∀ i l, (i, l) ∈ ils →
         ∃ c d, store st !! l = Some c
                ∧ generate_at (cell_type c) random now i = Ok d
                ∧ store st' !! l = Some (cell_update c d)).
Proof.
  revert st. induction ils as [|[i l] ils IH]; intros st Hnodup Hcells.
  - exists st. repeat split; try done. by intros i l Hil%elem_of_nil.
  - apply NoDup_cons in Hnodup as [Hl Hnodup].
    destruct (Hcells i l) as (c & Hc & Hknown); [by left|].
    destruct (generate_at_Ok (cell_type c) random now i Hknown) as [d Hd].
    set (st1 := set_store (insert l (cell_update c d)) st).
    assert (Hstep : update_cell_at random now (i, l) st = (st1, Ok ())).
    { unfold update_cell_at, get, lift, modify, mbind, script_bind.
      by rewrite Hc, Hd. }
    destruct (IH st1 Hnodup) as (st' & Hrun & Hcd & Htd & Hsd & Hother & Hnew).
    { intros i' l' Hil'. destruct (Hcells i' l') as (c' & Hc' & Hknown'); [by right|].
      exists c'. split; [|done]. cbn. rewrite lookup_insert_ne; [done|].
      intros <-. apply Hl. apply list_elem_of_fmap. by exists (i', l). }
    exists st'. split; [|split; [|split; [|split; [|split]]]]; try done.
    + cbn [for_each_do]. unfold mbind, script_bind. by rewrite Hstep.
    + intros l0 [Hne Hl0]%not_elem_of_cons.
      rewrite Hother by done. cbn. by rewrite lookup_insert_ne.
    + intros i' l' [[= -> ->]|Hil']%elem_of_cons.
      * exists c, d. repeat split; [done..|].
        rewrite Hother by done. cbn. by rewrite lookup_insert_eq.
      * destruct (Hnew i' l' Hil') as (c' & d' & Hc' & Hd' & Hst').
        exists c', d'. repeat split; [|done..].
        cbn in Hc'. rewrite lookup_insert_ne in Hc'; [done|].
        intros <-. apply Hl. apply list_elem_of_fmap. by exists (i', l).
Qed.

Lemma update_loop_well_formed random now st :
  well_formed st →
  ∃ st', for_each_do (imap pair (cells_data st)) (update_cell_at random now) st
         = (st', Ok ())
    ∧ cells_data st' = cells_data st
    ∧ tasks_data st' = tasks_data st
    ∧ session_data st' = session_data st
    ∧ (∀ l, l ∉ cells_data st → store st' !! l = store st !! l)
    ∧ (∀ i l, cells_data st !! i = Some l →
         ∃ c d, store st !! l = Some c
                ∧ generate_at (cell_type c) random now i = Ok d
                ∧ store st' !! l = Some (cell_update c d)).
Proof.
  intros Hwf.
  destruct (update_loop random now (imap pair (cells_data st)) st)
    as (st' & Hrun & Hcd & Htd & Hsd & Hother & Hnew).
  - rewrite snd_imap_pair. by apply wf_nodup.
  - intros i l Hil%elem_of_imap_pair.
    destruct (wf_cells _ Hwf l) as [c Hc]; [by eapply list_elem_of_lookup_2|].
    exists c. split; [done|]. by eapply wf_types.
  - exists st'. rewrite snd_imap_pair in Hother.
    repeat split; try done. intros i l Hil. by apply Hnew, elem_of_imap_pair.
Qed.

End UpdateData.

(** X8: in a state reached by sidebar actions "Update Data" never raises:
    without cells it changes nothing and shows nothing; with cells it
    shows its message and appends exactly one element to the log, which
    holds the list of cells, the list of tasks and the time read after the
    cells were refreshed. *)
Theorem update_data_records_one_snapshot {N} `{Arith N} (actions : list (action N))
    (random : nat → N) (now : nat → Z) :
  let st := run actions in
  (cells_data st = [] ∧ update_data random now st = (st, Ok []))
  ∨ (cells_data st ≠ []
     ∧ ∃ st', update_data random now st = (st', Ok [success "Data updated!"])
         ∧ session_data st'
           = session_data st
             ++ [ {| point_timestamp := now (length (cells_data st));
                     point_cells := cells_data st;
                     point_tasks := tasks_data st |} ]
         ∧ cells_data st' = cells_data st
         ∧ tasks_data st' = tasks_data st).
Proof.
  intros st. pose proof (run_well_formed actions) as Hwf. fold st in Hwf.
  rewrite update_data_unfold.
  destruct (update_loop_well_formed random now st Hwf)
    as (st' & Hrun & Hcd & Htd & Hsd & _).
  destruct (cells_data st) as [|l ls] eqn:Hcells; [by left|].
  right. split; [done|]. rewrite Hrun.
  eexists. split; [reflexivity|]. cbn. by rewrite Hcd, Htd, Hsd.
Qed.

(** X9: in a state reached by sidebar actions, "Update Data" gives the
    cell of index [i] the reading generated for the chemistry of that
    cell, from the draws and the time of index [i], and keeps its id, name
    and chemistry. *)
Theorem update_data_refreshes_every_cell {N} `{Arith N} (actions : list (action N))
    (random : nat → N) (now : nat → Z) (i : nat) (l : loc) :
  cells_data (run actions) !! i = Some l →
  ∃ c d, store (run actions) !! l = Some c
    ∧ generate_at (cell_type c) random now i = Ok d
    ∧ store (update_data random now (run actions)).1 !! l = Some (cell_update c d)
    ∧ cell_id (cell_update c d) = cell_id c
    ∧ cell_name (cell_update c d) = cell_name c
    ∧ cell_type (cell_update c d) = cell_type c.
Proof.
  intros Hl. pose proof (run_well_formed actions) as Hwf.
  rewrite update_data_unfold.
  destruct (update_loop_well_formed random now (run actions) Hwf)
    as (st' & Hrun & _ & _ & _ & _ & Hnew).
  destruct (Hnew i l Hl) as (c & d & Hc & Hd & Hst').
  exists c, d. repeat split; try done.
  destruct (cells_data (run actions)) as [|l0 ls]; [done|].
  by rewrite Hrun.
Qed.

(** After three LFP cells are generated, "Update Data" with the draw 0.5
    gives the second cell, at location 1, the reading generated at
    index 1. *)
Lemma update_data_refreshes_every_cell_witness :
  cells_data (run (take 1 sample_actions)) !! 1%nat = Some 1%nat
  ∧ ∃ c d, store (run (take 1 sample_actions)) !! 1%nat = Some c
    ∧ generate_at (cell_type c) (λ _, dec 5 1) (λ _, 10) 1 = Ok d
    ∧ store (update_data (λ _, dec 5 1) (λ _, 10) (run (take 1 sample_actions))).1 !! 1%nat
      = Some (cell_update c d).
Proof.
  assert (Hl : cells_data (run (take 1 sample_actions)) !! 1%nat = Some 1%nat)
    by (vm_compute; reflexivity).
  split; [exact Hl|].
  destruct (update_data_refreshes_every_cell (N:=float) (take 1 sample_actions)
              (λ _, dec 5 1) (λ _, 10) 1 1 Hl) as (c & d & Hc & Hd & Hst & _).
  by exists c, d.
Defined.

(** ** When a recorded snapshot changes and when it does not *)

Section Sharing.
Context {N : Type} `{Arith N}.

Implicit Types st : session_state (N:=N).

(** The loop of [update_data] keeps the lists and writes the store only
    at the locations it is given. *)
Lemma update_loop_frame random now (ils : list (nat * loc)) st :
  let st' := (for_each_do ils (update_cell_at random now) st).1 in
  cells_data st' = cells_data st
  ∧ tasks_data st' = tasks_data st
  ∧ session_data st' = session_data st
  ∧ ∀ l, l ∉ ils.*2 → store st' !! l = store st !! l.
Proof.
  apply (for_each_do_inv (λ st', cells_data st' = cells_data st
    ∧ tasks_data st' = tasks_data st ∧ session_data st' = session_data st
    ∧ ∀ l, l ∉ ils.*2 → store st' !! l = store st !! l)); [done|].
  intros [i l] st' Hil (Hcd & Htd & Hsd & Hstore).
  destruct (update_cell_at_step random now i l st')
    as (Hcd' & Htd' & Hsd' & Hother & _).
  repeat split; try congruence.
  intros l0 Hl0. rewrite Hother, Hstore; [done..|].
  intros ->. apply Hl0. apply list_elem_of_fmap. by exists (i, l).
Qed.

Lemma update_data_frame random now st :
  let st' := (update_data random now st).1 in
  cells_data st' = cells_data st
  ∧ tasks_data st' = tasks_data st
  ∧ (∀ l, l ∉ cells_data st → store st' !! l = store st !! l)
  ∧ ∃ new, session_data st' = session_data st ++ new
           ∧ Forall (λ p, point_cells p = cells_data st) new.
Proof.
  rewrite update_data_unfold.
  destruct (cells_data st) as [|l ls] eqn:Hcells.
  { cbn. rewrite Hcells. repeat split; try done.
    exists []. by rewrite app_nil_r. }
  pose proof (update_loop_frame random now (imap pair (l :: ls)) st)
    as (Hcd & Htd & Hsd & Hstore).
  rewrite snd_imap_pair in Hstore.
  destruct (for_each_do _ _ st) as [st' [[]|e]]; cbn in *.
  - rewrite Hcd, Htd, Hsd, Hcells. repeat split; try done.
    eexists. split; [done|]. by repeat constructor.
  - rewrite Hcd, Htd, Hsd, Hcells. repeat split; try done.
    exists []. by rewrite app_nil_r.
Qed.

(** An action other than "Generate Cells" keeps the list of cells, and
    what it appends to the log holds that list. *)
Lemma press_keeps_cells (a : action N) st :
  is_generate a = false →
  cells_data (press a st).1 = cells_data st
  ∧ ∃ new, session_data (press a st).1 = session_data st ++ new
           ∧ Forall (λ p, point_cells p = cells_data st) new.
Proof.
  destruct a as [n ty random now|forms|random now| |]; intros Hgen; try done;
    cbn [press].
  - split; [done|]. exists []. by rewrite app_nil_r.
  - destruct (update_data_frame random now st) as (Hcd & _ & _ & Hnew). done.
  - unfold start_monitoring, get, modify, mbind, script_bind. cbn.
    destruct (monitoring_active st); (split; [done|]); exists []; by rewrite app_nil_r.
  - unfold pause_monitoring, get, modify, mbind, script_bind. cbn.
    destruct (monitoring_active st); (split; [done|]); exists []; by rewrite app_nil_r.
Qed.

Lemma run_from_cons (a : action N) (actions : list (action N)) st :
  run_from st (a :: actions) = run_from (press a st).1 actions.
Proof. reflexivity. Qed.

Lemma run_from_app (actions1 actions2 : list (action N)) st :
  run_from st (actions1 ++ actions2) = run_from (run_from st actions1) actions2.
Proof. apply foldl_app. Qed.

Lemma run_from_keeps_cells (actions : list (action N)) st :
  Forall (λ a, is_generate a = false) actions →
  cells_data (run_from st actions) = cells_data st
  ∧ ∃ new, session_data (run_from st actions) = session_data st ++ new
           ∧ Forall (λ p, point_cells p = cells_data st) new.
Proof.
  intros Hall. revert st. induction Hall as [|a actions Ha _ IH]; intros st.
  - split; [done|]. exists []. by rewrite app_nil_r.
  - rewrite run_from_cons. destruct (press_keeps_cells a st Ha) as (Hcd & new1 & Hlog1 & Hnew1).
    destruct (IH (press a st).1) as (Hcd' & new2 & Hlog2 & Hnew2).
    split; [congruence|]. exists (new1 ++ new2).
    rewrite Hlog2, Hlog1, app_assoc. split; [done|].
    apply Forall_app. split; [done|]. by rewrite <- Hcd.
Qed.

Lemma omap_lookup_ext (σ1 σ2 : gmap loc (cell N)) (ls : list loc) :
  (∀ l, l ∈ ls → σ1 !! l = σ2 !! l) →
  omap (λ l, σ1 !! l) ls = omap (λ l, σ2 !! l) ls.
Proof.
  induction ls as [|l ls IH]; intros Hext; [done|].
  cbn. rewrite Hext by left. rewrite IH; [done|].
  intros l' Hl'. apply Hext. by right.
Qed.

Lemma detached_step (p : point (N:=N)) st st' :
  detached p st → well_formed st' →
  (∀ l, l ∈ point_cells p → store st' !! l = store st !! l) →
  (∀ l, l ∈ point_cells p → l ∉ cells_data st') →
  detached p st'
  ∧ ∀ l, l ∈ point_cells p → store st' !! l = store st !! l.
Proof.
  intros (Hwf & Hin & Hout) Hwf' Hsame Hout'.
  split; [|exact Hsame]. split; [exact Hwf'|]. split; [|exact Hout'].
  intros l Hl. rewrite Hsame by done. by apply Hin.
Qed.

Lemma press_detached (a : action N) (p : point (N:=N)) st :
  detached p st →
  detached p (press a st).1
  ∧ ∀ l, l ∈ point_cells p → store (press a st).1 !! l = store st !! l.
Proof.
  intros Hdet. pose proof Hdet as (Hwf & Hin & Hout).
  apply detached_step; [done|by apply press_well_formed|..];
    destruct a as [n ty random now|forms|random now| |]; cbn [press].
  - destruct (generate_cells_generating n ty random now st (wf_types _ Hwf))
      as (Hext & _).
    intros l [c Hc]%Hin. rewrite Hc. by apply Hext.
  - done.
  - destruct (update_data_frame random now st) as (_ & _ & Hstore & _).
    intros l Hl. apply Hstore. by apply Hout.
  - unfold start_monitoring, get, modify, mbind, script_bind. cbn.
    by destruct (monitoring_active st).
  - unfold pause_monitoring, get, modify, mbind, script_bind. cbn.
    by destruct (monitoring_active st).
  - destruct (generate_cells_generating n ty random now st (wf_types _ Hwf))
      as (_ & Hnew & _).
    intros l Hl Hl'. apply Hnew in Hl' as [_ Hnone].
    apply Hin in Hl as [c Hc]. congruence.
  - done.
  - destruct (update_data_frame random now st) as (Hcd & _).
    intros l Hl. rewrite Hcd. by apply Hout.
  - unfold start_monitoring, get, modify, mbind, script_bind. cbn.
    by destruct (monitoring_active st).
  - unfold pause_monitoring, get, modify, mbind, script_bind. cbn.
    by destruct (monitoring_active st).
Qed.

Lemma run_from_detached (actions : list (action N)) (p : point (N:=N)) st :
  detached p st →
  ∀ l, l ∈ point_cells p → store (run_from st actions) !! l = store st !! l.
Proof.
  revert st. induction actions as [|a actions IH]; intros st Hdet l Hl; [done|].
  rewrite run_from_cons. destruct (press_detached a p st Hdet) as [Hdet' Hsame].
  rewrite IH by done. by apply Hsame.
Qed.

End Sharing.

(** X10: the snapshots recorded since the last press of "Generate Cells"
    all read the cells as they are now: whatever is done after a state
    [run pre], short of generating cells, every element appended to the
    log reads the current readings of the current cells. *)
Theorem snapshots_since_generate_read_live {N} `{Arith N}
    (pre post : list (action N)) :
  Forall (λ a, is_generate a = false) post →
  ∃ new,
    session_data (run (pre ++ post)) = session_data (run pre) ++ new
    ∧ Forall (λ p, snap_cells (read_point (store (run (pre ++ post))) p)
                   = read_cells (run (pre ++ post))) new.
Proof.
  intros Hpost. unfold run. rewrite run_from_app.
  destruct (run_from_keeps_cells post (run_from init_session_state pre) Hpost)
    as (Hcd & new & Hlog & Hnew).
  exists new. split; [done|].
  eapply Forall_impl; [exact Hnew|].
  intros p Hp. unfold read_cells. cbn. by rewrite Hp, Hcd.
Qed.

(** In [sample_actions], the two snapshots recorded between the two
    presses of "Generate Cells" read the same three voltages. *)
Lemma snapshots_since_generate_read_live_witness :
  log_voltages (run (take 3 sample_actions))
  = [ [dec 325 2; dec 325 2; dec 325 2]; [dec 325 2; dec 325 2; dec 325 2] ]
  ∧ ∃ new,
      session_data (run (take 1 sample_actions ++ take 2 (drop 1 sample_actions)))
      = session_data (run (take 1 sample_actions)) ++ new
      ∧ Forall (λ p, snap_cells (read_point
                       (store (run (take 1 sample_actions
                                    ++ take 2 (drop 1 sample_actions)))) p)
                     = read_cells (run (take 1 sample_actions
                                        ++ take 2 (drop 1 sample_actions)))) new.
Proof.
  split; [vm_compute; reflexivity|].
  apply (snapshots_since_generate_read_live (N:=float)).
  repeat constructor.
Defined.

(** X11: a snapshot recorded before a press of "Generate Cells" reads,
    after that press and whatever is done later, what it read just before
    the press: the new cells live at new locations, and the old ones are
    written no more. *)
Theorem snapshots_before_generate_are_kept {N} `{Arith N}
    (pre post : list (action N)) (g : action N) (p : point (N:=N)) :
  is_generate g = true →
  p ∈ session_data (run pre) →
  p ∈ session_data (run (pre ++ g :: post))
  ∧ read_point (store (run (pre ++ g :: post))) p
    = read_point (store (run pre)) p.
Proof.
  intros Hg Hp. destruct g as [n ty random now| | | |]; try done.
  pose proof (run_well_formed pre) as Hwf.
  unfold run in *. rewrite run_from_app, run_from_cons.
  set (st := run_from init_session_state pre) in *.
  set (st1 := (press (GenerateCells n ty random now) st).1).
  destruct (generate_cells_generating n ty random now st (wf_types _ Hwf))
    as (Hext & Hnew & _ & _ & Hlog & _).
  assert (Hdet : detached p st1).
  { split; [by apply press_well_formed|]. split.
    - intros l Hl. destruct (wf_log_cells _ Hwf p l Hp Hl) as [c Hc].
      exists c. by apply Hext.
    - intros l Hl Hl'. apply Hnew in Hl' as [_ Hnone].
      destruct (wf_log_cells _ Hwf p l Hp Hl) as [c Hc]. congruence. }
  split.
  - assert (Hgrow : ∀ actions st0, p ∈ session_data st0 →
      p ∈ session_data (run_from st0 actions)).
    { clear. induction actions as [|a actions IH]; intros st0 Hp; [done|].
      rewrite run_from_cons. apply IH.
      destruct a as [n ty random now|forms|random now| |]; cbn [press].
      - by rewrite generate_cells_keeps_log.
      - done.
      - destruct (update_data_appends random now st0) as (new & -> & _).
        apply elem_of_app. by left.
      - unfold start_monitoring, get, modify, mbind, script_bind. cbn.
        by destruct (monitoring_active st0).
      - unfold pause_monitoring, get, modify, mbind, script_bind. cbn.
        by destruct (monitoring_active st0). }
    apply Hgrow. unfold st1. cbn [press]. by rewrite Hlog.
  - unfold read_point. f_equal. apply omap_lookup_ext. intros l Hl.
    rewrite (run_from_detached post p st1 Hdet l Hl).
    destruct (wf_log_cells _ Hwf p l Hp Hl) as [c Hc].
    rewrite Hc. by apply Hext.
Qed.

(** In [sample_actions], the two snapshots of the LFP cells still read
    3.25 V after the NMC cells have been generated and updated; the
    snapshot of the NMC cells reads 3.6 V. *)
Lemma snapshots_before_generate_are_kept_witness :
  log_voltages (run sample_actions)
  = [ [dec 325 2; dec 325 2; dec 325 2]; [dec 325 2; dec 325 2; dec 325 2];
      [dec 36 1; dec 36 1] ]
  ∧ read_point (store (run sample_actions))
      {| point_timestamp := 10; point_cells := [0; 1; 2]%nat; point_tasks := [] |}
    = read_point (store (run (take 3 sample_actions)))
        {| point_timestamp := 10; point_cells := [0; 1; 2]%nat; point_tasks := [] |}.
Proof.
  split; [vm_compute; reflexivity|].
  apply (snapshots_before_generate_are_kept (N:=float) (take 3 sample_actions)
           (drop 4 sample_actions)
           (GenerateCells 2 "NMC" (λ _, dec 25 2) (λ _, 30))).
  - reflexivity.
  - vm_compute. left.
Defined.

(** ** Generate Cells *)

Section GenerateCells.
Context {N : Type} `{Arith N}.

Implicit Types st : session_state (N:=N).

Lemma omap_lookup_insert_fresh (σ : gmap loc (cell N)) (ls : list loc) (l : loc)
    (c : cell N) :
  (∀ l', l' ∈ ls → is_Some (σ !! l')) → σ !! l = None →
  omap (λ l', <[l:=c]> σ !! l') (ls ++ [l]) = omap (λ l', σ !! l') ls ++ [c].
Proof.
  intros Hls Hl. rewrite omap_app. cbn. rewrite lookup_insert_eq. f_equal.
  apply omap_lookup_ext. intros l' Hl'. rewrite lookup_insert_ne; [done|].
  intros <-. apply Hls in Hl' as [c' Hc']. congruence.
Qed.

(** The loop of [generate_cells] for a chemistry of the table appends one
    cell per index, in order. *)
Lemma generate_loop ty random now (m k : nat) st :
  is_Some (CELL_TYPES (N:=N) !! ty) →
  (∀ l, l ∈ cells_data st → is_Some (store st !! l)) →
  ∃ st', for_each_do (seq k m) (generate_cell_at ty random now) st = (st', Ok ())
    ∧ Some <$> read_cells st'
      = (Some <$> read_cells st) ++ (generated_cell ty random now <$> seq k m)
    ∧ session_data st' = session_data st
    ∧ tasks_data st' = tasks_data st.
Proof.
  intros Hknown. revert k st. induction m as [|m IH]; intros k st Hcells.
  - exists st. cbn. by rewrite app_nil_r.
  - destruct (generate_cell_at_step ty random now k st) as [[_ Hnone]|(d & Hd & Hstep)].
    { rewrite Hnone in Hknown. by destruct Hknown. }
    pose proof (fresh_loc_None st) as Hfresh.
    set (lf := fresh (dom (store st))) in *.
    set (c := new_cell d (Z.of_nat k + 1) ("Cell_" +:+ pretty (Z.of_nat k + 1)) ty) in *.
    set (st1 := set_cells_data (λ cells, cells ++ [lf]) (set_store (insert lf c) st)) in *.
    destruct (IH (S k) st1) as (st' & Hrun & Hread & Hlog & Htasks).
    { intros l [Hl | ->%list_elem_of_singleton]%elem_of_app; cbn.
      - rewrite lookup_insert_ne; [by apply Hcells|].
        intros <-. apply Hcells in Hl as [c' Hc']. congruence.
      - rewrite lookup_insert_eq. by eexists. }
    exists st'. split; [|split; [|done]].
    + cbn [seq for_each_do]. unfold mbind, script_bind. by rewrite Hstep.
    + rewrite Hread. unfold read_cells at 1. cbn [st1 cells_data store set_cells_data set_store].
      rewrite omap_lookup_insert_fresh by done.
      cbn [seq fmap list_fmap]. rewrite fmap_app, <- app_assoc. cbn.
      do 2 f_equal. unfold generated_cell. by rewrite Hd.
Qed.

End GenerateCells.

(** X12: "Generate Cells" with a chemistry of the table replaces the list
    of cells by [num_cells] new cells, in order: the cell of index [i] has
    id [i + 1], name [Cell_(i + 1)], the chemistry chosen and the reading
    generated from the draws and the time of index [i].  The log and the
    tasks stay as they are. *)
Theorem generate_cells_result {N} `{Arith N} (num_cells : nat)
    (default_cell_type : string) (random : nat → N) (now : nat → Z)
    (st : session_state (N:=N)) :
  is_Some (CELL_TYPES (N:=N) !! default_cell_type) →
  ∃ st',
    generate_cells num_cells default_cell_type random now st
    = (st', Ok [success ("Generated " +:+ pretty (Z.of_nat num_cells)
                          +:+ " cells successfully!")])
    ∧ Some <$> read_cells st'
      = generated_cell default_cell_type random now <$> seq 0 num_cells
    ∧ length (read_cells st') = num_cells
    ∧ session_data st' = session_data st
    ∧ tasks_data st' = tasks_data st.
Proof.
  intros Hknown. rewrite generate_cells_unfold.
  destruct (generate_loop default_cell_type random now num_cells 0
              (set_cells_data (λ _, []) st) Hknown)
    as (st' & Hrun & Hread & Hlog & Htasks).
  { by intros l Hl%elem_of_nil. }
  exists st'. split; [|split; [|split; [|done]]].
  - unfold mbind, script_bind, modify. by rewrite Hrun.
  - by rewrite Hread.
  - apply (f_equal length) in Hread.
    by rewrite length_app, !length_fmap, length_seq in Hread.
Qed.

(** Two LCO cells generated in binary64 from the draws 0.5: their ids and
    names, and the voltage 3.8 V of the chemistry. *)
Lemma generate_cells_result_witness :
  ∃ st', (generate_cells (N:=float) 2 "LCO" (λ _, dec 5 1) (λ _, 7)
            init_session_state).1 = st'
    ∧ (λ c, (cell_id c, cell_name c, cell_type c, cell_voltage c)) <$> read_cells st'
      = [ (1, "Cell_1", "LCO", dec 38 1); (2, "Cell_2", "LCO", dec 38 1) ].
Proof.
  destruct (generate_cells_result (N:=float) 2 "LCO" (λ _, dec 5 1) (λ _, 7)
              init_session_state) as (st' & Hrun & Hread & _); [by eexists|].
  exists st'. split; [by rewrite Hrun|].
  destruct (read_cells st') as [|a [|b [|? ?]]]; vm_compute in Hread;
    try discriminate.
  injection Hread as -> ->. vm_compute. reflexivity.
Defined.

(** ** The classifier in binary64: order and NaN *)

Lemma SFleb_trans (a b c : spec_float) :
  SFleb a b = true → SFleb b c = true → SFleb a c = true.
Proof.
  unfold SFleb.
  destruct a as [sa|sa| |sa ma ea], b as [sb|sb| |sb mb eb], c as [sc|sc| |sc mc ec];
    try destruct sa; try destruct sb; try destruct sc; cbn; try done.
  all: change (Pos.compare_cont Eq) with Pos.compare.
  all: repeat match goal with
       | |- context [Z.compare ?p ?q] => destruct (Z.compare_spec p q)
       | |- context [Pos.compare ?p ?q] => destruct (Pos.compare_spec p q)
       end; cbn; try done; try lia.
Qed.

Lemma SFltb_leb_trans (a b c : spec_float) :
  SFltb a b = true → SFleb b c = true → SFltb a c = true.
Proof.
  unfold SFltb, SFleb.
  destruct a as [sa|sa| |sa ma ea], b as [sb|sb| |sb mb eb], c as [sc|sc| |sc mc ec];
    try destruct sa; try destruct sb; try destruct sc; cbn; try done.
  all: change (Pos.compare_cont Eq) with Pos.compare.
  all: repeat match goal with
       | |- context [Z.compare ?p ?q] => destruct (Z.compare_spec p q)
       | |- context [Pos.compare ?p ?q] => destruct (Pos.compare_spec p q)
       end; cbn; try done; try lia.
Qed.

Lemma SFeqb_nan (x : spec_float) : SFeqb x x = false → x = S754_nan.
Proof.
  unfold SFeqb. destruct x as [s|s| |s m e]; try destruct s; cbn; try done.
  all: rewrite Z.compare_refl; change (Pos.compare_cont Eq m m) with (Pos.compare m m);
    by rewrite Pos.compare_refl.
Qed.

Lemma leb_trans (a b c : float) :
  PrimFloat.leb a b = true → PrimFloat.leb b c = true → PrimFloat.leb a c = true.
Proof. rewrite !leb_spec. apply SFleb_trans. Qed.

Lemma ltb_leb_trans (a b c : float) :
  PrimFloat.ltb a b = true → PrimFloat.leb b c = true → PrimFloat.ltb a c = true.
Proof. rewrite !ltb_spec, leb_spec. apply SFltb_leb_trans. Qed.

Lemma nan_leb_l (x y : float) : isnan x = true → PrimFloat.leb x y = false.
Proof.
  unfold isnan. cbn [eqb binary64]. rewrite negb_true_iff, FloatAxioms.eqb_spec, leb_spec.
  by intros ->%SFeqb_nan.
Qed.

Lemma nan_leb_r (x y : float) : isnan y = true → PrimFloat.leb x y = false.
Proof.
  unfold isnan. cbn [eqb binary64]. rewrite negb_true_iff, FloatAxioms.eqb_spec, leb_spec.
  intros ->%SFeqb_nan. unfold SFleb. by destruct (Prim2SF x).
Qed.

Lemma nan_ltb_r (x y : float) : isnan y = true → PrimFloat.ltb x y = false.
Proof.
  unfold isnan. cbn [eqb binary64]. rewrite negb_true_iff, FloatAxioms.eqb_spec, ltb_spec.
  intros ->%SFeqb_nan. unfold SFltb. by destruct (Prim2SF x).
Qed.

(** X15: in binary64, for every chemistry of the table, a reading that is
    at most as high in voltage and at least as high in temperature as a
    Critical reading is Critical, and as a Warning reading is Warning or
    Critical: a cooler cell at a higher voltage is never the more
    severe. *)
Theorem severity_monotone (cell_type : string) (specs : cell_spec float)
    (voltage voltage' temperature temperature' : float) :
  CELL_TYPES !! cell_type = Some specs →
  PrimFloat.leb voltage' voltage = true →
  PrimFloat.leb temperature temperature' = true →
  (get_cell_status voltage temperature cell_type = Ok Critical →
   get_cell_status voltage' temperature' cell_type = Ok Critical)
  ∧ (get_cell_status voltage temperature cell_type = Ok Warning →
     get_cell_status voltage' temperature' cell_type = Ok Warning
     ∨ get_cell_status voltage' temperature' cell_type = Ok Critical).
Proof.
  intros Hspecs Hv Ht.
  destruct statuses_distinct as (Hcw & Hch & Hcn & Hwh & Hwn & Hhn).
  unfold get_cell_status. rewrite (getitem_Some _ _ _ Hspecs).
  cbn [mbind result_bind leb ltb mul binary64].
  set (crit := PrimFloat.mul (minimum_voltage specs) (dec 11 1)).
  set (warn := PrimFloat.mul (minimum_voltage specs) (dec 12 1)).
  set (high := PrimFloat.mul (maximum_voltage specs) (dec 9 1)).
  set (t45 := dec 45 0). set (t40 := dec 40 0).
  clearbody crit warn high t45 t40.
  assert (Hc : PrimFloat.leb voltage crit || PrimFloat.ltb t45 temperature = true →
               PrimFloat.leb voltage' crit || PrimFloat.ltb t45 temperature' = true).
  { intros [Hc|Hc]%orb_true_iff; apply orb_true_iff.
    - left. by eapply leb_trans.
    - right. by eapply ltb_leb_trans. }
  assert (Hw : PrimFloat.leb voltage warn || PrimFloat.ltb t40 temperature = true →
               PrimFloat.leb voltage' warn || PrimFloat.ltb t40 temperature' = true).
  { intros [Hw|Hw]%orb_true_iff; apply orb_true_iff.
    - left. by eapply leb_trans.
    - right. by eapply ltb_leb_trans. }
  destruct (PrimFloat.leb voltage crit || PrimFloat.ltb t45 temperature).
  { rewrite Hc by done. split; [done|]. intros Heq. congruence. }
  destruct (PrimFloat.leb voltage warn || PrimFloat.ltb t40 temperature).
  { rewrite Hw by done. split; [intros Heq; congruence|].
    intros _. destruct (_ || _); auto. }
  split; destruct (PrimFloat.leb high voltage); intros Heq; congruence.
Qed.

(** LFP: 3.2 V at 41 degrees is Warning; 3.1 V at 46 degrees is
    Critical. *)
Lemma severity_monotone_witness :
  get_cell_status (N:=float) (dec 32 1) (dec 41 0) "LFP" = Ok Warning
  ∧ (get_cell_status (N:=float) (dec 31 1) (dec 46 0) "LFP" = Ok Warning
     ∨ get_cell_status (N:=float) (dec 31 1) (dec 46 0) "LFP" = Ok Critical).
Proof.
  assert (Hw : get_cell_status (N:=float) (dec 32 1) (dec 41 0) "LFP" = Ok Warning)
    by (vm_compute; reflexivity).
  split; [exact Hw|].
  destruct (severity_monotone "LFP" _ (dec 32 1) (dec 31 1) (dec 41 0) (dec 46 0)
              eq_refl) as [_ Hwarn]; [vm_compute; reflexivity..|].
  by apply Hwarn.
Defined.

(** X16: in binary64, a reading whose voltage is NaN is classified by its
    temperature alone, and it is Normal unless the temperature is above
    40: no voltage clause holds of NaN.  A reading whose voltage and
    temperature are both NaN is Normal. *)
Theorem nan_voltage_status (cell_type : string) (specs : cell_spec float)
    (voltage temperature : float) :
  CELL_TYPES !! cell_type = Some specs →
  isnan voltage = true →
  get_cell_status voltage temperature cell_type
  = Ok (if PrimFloat.ltb (dec 45 0) temperature then Critical
        else if PrimFloat.ltb (dec 40 0) temperature then Warning
        else Normal)
  ∧ (isnan temperature = true →
     get_cell_status voltage temperature cell_type = Ok Normal).
Proof.
  intros Hspecs Hnan.
  assert (Hstatus : get_cell_status voltage temperature cell_type
    = Ok (if PrimFloat.ltb (dec 45 0) temperature then Critical
          else if PrimFloat.ltb (dec 40 0) temperature then Warning
          else Normal)).
  { unfold get_cell_status. rewrite (getitem_Some _ _ _ Hspecs).
    cbn [mbind result_bind leb ltb mul binary64].
    rewrite !(nan_leb_l voltage) by done.
    rewrite (nan_leb_r _ voltage) by done. cbn [orb].
    by repeat case_match. }
  split; [exact Hstatus|].
  intros Htemp. rewrite Hstatus. by rewrite !(nan_ltb_r _ temperature).
Qed.

Lemma nan_voltage_status_witness :
  get_cell_status (N:=float) PrimFloat.nan PrimFloat.nan "NMC" = Ok Normal
  ∧ get_cell_status (N:=float) PrimFloat.nan (dec 50 0) "NMC" = Ok Critical.
Proof.
  destruct (nan_voltage_status "NMC" _ PrimFloat.nan PrimFloat.nan eq_refl)
    as [_ Hnormal]; [vm_compute; reflexivity|].
  split; [apply Hnormal; vm_compute; reflexivity|].
  destruct (nan_voltage_status "NMC" _ PrimFloat.nan (dec 50 0) eq_refl)
    as [-> _]; [vm_compute; reflexivity|].
  vm_compute. reflexivity.
Defined.

(** ** The state-of-charge series *)

Section Analytics.
Context {N : Type} `{Arith N}.

Lemma avg_socs_loop (acc : list (pynum N)) (session_data : list (snapshot N)) :
  foldl (λ avg_socs data,
           match snap_cells data with
           | [] => avg_socs ++ [PyInt 0]
           | cells => avg_socs ++ [PyFloat (np_mean (cell_soc <$> cells))]
           end) acc session_data
  = acc ++ avg_socs session_data.
Proof.
  unfold avg_socs. revert acc.
  induction session_data as [|data session_data IH] using rev_ind; intros acc.
  - by rewrite app_nil_r.
  - rewrite !foldl_app. cbn. rewrite IH.
    destruct (snap_cells data); by rewrite app_assoc.
Qed.

Lemma avg_socs_app (ss1 ss2 : list (snapshot N)) :
  avg_socs (ss1 ++ ss2) = avg_socs ss1 ++ avg_socs ss2.
Proof. unfold avg_socs at 1. rewrite foldl_app. apply avg_socs_loop. Qed.

Lemma avg_socs_same_cells (cells : list (cell N)) (ss : list (snapshot N)) :
  cells ≠ [] →
  Forall (λ s, snap_cells s = cells) ss →
  avg_socs ss = replicate (length ss) (PyFloat (np_mean (cell_soc <$> cells))).
Proof.
  intros Hcells. induction 1 as [|s ss Hs _ IH]; [done|].
  change (s :: ss) with ([s] ++ ss). rewrite avg_socs_app, IH.
  unfold avg_socs at 1. cbn. rewrite Hs. by destruct cells.
Qed.

End Analytics.

(** X17: the series "State of Charge Over Time" is flat since the last
    press of "Generate Cells": every point recorded after a state
    [run pre] by actions that generate no cells shows one and the same
    value, the mean state of charge of the current cells. *)
Theorem soc_series_flat_since_generate {N} `{Arith N}
    (pre post : list (action N)) :
  Forall (λ a, is_generate a = false) post →
  ∃ k,
    length (session_data (run (pre ++ post)))
    = (length (session_data (run pre)) + k)%nat
    ∧ avg_socs (read_log (run (pre ++ post)))
      = avg_socs (read_point (store (run (pre ++ post))) <$> session_data (run pre))
        ++ replicate k
             (PyFloat (np_mean (cell_soc <$> read_cells (run (pre ++ post))))).
Proof.
  intros Hpost. pose proof (run_well_formed (pre ++ post)) as Hwf.
  unfold run in *. rewrite run_from_app in *.
  set (st := run_from init_session_state pre) in *.
  set (st' := run_from st post) in *.
  destruct (run_from_keeps_cells post st Hpost) as (Hcd & new & Hlog & Hnew).
  fold st' in Hcd, Hlog.
  exists (length new). split; [by rewrite Hlog, length_app|].
  unfold read_log. rewrite Hlog, fmap_app, avg_socs_app. f_equal.
  destruct new as [|p new]; [done|].
  rewrite <- (length_fmap (read_point (store st'))).
  apply avg_socs_same_cells.
  - assert (Hp : p ∈ session_data st') by (rewrite Hlog; set_solver).
    pose proof (wf_log_nonempty _ Hwf p Hp) as Hne.
    apply Forall_inv in Hnew. rewrite Hnew, <- Hcd in Hne.
    intros Hnil. apply (f_equal length) in Hnil.
    unfold read_cells in Hnil. rewrite omap_lookup_length in Hnil.
    + by destruct (cells_data st').
    + apply (wf_cells _ Hwf).
  - apply Forall_fmap. eapply Forall_impl; [exact Hnew|].
    intros q Hq. unfold read_cells. cbn. by rewrite Hq, Hcd.
Qed.

(** In [sample_actions], the two points recorded for the LFP cells show
    the same state of charge, although the two updates drew different
    voltages. *)
Lemma soc_series_flat_since_generate_witness :
  avg_socs (read_log (run (take 3 sample_actions)))
  = replicate 2 (PyFloat (np_mean (cell_soc <$> read_cells (run (take 3 sample_actions)))))
  ∧ ∃ k,
    length (session_data (run (take 1 sample_actions ++ take 2 (drop 1 sample_actions))))
    = (length (session_data (run (take 1 sample_actions))) + k)%nat
    ∧ avg_socs (read_log (run (take 1 sample_actions ++ take 2 (drop 1 sample_actions))))
      = avg_socs (read_point
                    (store (run (take 1 sample_actions ++ take 2 (drop 1 sample_actions))))
                  <$> session_data (run (take 1 sample_actions)))
        ++ replicate k
             (PyFloat (np_mean (cell_soc <$>
                read_cells (run (take 1 sample_actions
                                 ++ take 2 (drop 1 sample_actions)))))).
Proof.
  split; [vm_compute; reflexivity|].
  apply (soc_series_flat_since_generate (N:=float)).
  repeat constructor.
Defined.
